(** * BACKUP STAGE: the staged backup state machine of sql/backup.cc

    A shallow embedding of the functions of sql/backup.cc (backup_init,
    run_backup_stage, backup_start, backup_flush, backup_block_ddl,
    backup_block_commit, backup_end and the two alter-copy helpers) as
    state-passing programs over one session and the two process-wide
    variables, followed by the properties of the stage runner. *)

From Stdlib Require Import ZArith Lia.
From stdpp Require Import base gmap list strings.

Local Open Scope string_scope.
Local Open Scope list_scope.
Local Open Scope Z_scope.

(** ** Data model *)

(** Modelled from the spec: the enumeration [backup_stages] is declared in
    a header that is not among the sources.  The six enumerators are the
    ones the switch of run_backup_stage lists; their numeric codes are the
    ones the source relies on: [stage_names] is indexed by the enumerator
    (START .. END are 0 .. 4), and BACKUP_FINISHED, the last case of the
    switch, is the next code, 5, the index of the table's null entry. *)
Inductive backup_stages : Set :=
| BACKUP_START
| BACKUP_FLUSH
| BACKUP_WAIT_FOR_FLUSH
| BACKUP_LOCK_COMMIT
| BACKUP_END
| BACKUP_FINISHED.

#[global] Instance backup_stages_eq_dec : EqDecision backup_stages.
Proof. solve_decision. Defined.

(** The cast [(uint) stage]. *)
Definition stage_uint (s : backup_stages) : Z :=
  match s with
  | BACKUP_START => 0
  | BACKUP_FLUSH => 1
  | BACKUP_WAIT_FOR_FLUSH => 2
  | BACKUP_LOCK_COMMIT => 3
  | BACKUP_END => 4
  | BACKUP_FINISHED => 5
  end.

(** The cast [(backup_stages) n]; [None] when [n] is no enumerator. *)
Definition stage_of_uint (n : Z) : option backup_stages :=
  match n with
  | 0 => Some BACKUP_START
  | 1 => Some BACKUP_FLUSH
  | 2 => Some BACKUP_WAIT_FOR_FLUSH
  | 3 => Some BACKUP_LOCK_COMMIT
  | 4 => Some BACKUP_END
  | 5 => Some BACKUP_FINISHED
  | _ => None
  end.

(** [(uint) x + 1] in 32-bit unsigned arithmetic. *)
Definition uint_succ (n : Z) : Z := (n + 1) mod 2 ^ 32.

(** [static const char *stage_names[]]; [None] is the terminating 0. *)
Definition stage_names : list (option string) :=
  [Some "START"; Some "FLUSH"; Some "BLOCK_DDL"; Some "BLOCK_COMMIT";
   Some "END"; None].

(** [backup_stage_names.count], that is [array_elements(stage_names)-1]. *)
Definition backup_stage_names_count : nat := length stage_names - 1.

(** The expression [stage_names[i]]: the name stored at index [i], [None]
    for the null pointer. *)
Definition stage_name_at (i : Z) : option string :=
  mjoin (stage_names !! Z.to_nat i).

(** Modelled from the spec: the lock modes of the metadata lock manager
    (mdl.h is not among the sources).  These are the seven mode constants
    sql/backup.cc names, kept apart as the distinct enumerators they are. *)
Inductive enum_mdl_type : Set :=
| MDL_BACKUP_FLUSH
| MDL_BACKUP_WAIT_FLUSH
| MDL_BACKUP_WAIT_DDL
| MDL_BACKUP_WAIT_COMMIT
| MDL_BACKUP_DML
| MDL_BACKUP_DDL
| MDL_BACKUP_ALTER_COPY.

#[global] Instance enum_mdl_type_eq_dec : EqDecision enum_mdl_type.
Proof. solve_decision. Defined.

(** The argument of flush_tables. *)
Inductive flush_tables_type : Set :=
| FLUSH_NON_TRANS_TABLES
| FLUSH_SYS_TABLES.

(** A [MDL_ticket *] that is not null: the address of a granted lock. *)
Abbreviation ticket := positive (only parsing).

(** The errors raised through my_error, with their arguments. *)
Inductive error : Set :=
| ER_BACKUP_NOT_RUNNING
| ER_BACKUP_WRONG_STAGE (requested current : option string)
| ER_BACKUP_STAGE_FAILED (requested : option string)
| ER_LOCK_OR_ACTIVE_TRANSACTION
| ER_OPTION_PREVENTS_STATEMENT.

(** What a call does that is visible outside of it, in program order:
    the stores to the session's stage and to the two globals, the calls
    to the collaborators with their outcome, and the DBUG trace. *)
Inductive event : Set :=
| DBUG_ENTER (fn : string)
| DBUG_ASSERT_0
| my_error (e : error)
| store_stage (s : backup_stages)
| store_running (b : bool)
| store_flush_ticket (t : option ticket)
| mutex_lock
| mutex_unlock
| enter_cond
| exit_cond
| cond_wait
| cond_signal
| mdl_acquire (m : enum_mdl_type) (timeout : Z) (granted : option ticket)
| mdl_upgrade (t : option ticket) (m : enum_mdl_type) (timeout : Z)
    (failed : bool)
| mdl_downgrade (t : ticket) (m : enum_mdl_type)
| mdl_release (t : ticket)
| purge_tables_call
| flush_tables_call (what : flush_tables_type) (failed : bool)
| ha_prepare_for_backup_call
| ha_end_backup_call.

#[global] Instance error_eq_dec : EqDecision error.
Proof. solve_decision. Defined.
#[global] Instance flush_tables_type_eq_dec : EqDecision flush_tables_type.
Proof. solve_decision. Defined.
#[global] Instance event_eq_dec : EqDecision event.
Proof. solve_decision. Defined.

(** The state the file works on: the two fields of the session (THD) it
    reads and writes, the two static variables, the tickets the lock
    manager has granted with their current mode, and the events so far. *)
Record world : Type := World {
  current_backup_stage : backup_stages;
  mdl_backup_ticket : option ticket;
  backup_running : bool;
  backup_flush_ticket : option ticket;
  mdl_tickets : gmap positive enum_mdl_type;
  trace : list event
}.

(** One observation made when mysql_cond_wait returns: the value other
    sessions left in [backup_running] and whether this session has been
    killed in the meantime. *)
Record wakeup : Set := Wakeup {
  seen_running : bool;
  seen_killed : bool
}.

(** What a call reads from the session and what the collaborators answer
    during it.  Each handler runs at most once per call, so one answer per
    call site is enough. *)
Record env : Type := Env {
  read_only_protection : bool;      (* thd->has_read_only_protection() *)
  locked_tables_mode : bool;        (* thd->locked_tables_mode *)
  killed : bool;                    (* thd->killed on entry of the wait loop *)
  wakeups : list wakeup;            (* returns of mysql_cond_wait *)
  killed_late : bool;               (* killed between the loop and the test *)
  lock_wait_timeout : Z;            (* thd->variables.lock_wait_timeout *)
  acquire_flush_fails : bool;       (* acquire_lock in backup_flush *)
  upgrade_wait_flush_fails : bool;  (* first upgrade in backup_block_ddl *)
  flush_non_trans_fails : bool;     (* flush_tables in backup_block_ddl *)
  is_error : bool;                  (* thd->is_error() after that flush *)
  upgrade_wait_ddl_fails : bool;    (* second upgrade in backup_block_ddl *)
  upgrade_wait_commit_fails : bool; (* upgrade in backup_block_commit *)
  flush_sys_fails : bool;           (* flush_tables in backup_block_commit *)
  upgrade_ddl_fails : bool          (* upgrade in backup_reset_alter_copy_lock *)
}.

(** ** The monad of the embedding *)

(** A call returns a value in a new state, or never returns because the
    thread stays in mysql_cond_wait, or reaches a switch with no case for
    its value, or the loop of the model runs out of iterations. *)
Inductive outcome (A : Type) : Type :=
| Returns (a : A) (w : world)
| Blocks (w : world)
| Undefined
| OutOfFuel.
Arguments Returns {A} a w.
Arguments Blocks {A} w.
Arguments Undefined {A}.
Arguments OutOfFuel {A}.

Definition M (A : Type) : Type := world -> outcome A.

Definition ret {A} (a : A) : M A := fun w => Returns a w.

Definition bind {A B} (m : M A) (k : A -> M B) : M B :=
  fun w =>
    match m w with
    | Returns a w' => k a w'
    | Blocks w' => Blocks w'
    | Undefined => Undefined
    | OutOfFuel => OutOfFuel
    end.

Declare Scope backup_scope.
Delimit Scope backup_scope with backup.
Notation "x <- m ;; k" := (bind m (fun x => k))
  (at level 100, m at next level, right associativity) : backup_scope.
Notation "m ;; k" := (bind m (fun _ => k))
  (at level 100, right associativity) : backup_scope.
Local Open Scope backup_scope.

Definition gets {A} (f : world -> A) : M A := fun w => Returns (f w) w.

Definition emit (e : event) : M unit :=
  fun w =>
    Returns tt
      (World (current_backup_stage w) (mdl_backup_ticket w)
         (backup_running w) (backup_flush_ticket w) (mdl_tickets w)
         (trace w ++ [e])).

(** [thd->current_backup_stage= s]. *)
Definition set_stage (s : backup_stages) : M unit :=
  fun w =>
    Returns tt
      (World s (mdl_backup_ticket w) (backup_running w)
         (backup_flush_ticket w) (mdl_tickets w)
         (trace w ++ [store_stage s])).

(** [backup_running= b]. *)
Definition set_running (b : bool) : M unit :=
  fun w =>
    Returns tt
      (World (current_backup_stage w) (mdl_backup_ticket w) b
         (backup_flush_ticket w) (mdl_tickets w)
         (trace w ++ [store_running b])).

(** [backup_flush_ticket= t]. *)
Definition set_flush_ticket (t : option ticket) : M unit :=
  fun w =>
    Returns tt
      (World (current_backup_stage w) (mdl_backup_ticket w)
         (backup_running w) t (mdl_tickets w)
         (trace w ++ [store_flush_ticket t])).

(** The lock manager changes its table of granted tickets. *)
Definition set_tickets (m : gmap positive enum_mdl_type) : M unit :=
  fun w =>
    Returns tt
      (World (current_backup_stage w) (mdl_backup_ticket w)
         (backup_running w) (backup_flush_ticket w) m (trace w)).

(** What this session sees of [backup_running] when it wakes up: the
    value other sessions stored while it slept. *)
Definition observe_running (b : bool) : M unit :=
  fun w =>
    Returns tt
      (World (current_backup_stage w) (mdl_backup_ticket w) b
         (backup_flush_ticket w) (mdl_tickets w) (trace w)).

(** ** Collaborators *)

(** The lock manager, the table cache, the storage engines and the
    session methods are not among the sources.  Each call is recorded in
    the trace; whether it fails is the answer of [env]; a granted or
    upgraded lock has the requested mode afterwards, a failed call changes
    no ticket. *)

(** Modelled from the spec: [acquire(kind, mode, explicit-scope, timeout)
    -> Ticket|Fail], the call
    [thd->mdl_context.acquire_lock(&mdl_request, timeout)].  The result is
    the ticket granted ([mdl_request.ticket]), a lock no one holds yet,
    [None] on failure. *)
Definition acquire_lock (fails : bool) (m : enum_mdl_type) (timeout : Z)
  : M (option ticket) :=
  if fails then
    emit (mdl_acquire m timeout None) ;; ret None
  else
    tks <- gets mdl_tickets ;;
    let t := fresh (dom tks) in
    set_tickets (<[t := m]> tks) ;;
    emit (mdl_acquire m timeout (Some t)) ;;
    ret (Some t).

(** Modelled from the spec: [upgrade(ticket, mode, timeout) -> ok|Fail],
    the call [thd->mdl_context.upgrade_shared_lock(t, m, timeout)]; true
    is failure.  The table of tickets has no entry to change when [t] is
    null or names no granted lock. *)
Definition upgrade_shared_lock (fails : bool) (t : option ticket)
    (m : enum_mdl_type) (timeout : Z) : M bool :=
  emit (mdl_upgrade t m timeout fails) ;;
  if fails then ret true
  else
    match t with
    | None => ret false
    | Some t' =>
        tks <- gets mdl_tickets ;;
        set_tickets (alter (fun _ => m) t' tks) ;;
        ret false
    end.

(** Modelled from the spec: [downgrade(ticket, mode)], the call
    [t->downgrade_lock(m)]. *)
Definition downgrade_lock (t : ticket) (m : enum_mdl_type) : M unit :=
  emit (mdl_downgrade t m) ;;
  tks <- gets mdl_tickets ;;
  set_tickets (alter (fun _ => m) t tks).

(** Modelled from the spec: [release(ticket)], the call
    [thd->mdl_context.release_lock(t)]. *)
Definition release_lock (t : ticket) : M unit :=
  emit (mdl_release t) ;;
  tks <- gets mdl_tickets ;;
  set_tickets (delete t tks).

(** Modelled from the spec: [flush_tables(scope) -> ok|Fail], the call
    [flush_tables(thd, what)]; true is failure. *)
Definition flush_tables (fails : bool) (what : flush_tables_type) : M bool :=
  emit (flush_tables_call what fails) ;; ret fails.

(** Modelled from the spec: [thd->has_read_only_protection()] is true,
    and has raised its own error, when the session is under read-only
    enforcement. *)
Definition has_read_only_protection (e : env) : M bool :=
  if read_only_protection e then
    emit (my_error ER_OPTION_PREVENTS_STATEMENT) ;; ret true
  else ret false.

(** ** The functions of sql/backup.cc *)

(** [backup_init]. *)
Definition backup_init : M unit :=
  set_running false ;;
  set_flush_ticket None.

(** The loop [while (backup_running && !thd->killed) mysql_cond_wait(..)]
    of backup_start; the result is the value of [thd->killed] the loop
    left on.  With nothing left to wake it up the session stays blocked. *)
Fixpoint wait_for_backup (k : bool) (ws : list wakeup) : M bool :=
  fun w =>
    if backup_running w && negb k then
      match ws with
      | [] => (emit cond_wait ;; (fun w' => Blocks w')) w
      | wk :: ws' =>
          (emit cond_wait ;;
           observe_running (seen_running wk) ;;
           wait_for_backup (seen_killed wk) ws') w
      end
    else Returns k w.

(** [static bool backup_start(THD *thd)]. *)
Definition backup_start (e : env) : M bool :=
  emit (DBUG_ENTER "backup_start") ;;
  set_stage BACKUP_FINISHED ;;
  ro <- has_read_only_protection e ;;
  if ro then ret true
  else
    set_stage BACKUP_START ;;
    if locked_tables_mode e then
      emit (my_error ER_LOCK_OR_ACTIVE_TRANSACTION) ;; ret true
    else
      emit mutex_lock ;;
      emit enter_cond ;;
      k <- wait_for_backup (killed e) (wakeups e) ;;
      if k || killed_late e then
        emit cond_signal ;;
        emit exit_cond ;;
        ret true
      else
        set_running true ;;
        emit exit_cond ;;
        emit ha_prepare_for_backup_call ;;
        ret false.

(** [static bool backup_flush(THD *thd)]. *)
Definition backup_flush (e : env) : M bool :=
  emit (DBUG_ENTER "backup_flush") ;;
  r <- acquire_lock (acquire_flush_fails e) MDL_BACKUP_FLUSH
         (lock_wait_timeout e) ;;
  match r with
  | None => ret true
  | Some t =>
      set_flush_ticket (Some t) ;;
      emit purge_tables_call ;;
      ret false
  end.

(** [static bool backup_block_ddl(THD *thd)]. *)
Definition backup_block_ddl (e : env) : M bool :=
  emit (DBUG_ENTER "backup_block_ddl") ;;
  t <- gets backup_flush_ticket ;;
  f1 <- upgrade_shared_lock (upgrade_wait_flush_fails e) t
          MDL_BACKUP_WAIT_FLUSH (lock_wait_timeout e) ;;
  if f1 then ret true
  else
    f2 <- flush_tables (flush_non_trans_fails e) FLUSH_NON_TRANS_TABLES ;;
    if f2 then ret (is_error e)
    else
      t' <- gets backup_flush_ticket ;;
      f3 <- upgrade_shared_lock (upgrade_wait_ddl_fails e) t'
              MDL_BACKUP_WAIT_DDL (lock_wait_timeout e) ;;
      if f3 then ret true else ret false.

(** [static bool backup_block_commit(THD *thd)]. *)
Definition backup_block_commit (e : env) : M bool :=
  emit (DBUG_ENTER "backup_block_commit") ;;
  t <- gets backup_flush_ticket ;;
  f <- upgrade_shared_lock (upgrade_wait_commit_fails e) t
         MDL_BACKUP_WAIT_COMMIT (lock_wait_timeout e) ;;
  if f then ret true
  else
    flush_tables (flush_sys_fails e) FLUSH_SYS_TABLES ;;
    ret false.

(** [bool backup_end(THD *thd)]. *)
Definition backup_end : M bool :=
  emit (DBUG_ENTER "backup_end") ;;
  cur <- gets current_backup_stage ;;
  if decide (cur <> BACKUP_FINISHED) then
    set_stage BACKUP_FINISHED ;;
    t <- gets backup_flush_ticket ;;
    match t with
    | Some t' =>
        release_lock t' ;;
        set_flush_ticket None
    | None => ret tt
    end ;;
    emit ha_end_backup_call ;;
    emit mutex_lock ;;
    set_running false ;;
    emit cond_signal ;;
    emit mutex_unlock ;;
    ret false
  else ret false.

(** The switch of run_backup_stage. *)
Definition run_stage_handler (e : env) (next_stage : backup_stages) : M bool :=
  match next_stage with
  | BACKUP_START =>
      res <- backup_start e ;;
      if negb res then ret res
      else
        (* Reset backup stage to start for next backup try *)
        set_stage BACKUP_FINISHED ;;
        ret res
  | BACKUP_FLUSH => backup_flush e
  | BACKUP_WAIT_FOR_FLUSH => backup_block_ddl e
  | BACKUP_LOCK_COMMIT => backup_block_commit e
  | BACKUP_END => backup_end
  | BACKUP_FINISHED => emit DBUG_ASSERT_0 ;; ret false
  end.

(** The do-while loop of run_backup_stage, with [next_stage] held as the
    unsigned value the loop increments and compares.  [n] bounds the
    number of iterations of the model. *)
Fixpoint run_stages (n : nat) (e : env) (stage : backup_stages)
    (next_stage : Z) : M bool :=
  match n with
  | O => fun _ => OutOfFuel
  | S n' =>
      match stage_of_uint next_stage with
      | None => fun _ => Undefined
      | Some next =>
          set_stage next ;;
          res <- run_stage_handler e next ;;
          if res then
            emit (my_error
                    (ER_BACKUP_STAGE_FAILED
                       (stage_name_at (stage_uint stage)))) ;;
            ret true
          else
            let next_stage' := uint_succ next_stage in
            if next_stage' <=? stage_uint stage then
              run_stages n' e stage next_stage'
            else ret false
      end
  end.

(** [bool run_backup_stage(THD *thd, backup_stages stage)]; true is
    failure.  Six iterations are as many as there are stages. *)
Definition run_backup_stage (e : env) (stage : backup_stages) : M bool :=
  emit (DBUG_ENTER "run_backup_stage") ;;
  cur <- gets current_backup_stage ;;
  if decide (cur = BACKUP_FINISHED) then
    if decide (stage <> BACKUP_START) then
      emit (my_error ER_BACKUP_NOT_RUNNING) ;; ret true
    else run_stages 6 e stage (stage_uint BACKUP_START)
  else
    if stage_uint stage <=? stage_uint cur then
      emit (my_error
              (ER_BACKUP_WRONG_STAGE (stage_name_at (stage_uint stage))
                 (stage_name_at (stage_uint cur)))) ;;
      ret true
    else if decide (stage = BACKUP_END) then
      run_stages 6 e stage (stage_uint stage)
    else
      run_stages 6 e stage (uint_succ (stage_uint cur)).

(** [void backup_set_alter_copy_lock(THD *thd)]. *)
Definition backup_set_alter_copy_lock : M unit :=
  t <- gets mdl_backup_ticket ;;
  match t with
  | Some t' => downgrade_lock t' MDL_BACKUP_ALTER_COPY
  | None => ret tt
  end.

(** [bool backup_reset_alter_copy_lock(THD *thd)]. *)
Definition backup_reset_alter_copy_lock (e : env) : M bool :=
  t <- gets mdl_backup_ticket ;;
  match t with
  | Some t' =>
      upgrade_shared_lock (upgrade_ddl_fails e) (Some t') MDL_BACKUP_DDL
        (lock_wait_timeout e)
  | None => ret false
  end.

(** ** Sessions as the program produces them *)

(** A session before its first BACKUP STAGE command: the THD constructor
    leaves the stage at BACKUP_FINISHED, backup_init has cleared the two
    globals.  The session may own an alter-copy ticket. *)
Definition initial (w : world) : Prop :=
  current_backup_stage w = BACKUP_FINISHED /\
  backup_running w = false /\
  backup_flush_ticket w = None.

(** One returned call of an entry point of the file, or what the other
    sessions do that this one can see: while it holds no backup (its
    stage is BACKUP_FINISHED) they take and give back the slot
    [backup_running].  They leave [backup_flush_ticket] null whenever the
    slot is free, and only the holder of the slot reads or writes it. *)
Inductive step : world -> world -> Prop :=
| step_run_backup_stage e stage w r w' :
    run_backup_stage e stage w = Returns r w' -> step w w'
| step_backup_end w r w' :
    backup_end w = Returns r w' -> step w w'
| step_set_alter_copy_lock w w' :
    backup_set_alter_copy_lock w = Returns tt w' -> step w w'
| step_reset_alter_copy_lock e w r w' :
    backup_reset_alter_copy_lock e w = Returns r w' -> step w w'
| step_other_sessions b w :
    current_backup_stage w = BACKUP_FINISHED ->
    step w (World (current_backup_stage w) (mdl_backup_ticket w) b
              (backup_flush_ticket w) (mdl_tickets w) (trace w)).

Inductive reachable : world -> Prop :=
| reachable_initial w : initial w -> reachable w
| reachable_step w w' : reachable w -> step w w' -> reachable w'.

(** An empty session and an environment in which nothing fails, for the
    examples. *)
Definition world0 : world :=
  World BACKUP_FINISHED None false None ∅ [].

Definition env0 : env :=
  Env false false false [] false 3600 false false false false false false
    false false.

(** ** Traces *)

(** [record d w]: the state [w] after the events [d]. *)
Definition record (d : list event) (w : world) : world :=
  World (current_backup_stage w) (mdl_backup_ticket w) (backup_running w)
    (backup_flush_ticket w) (mdl_tickets w) (trace w ++ d).

(** The events of a call that started in [w] and left [w']. *)
Definition events_since (w w' : world) : list event :=
  drop (length (trace w)) (trace w').

(** The functions entered, from the DBUG trace. *)
Definition entered (d : list event) : list string :=
  omap (fun ev => match ev with DBUG_ENTER f => Some f | _ => None end) d.

(** The errors raised. *)
Definition errors (d : list event) : list error :=
  omap (fun ev => match ev with my_error x => Some x | _ => None end) d.

(** The tickets handed to release_lock. *)
Definition released (d : list event) : list ticket :=
  omap (fun ev => match ev with mdl_release t => Some t | _ => None end) d.

(** The values stored to [thd->current_backup_stage]. *)
Definition stage_stores (d : list event) : list backup_stages :=
  omap (fun ev => match ev with store_stage s => Some s | _ => None end) d.

(** The failed assertions. *)
Definition failed_asserts (d : list event) : list unit :=
  omap (fun ev => match ev with DBUG_ASSERT_0 => Some tt | _ => None end) d.

(** The values stored to [backup_running]. *)
Definition running_stores (d : list event) : list bool :=
  omap (fun ev => match ev with store_running b => Some b | _ => None end) d.

(** The lock upgrades requested, with the ticket and the outcome. *)
Definition upgrades (d : list event)
  : list (option ticket * enum_mdl_type * bool) :=
  omap (fun ev =>
          match ev with
          | mdl_upgrade t m _ f => Some (t, m, f)
          | _ => None
          end) d.

(** The outcome of the last acquire_lock, if there was one. *)
Definition last_acquire (d : list event) : option (option ticket) :=
  last (omap (fun ev =>
                match ev with
                | mdl_acquire _ _ g => Some g
                | _ => None
                end) d).

(** The part of the state a client of the file can look at. *)
Definition observable (w : world)
  : backup_stages * option ticket * bool * option ticket
    * gmap positive enum_mdl_type :=
  (current_backup_stage w, mdl_backup_ticket w, backup_running w,
   backup_flush_ticket w, mdl_tickets w).

(** ** The START handler *)

(** The events of backup_start, given how many times it slept and what it
    returned. *)
Definition start_events (e : env) (n : nat) (r : bool) : list event :=
  [DBUG_ENTER "backup_start"; store_stage BACKUP_FINISHED] ++
  if read_only_protection e then [my_error ER_OPTION_PREVENTS_STATEMENT]
  else
    store_stage BACKUP_START ::
    if locked_tables_mode e then [my_error ER_LOCK_OR_ACTIVE_TRANSACTION]
    else
      [mutex_lock; enter_cond] ++ replicate n cond_wait ++
      if r then [cond_signal; exit_cond]
      else [store_running true; exit_cond; ha_prepare_for_backup_call].

(** The events of backup_start up to the wait it never leaves, after [n]
    calls of mysql_cond_wait. *)
Definition start_blocked_events (n : nat) : list event :=
  [DBUG_ENTER "backup_start"; store_stage BACKUP_FINISHED;
   store_stage BACKUP_START; mutex_lock; enter_cond] ++
  replicate n cond_wait.

(** ** The stage runner as a plan *)

(** The stages in the order of their codes. *)
Definition all_stages : list backup_stages :=
  [BACKUP_START; BACKUP_FLUSH; BACKUP_WAIT_FOR_FLUSH; BACKUP_LOCK_COMMIT;
   BACKUP_END; BACKUP_FINISHED].

(** The order of the spec: FINISHED < START < FLUSH < WAIT_FOR_FLUSH <
    LOCK_COMMIT < END. *)
Definition ladder_rank (s : backup_stages) : nat :=
  match s with
  | BACKUP_FINISHED => 0
  | BACKUP_START => 1
  | BACKUP_FLUSH => 2
  | BACKUP_WAIT_FOR_FLUSH => 3
  | BACKUP_LOCK_COMMIT => 4
  | BACKUP_END => 5
  end.

(** A request that passes the two tests at the head of run_backup_stage. *)
Definition admissible (cur stage : backup_stages) : bool :=
  if decide (cur = BACKUP_FINISHED) then bool_decide (stage = BACKUP_START)
  else stage_uint cur <? stage_uint stage.

(** The stages a request runs: START alone from FINISHED, END alone when
    END is requested, else every stage after the current one up to the
    requested one, in ascending order. *)
Definition stage_sequence (cur stage : backup_stages) : list backup_stages :=
  if decide (cur = BACKUP_FINISHED) then [BACKUP_START]
  else if decide (stage = BACKUP_END) then [BACKUP_END]
  else
    filter (fun s => stage_uint cur < stage_uint s <= stage_uint stage)
      all_stages.

(** One iteration of the loop up to the test of [res]. *)
Definition stage_step (e : env) (s : backup_stages) : M bool :=
  set_stage s ;; run_stage_handler e s.

(** Run the handlers of a list of stages, stopping at the first that
    fails with the error that names the requested stage. *)
Fixpoint run_plan (e : env) (stage : backup_stages)
    (plan : list backup_stages) : M bool :=
  match plan with
  | [] => ret false
  | s :: rest =>
      set_stage s ;;
      res <- run_stage_handler e s ;;
      if res then
        emit (my_error
                (ER_BACKUP_STAGE_FAILED (stage_name_at (stage_uint stage)))) ;;
        ret true
      else run_plan e stage rest
  end.

(** [ran e w ss r w']: from [w] the handlers of the stages [ss] ran one
    after the other, each but the last returned success, the last returned
    [r] and left [w']. *)
Inductive ran (e : env) : world -> list backup_stages -> bool -> world -> Prop :=
| ran_last s w r w' :
    stage_step e s w = Returns r w' -> ran e w [s] r w'
| ran_next s ss w w1 r w' :
    stage_step e s w = Returns false w1 ->
    ran e w1 ss r w' ->
    ran e w (s :: ss) r w'.

(** ** One stage *)

(** The stage a handler leaves behind: backup_end resets it, a failed
    START is reset by the runner, every other handler leaves what the
    runner stored. *)
Definition stage_after (s : backup_stages) (r : bool) : backup_stages :=
  match s with
  | BACKUP_START => if r then BACKUP_FINISHED else BACKUP_START
  | BACKUP_END => BACKUP_FINISHED
  | _ => s
  end.

(** The stages a handler stores itself. *)
Definition handler_stores (e : env) (s : backup_stages) (r : bool)
  : list backup_stages :=
  match s with
  | BACKUP_START =>
      BACKUP_FINISHED ::
      (if read_only_protection e then [] else [BACKUP_START]) ++
      (if r then [BACKUP_FINISHED] else [])
  | BACKUP_END => [BACKUP_FINISHED]
  | _ => []
  end.

(** The function a stage enters. *)
Definition handler_name (s : backup_stages) : list string :=
  match s with
  | BACKUP_START => ["backup_start"]
  | BACKUP_FLUSH => ["backup_flush"]
  | BACKUP_WAIT_FOR_FLUSH => ["backup_block_ddl"]
  | BACKUP_LOCK_COMMIT => ["backup_block_commit"]
  | BACKUP_END => ["backup_end"]
  | BACKUP_FINISHED => []
  end.

(** ** Requesting END *)

(** What backup_end does when the session's stage is not
    BACKUP_FINISHED. *)
Definition backup_end_events (ft : option ticket) : list event :=
  [DBUG_ENTER "backup_end"; store_stage BACKUP_FINISHED] ++
  match ft with
  | Some t => [mdl_release t; store_flush_ticket None]
  | None => []
  end ++
  [ha_end_backup_call; mutex_lock; store_running false; cond_signal;
   mutex_unlock].

(** The events of the END stage of the runner. *)
Definition end_events (ft : option ticket) : list event :=
  store_stage BACKUP_END :: backup_end_events ft.

(** ** Example sessions *)

(** The state a call leaves. *)
Definition after {A} (o : outcome A) : world :=
  match o with
  | Returns _ w => w
  | Blocks w => w
  | Undefined | OutOfFuel => world0
  end.

(** The session after a successful BACKUP STAGE START. *)
Definition w_started : world :=
  Eval vm_compute in after (run_backup_stage env0 BACKUP_START world0).

(** The session after a successful BACKUP STAGE FLUSH. *)
Definition w_flushed : world :=
  Eval vm_compute in after (run_backup_stage env0 BACKUP_FLUSH w_started).

(** ** Failing handlers *)

(** An environment in which the lock of the FLUSH stage is not granted. *)
Definition env_flush_fails : env :=
  Env false false false [] false 3600 true false false false false false
    false false.

(** The session after START and a FLUSH whose lock was not granted. *)
Definition w_flush_failed : world :=
  Eval vm_compute in
    after (run_backup_stage env_flush_fails BACKUP_FLUSH w_started).

(** The session after START and a request for BLOCK_COMMIT during which
    the lock of the FLUSH stage was not granted. *)
Definition w_commit_failed : world :=
  Eval vm_compute in
    after (run_backup_stage env_flush_fails BACKUP_LOCK_COMMIT w_started).

(** ** The flush ticket *)

(** The outcomes of the calls of acquire_lock. *)
Definition acquires (d : list event) : list (option ticket) :=
  omap (fun ev => match ev with mdl_acquire _ _ g => Some g | _ => None end)
    d.

(** The stage is at or after FLUSH and before END. *)
Definition in_flush_window (s : backup_stages) : Prop :=
  stage_uint BACKUP_FLUSH <= stage_uint s < stage_uint BACKUP_END.

(** The stage a handler is entered from. *)
Definition enters_from (c s : backup_stages) : Prop :=
  match s with
  | BACKUP_START => c = BACKUP_FINISHED
  | BACKUP_FLUSH => c = BACKUP_START
  | BACKUP_WAIT_FOR_FLUSH => c = BACKUP_FLUSH
  | BACKUP_LOCK_COMMIT => c = BACKUP_WAIT_FOR_FLUSH
  | BACKUP_END => c <> BACKUP_FINISHED
  | BACKUP_FINISHED => c = BACKUP_FINISHED
  end.

(** Each stage of the list is entered from the stage its predecessor
    leaves on success. *)
Fixpoint in_sequence (c : backup_stages) (ss : list backup_stages) : Prop :=
  match ss with
  | [] => True
  | s :: rest => enters_from c s /\ in_sequence (stage_after s false) rest
  end.

(** The ticket is held inside the window only, and inside the window it
    is what the last acquire_lock returned. *)
Definition ticket_inv (w : world) : Prop :=
  (backup_flush_ticket w <> None ->
   in_flush_window (current_backup_stage w)) /\
  (in_flush_window (current_backup_stage w) ->
   last_acquire (trace w) = Some (backup_flush_ticket w)).

(** ** The alter-copy lock *)

(** A session in the copy phase of ALTER TABLE: its backup ticket is the
    lock at address 1, held in mode [m]. *)
Definition w_alter (m : enum_mdl_type) : world :=
  World BACKUP_FINISHED (Some 1%positive) false None {[1%positive := m]} [].

(** ** Failures of the START handler *)

(** A session at rest while another session holds the backup slot. *)
Definition w_other_running : world :=
  World BACKUP_FINISHED None true None ∅ [].

(** The session has been killed. *)
Definition env_killed : env :=
  Env false false true [] false 3600 false false false false false false
    false false.


(** ** The DDL block *)

(** The flush of the non-transactional tables fails without raising an
    error in the session. *)
Definition env_flush_tables_fails : env :=
  Env false false false [] false 3600 false false true false false false
    false false.

(** ** The stores to the stage *)

(** Each element is at most the next one. *)
Fixpoint nondecreasing (l : list nat) : bool :=
  match l with
  | a :: (b :: _) as rest => (a <=? b)%nat && nondecreasing rest
  | _ => true
  end.

(** Each element is below the next one. *)
Fixpoint increasing (l : list nat) : bool :=
  match l with
  | a :: (b :: _) as rest => (a <? b)%nat && increasing rest
  | _ => true
  end.

(** The code of a stage as a natural number. *)
Definition stage_code (s : backup_stages) : nat := Z.to_nat (stage_uint s).

(** The errors the handlers raise themselves; they name no stage. *)
Definition handler_error (x : error) : Prop :=
  x = ER_OPTION_PREVENTS_STATEMENT \/ x = ER_LOCK_OR_ACTIVE_TRANSACTION.

(** The stage names an error carries are entries of the table. *)
Definition names_valid (x : error) : Prop :=
  match x with
  | ER_BACKUP_WRONG_STAGE a b => is_Some a /\ is_Some b
  | ER_BACKUP_STAGE_FAILED a => is_Some a
  | _ => True
  end.

(** ** The BACKUP_FINISHED case of the switch *)

(** A request for BACKUP_FINISHED from another stage. *)
Definition w_finished_request : world :=
  Eval vm_compute in
    after (run_backup_stage env0 BACKUP_FINISHED w_started).

(** The same request when the lock of the FLUSH stage is not granted. *)
Definition w_finished_request_failed : world :=
  Eval vm_compute in
    after (run_backup_stage env_flush_fails BACKUP_FINISHED w_started).

(** * Further behaviour of the stage runner *)

(** ** Effects of a call *)

(** A session that is in a backup holds the slot. *)
Definition holds_slot (w : world) : Prop :=
  current_backup_stage w <> BACKUP_FINISHED -> backup_running w = true.

(** What the runner stores to [backup_running] in one stage. *)
Definition handler_running_stores (s : backup_stages) (r : bool)
  : list bool :=
  match s with
  | BACKUP_START => if r then [] else [true]
  | BACKUP_END => [false]
  | _ => []
  end.

(** ** Two sessions *)

(** The session either is in a backup and holds the slot, or is not and
    the slot is free. *)
Definition owns_or_free (w : world) : Prop :=
  (current_backup_stage w <> BACKUP_FINISHED /\ backup_running w = true) \/
  (current_backup_stage w = BACKUP_FINISHED /\ backup_running w = false).

(** Every time the session wakes up in the wait loop it sees the value
    [backup_running] has now: no other session runs in between. *)
Definition sees_current_slot (e : env) (w : world) : Prop :=
  Forall (fun wk => seen_running wk = backup_running w) (wakeups e).

(** The entry points of the file, as calls a session makes. *)
Inductive call : Set :=
| call_run_backup_stage (stage : backup_stages)
| call_backup_end
| call_backup_set_alter_copy_lock
| call_backup_reset_alter_copy_lock.

Definition run_call (c : call) (e : env) : M bool :=
  match c with
  | call_run_backup_stage stage => run_backup_stage e stage
  | call_backup_end => backup_end
  | call_backup_set_alter_copy_lock =>
      backup_set_alter_copy_lock ;; ret false
  | call_backup_reset_alter_copy_lock => backup_reset_alter_copy_lock e
  end.

Inductive session_id : Set := session_A | session_B.

(** Two sessions (two THD) over the same two static variables and the
    same lock manager. *)
Record system : Type := System {
  stage_A : backup_stages;
  alter_ticket_A : option ticket;
  stage_B : backup_stages;
  alter_ticket_B : option ticket;
  slot_running : bool;
  slot_flush_ticket : option ticket;
  granted : gmap positive enum_mdl_type;
  history : list event
}.

(** The state as one of the two sessions has it. *)
Definition view (i : session_id) (s : system) : world :=
  match i with
  | session_A =>
      World (stage_A s) (alter_ticket_A s) (slot_running s)
        (slot_flush_ticket s) (granted s) (history s)
  | session_B =>
      World (stage_B s) (alter_ticket_B s) (slot_running s)
        (slot_flush_ticket s) (granted s) (history s)
  end.

(** The system after session [i] has left its view as [w]. *)
Definition update (i : session_id) (w : world) (s : system) : system :=
  match i with
  | session_A =>
      System (current_backup_stage w) (mdl_backup_ticket w) (stage_B s)
        (alter_ticket_B s) (backup_running w) (backup_flush_ticket w)
        (mdl_tickets w) (trace w)
  | session_B =>
      System (stage_A s) (alter_ticket_A s) (current_backup_stage w)
        (mdl_backup_ticket w) (backup_running w) (backup_flush_ticket w)
        (mdl_tickets w) (trace w)
  end.

Definition system_initial (s : system) : Prop :=
  stage_A s = BACKUP_FINISHED /\ stage_B s = BACKUP_FINISHED /\
  slot_running s = false /\ slot_flush_ticket s = None.

(** The calls of the two sessions take place one at a time: a call that
    would wait for the slot returns only if the session is killed, and is
    otherwise made again once the slot is free. *)
Inductive system_step : system -> system -> Prop :=
| system_call i c e s r w' :
    sees_current_slot e (view i s) ->
    run_call c e (view i s) = Returns r w' ->
    system_step s (update i w' s).

Inductive system_reachable : system -> Prop :=
| system_reachable_initial s : system_initial s -> system_reachable s
| system_reachable_step s s' :
    system_reachable s -> system_step s s' -> system_reachable s'.

(** The slot is taken exactly when one of the two sessions is in a backup,
    and they never both are. *)
Definition one_backup (s : system) : Prop :=
  (stage_A s = BACKUP_FINISHED \/ stage_B s = BACKUP_FINISHED) /\
  (slot_running s = true <->
   stage_A s <> BACKUP_FINISHED \/ stage_B s <> BACKUP_FINISHED) /\
  stage_A s <> BACKUP_END /\ stage_B s <> BACKUP_END.

(** Two idle sessions. *)
Definition system0 : system :=
  System BACKUP_FINISHED None BACKUP_FINISHED None false None ∅ [].

(** Session A has started a backup and flushed. *)
Definition system_A_flushed : system :=
  update session_A
    (after (run_backup_stage env0 BACKUP_FLUSH
              (view session_A
                 (update session_A
                    (after (run_backup_stage env0 BACKUP_START
                              (view session_A system0)))
                    system0))))
    (update session_A
       (after (run_backup_stage env0 BACKUP_START (view session_A system0)))
       system0).

(** ** Waiting for the slot *)

(** A wake-up that sends the session back to sleep: the slot is still
    taken and the session has not been killed. *)
Definition busy (wk : wakeup) : bool :=
  seen_running wk && negb (seen_killed wk).

(** The state after [n] calls of mysql_cond_wait, the last of which saw
    [backup_running] as [b]. *)
Definition waited (n : nat) (b : bool) (w : world) : world :=
  World (current_backup_stage w) (mdl_backup_ticket w) b
    (backup_flush_ticket w) (mdl_tickets w)
    (trace w ++ replicate n cond_wait).

(** Another backup ends while the session waits for the third time. *)
Definition env_third_wakeup : env :=
  Env false false false
    [Wakeup true false; Wakeup true false; Wakeup false false;
     Wakeup true false]
    false 3600 false false false false false false false false.

(** The other backup never ends. *)
Definition env_never_free : env :=
  Env false false false [Wakeup true false; Wakeup true false] false 3600
    false false false false false false false false.

(** ** The lock ladder *)

(** What backup_block_ddl returns. *)
Definition block_ddl_result (e : env) : bool :=
  upgrade_wait_flush_fails e ||
  (if flush_non_trans_fails e then is_error e else upgrade_wait_ddl_fails e).

(** The mode backup_block_ddl leaves a ticket of mode [m] in. *)
Definition block_ddl_mode (e : env) (m : enum_mdl_type) : enum_mdl_type :=
  if upgrade_wait_flush_fails e then m
  else if flush_non_trans_fails e then MDL_BACKUP_WAIT_FLUSH
  else if upgrade_wait_ddl_fails e then MDL_BACKUP_WAIT_FLUSH
  else MDL_BACKUP_WAIT_DDL.

(** The upgrades backup_block_ddl asks for. *)
Definition block_ddl_upgrades (e : env) (t : option ticket)
  : list (option ticket * enum_mdl_type * bool) :=
  (t, MDL_BACKUP_WAIT_FLUSH, upgrade_wait_flush_fails e) ::
  if upgrade_wait_flush_fails e then []
  else if flush_non_trans_fails e then []
  else [(t, MDL_BACKUP_WAIT_DDL, upgrade_wait_ddl_fails e)].

(** The calls of flush_tables, with their outcome. *)
Definition table_flushes (d : list event)
  : list (flush_tables_type * bool) :=
  omap (fun ev =>
          match ev with
          | flush_tables_call what f => Some (what, f)
          | _ => None
          end) d.

(** The session and the two globals, without the lock table. *)
Definition session_state (w : world)
  : backup_stages * option ticket * bool * option ticket :=
  (current_backup_stage w, mdl_backup_ticket w, backup_running w,
   backup_flush_ticket w).

(** Nothing fails and nobody kills the session. *)
Definition nothing_fails (e : env) : Prop :=
  read_only_protection e = false /\ locked_tables_mode e = false /\
  killed e = false /\ killed_late e = false /\
  acquire_flush_fails e = false /\ upgrade_wait_flush_fails e = false /\
  flush_non_trans_fails e = false /\ upgrade_wait_ddl_fails e = false /\
  upgrade_wait_commit_fails e = false.

(** ** The locks of others *)

(** From [w0] to [w] no granted lock but the flush ticket of [w0] has
    been changed or released, and a flush ticket that is not the one of
    [w0] names a lock that was not granted in [w0]. *)
Definition locks_framed (w0 w : world) : Prop :=
  (forall t, backup_flush_ticket w0 <> Some t ->
             is_Some (mdl_tickets w0 !! t) ->
             mdl_tickets w !! t = mdl_tickets w0 !! t) /\
  (forall t, backup_flush_ticket w = Some t ->
             backup_flush_ticket w0 = Some t \/ mdl_tickets w0 !! t = None).

(** A session that holds an alter-copy lock and the flush ticket of an
    earlier backup stage. *)
Definition w_two_locks : world :=
  World BACKUP_FLUSH (Some 1%positive) true (Some 2%positive)
    {[1%positive := MDL_BACKUP_DDL; 2%positive := MDL_BACKUP_FLUSH]} [].

Definition w_two_locks_blocked : world :=
  Eval vm_compute in
    after (run_backup_stage env0 BACKUP_LOCK_COMMIT w_two_locks).

(** ** The history of a session *)

(** The calls of ha_prepare_for_backup. *)
Definition prepares (d : list event) : list unit :=
  omap (fun ev =>
          match ev with ha_prepare_for_backup_call => Some tt | _ => None end)
    d.

(** The calls of ha_end_backup. *)
Definition ends (d : list event) : list unit :=
  omap (fun ev => match ev with ha_end_backup_call => Some tt | _ => None end)
    d.

(** The locks acquire_lock has granted. *)
Definition grants (d : list event) : list ticket :=
  omap (fun ev =>
          match ev with mdl_acquire _ _ (Some t) => Some t | _ => None end)
    d.

(** 1 while the session is in a backup, 0 when its stage is
    BACKUP_FINISHED. *)
Definition in_backup (w : world) : nat :=
  if decide (current_backup_stage w = BACKUP_FINISHED) then 0 else 1.

(** What the events [d] between [w] and [w'] add to the two accounts of
    a session: the engines prepared and not yet released, and the locks
    granted and not yet given back. *)
Definition balanced (w : world) (d : list event) (w' : world) : Prop :=
  (length (prepares d) + in_backup w = length (ends d) + in_backup w')%nat /\
  option_list (backup_flush_ticket w) ++ grants d =
  released d ++ option_list (backup_flush_ticket w').

(** The session after a backup that was started, flushed and ended. *)
Definition w_flushed_ended : world :=
  Eval vm_compute in after (run_backup_stage env0 BACKUP_END w_flushed).

(** The same session after the START of its next backup. *)
Definition w_second_backup : world :=
  Eval vm_compute in
    after (run_backup_stage env0 BACKUP_START w_flushed_ended).

(** ** Start-up *)

(** The calls of mysql_cond_wait. *)
Definition waits (d : list event) : list unit :=
  omap (fun ev => match ev with cond_wait => Some tt | _ => None end) d.

(** What makes backup_start fail when the slot is free. *)
Definition start_refused (e : env) : bool :=
  read_only_protection e || locked_tables_mode e || killed e ||
  killed_late e.

(** ** The mutex of the slot *)

(** Modelled from the spec: [backup_running] and the wait queue are
    protected by a single mutex/condition pair.  mysql_mutex_lock takes
    LOCK_backup, mysql_mutex_unlock and EXIT_COND give it back.
    [mutex_discipline held d] holds when, starting with the mutex held or
    not as [held] says, the events [d] never take the mutex twice, never
    give it back without holding it, wait, signal and write
    [backup_running] only while holding it, and end without it. *)
Fixpoint mutex_discipline (held : bool) (d : list event) : bool :=
  match d with
  | [] => negb held
  | ev :: d' =>
      match ev with
      | mutex_lock => negb held && mutex_discipline true d'
      | mutex_unlock | exit_cond => held && mutex_discipline false d'
      | enter_cond | cond_wait | cond_signal | store_running _ =>
          held && mutex_discipline held d'
      | _ => mutex_discipline held d'
      end
  end.

(** The environment of a session that is killed while it waits. *)
Definition env_killed_waiting : env :=
  Env false false false [Wakeup true false; Wakeup true true] false 3600
    false false false false false false false false.

Definition w_killed_waiting : world :=
  Eval vm_compute in
    after (run_backup_stage env_killed_waiting BACKUP_START w_other_running).

(** ** Requests in several steps *)

(** The state [w] with the events [tr] in place of its own. *)
Definition with_trace (tr : list event) (w : world) : world :=
  World (current_backup_stage w) (mdl_backup_ticket w) (backup_running w)
    (backup_flush_ticket w) (mdl_tickets w) tr.

(** ** Termination *)

(** The lock upgrades requested for a null ticket, by the mode asked
    for. *)
Definition null_upgrades (d : list event) : list enum_mdl_type :=
  omap (fun ev =>
          match ev with mdl_upgrade None m _ _ => Some m | _ => None end) d.

(** A session that is at or after FLUSH and before END holds a flush
    ticket: its FLUSH stage did not fail. *)
Definition ticket_in_window (w : world) : Prop :=
  in_flush_window (current_backup_stage w) -> backup_flush_ticket w <> None.

(** The session after START, FLUSH and a request for BLOCK_COMMIT. *)
Definition w_committed : world :=
  Eval vm_compute in
    after (run_backup_stage env0 BACKUP_LOCK_COMMIT w_flushed).

(** ** The result and the diagnostics *)

(** The errors sql/backup.cc raises itself through my_error (lines 69,
    78, 126 and 158); ER_OPTION_PREVENTS_STATEMENT is raised inside
    has_read_only_protection. *)
Definition own_error (x : error) : bool :=
  match x with
  | ER_BACKUP_NOT_RUNNING
  | ER_BACKUP_WRONG_STAGE _ _
  | ER_BACKUP_STAGE_FAILED _
  | ER_LOCK_OR_ACTIVE_TRANSACTION => true
  | ER_OPTION_PREVENTS_STATEMENT => false
  end.

(** The errors run_backup_stage raises itself (lines 69, 78 and 126). *)
Definition runner_error (x : error) : bool :=
  match x with
  | ER_BACKUP_NOT_RUNNING
  | ER_BACKUP_WRONG_STAGE _ _
  | ER_BACKUP_STAGE_FAILED _ => true
  | _ => false
  end.

(** The calls of my_error made by the file itself. *)
Definition own_reports (d : list event) : list error :=
  omap (fun ev =>
          match ev with
          | my_error x => if own_error x then Some x else None
          | _ => None
          end) d.

(** The flush of the system tables fails. *)
Definition env_flush_sys_fails : env :=
  Env false false false [] false 3600 false false false false false false
    true false.

(** * Properties *)

(** ** Traces *)

Lemma events_since_app tr d s a r f m :
  events_since (World s a r f m tr) (World s a r f m (tr ++ d)) = d.
Proof. unfold events_since; cbn. by rewrite drop_app_length. Qed.

Lemma events_since_trace w w' d :
  trace w' = trace w ++ d -> events_since w w' = d.
Proof. unfold events_since; intros ->. by rewrite drop_app_length. Qed.

Lemma events_since_refl w : events_since w w = [].
Proof. apply events_since_trace. by rewrite app_nil_r. Qed.

(** ** The wait loop of backup_start *)

(** The loop never leaves the model, changes nothing but what the session
    sees of [backup_running], and returns only when the slot is free or the
    session is killed. *)
Lemma wait_for_backup_spec ws : forall k w,
  match wait_for_backup k ws w with
  | Returns k' w' =>
      exists n b,
        w' = World (current_backup_stage w) (mdl_backup_ticket w) b
               (backup_flush_ticket w) (mdl_tickets w)
               (trace w ++ replicate n cond_wait) /\
        b && negb k' = false /\
        (backup_running w && negb k = false ->
         n = 0%nat /\ b = backup_running w /\ k' = k)
  | Blocks w' =>
      backup_running w && negb k = true /\
      exists n b,
        w' = World (current_backup_stage w) (mdl_backup_ticket w) b
               (backup_flush_ticket w) (mdl_tickets w)
               (trace w ++ replicate n cond_wait)
  | Undefined | OutOfFuel => False
  end.
Proof.
  induction ws as [|wk ws IH]; intros k w; cbn [wait_for_backup];
    destruct (backup_running w && negb k) eqn:Hc.
  - unfold bind, emit; cbn. split; [done|].
    by exists 1%nat, (backup_running w).
  - exists 0%nat, (backup_running w). destruct w; cbn in *.
    by rewrite app_nil_r.
  - unfold bind, emit, observe_running; cbn.
    match goal with |- context [wait_for_backup _ _ ?w1] =>
      specialize (IH (seen_killed wk) w1); destruct (wait_for_backup _ _ w1)
    end; try done.
    + destruct IH as (n & b & -> & Hb & _); cbn.
      exists (S n), b; split_and!; [|done|done].
      by rewrite <- app_assoc.
    + destruct IH as (_ & n & b & ->); cbn. split; [done|].
      exists (S n), b. by rewrite <- app_assoc.
  - exists 0%nat, (backup_running w). destruct w; cbn in *.
    by rewrite app_nil_r.
Qed.

(** ** The START handler *)

Ltac unfold_monad :=
  unfold bind, ret, gets, emit, set_stage, set_running, set_flush_ticket,
    set_tickets, observe_running in *.

Ltac unfold_collaborators :=
  unfold acquire_lock, upgrade_shared_lock, downgrade_lock, release_lock,
    flush_tables, has_read_only_protection in *.

Ltac normalize_trace :=
  rewrite <- ?app_assoc; cbn [app].

Lemma backup_start_spec e w :
  match backup_start e w with
  | Returns r w' =>
      exists n b,
        w' = World
               (if read_only_protection e then BACKUP_FINISHED
                else BACKUP_START)
               (mdl_backup_ticket w) b (backup_flush_ticket w)
               (mdl_tickets w) (trace w ++ start_events e n r) /\
        (r = false ->
         b = true /\ read_only_protection e = false /\
         locked_tables_mode e = false) /\
        (read_only_protection e || locked_tables_mode e = true ->
         r = true /\ n = 0%nat /\ b = backup_running w) /\
        (backup_running w = false -> n = 0%nat /\ (r = true -> b = false))
  | Blocks w' =>
      (read_only_protection e = false /\ locked_tables_mode e = false /\
       backup_running w = true /\ killed e = false) /\
      exists n b,
        w' = World BACKUP_START (mdl_backup_ticket w) b
               (backup_flush_ticket w) (mdl_tickets w)
               (trace w ++ start_blocked_events n)
  | Undefined | OutOfFuel => False
  end.
Proof.
  unfold backup_start, start_events, start_blocked_events,
    has_read_only_protection.
  destruct (read_only_protection e) eqn:Hro.
  { unfold_monad; cbn. exists 0%nat, (backup_running w).
    normalize_trace. by split_and!. }
  destruct (locked_tables_mode e) eqn:Hlt.
  { unfold_monad; cbn. exists 0%nat, (backup_running w).
    normalize_trace. by split_and!. }
  unfold_monad; cbn.
  match goal with |- context [wait_for_backup ?k ?ws ?w1] =>
    pose proof (wait_for_backup_spec ws k w1) as Hw;
    destruct (wait_for_backup k ws w1) as [k' w'| |  |]
  end; try done.
  - destruct Hw as (n & b & -> & Hb & Hn); cbn in *.
    destruct (k' || killed_late e) eqn:Hk; cbn.
    + exists n, b. normalize_trace. split_and!; try done.
      intros Hr. rewrite Hr in Hn. destruct (Hn eq_refl) as (-> & -> & _).
      done.
    + exists n, true. normalize_trace. split_and!; try done.
      intros Hr. rewrite Hr in Hn. by destruct (Hn eq_refl) as (-> & _).
  - cbn in Hw. destruct Hw as (Hw & n & b & ->).
    apply andb_true_iff in Hw as [? Hk]. split.
    + split_and!; try done. by destruct (killed e).
    + exists n, b. cbn. by normalize_trace.
Qed.

(** ** The stage runner as a plan *)

Lemma stage_sequence_nonempty cur stage :
  admissible cur stage = true -> stage_sequence cur stage <> [].
Proof. by destruct cur, stage. Qed.

(** The loop visits the stages of the plan. *)
Lemma run_stages_plan e cur stage :
  admissible cur stage = true ->
  run_stages 6 e stage
    (if decide (cur = BACKUP_FINISHED) then stage_uint BACKUP_START
     else if decide (stage = BACKUP_END) then stage_uint stage
     else uint_succ (stage_uint cur)) =
  run_plan e stage (stage_sequence cur stage).
Proof. destruct cur, stage; intros H; try discriminate H; reflexivity. Qed.

(** run_backup_stage is the two tests followed by the plan. *)
Lemma run_backup_stage_admissible e stage w :
  admissible (current_backup_stage w) stage = true ->
  run_backup_stage e stage w =
  run_plan e stage (stage_sequence (current_backup_stage w) stage)
    (record [DBUG_ENTER "run_backup_stage"] w).
Proof.
  intros H. rewrite <- (run_stages_plan e _ _ H).
  unfold run_backup_stage; unfold_monad; cbn.
  destruct w as [cur a r f m tr]; cbn in *.
  destruct cur, stage; try discriminate H; reflexivity.
Qed.

Lemma run_backup_stage_not_running e stage w :
  current_backup_stage w = BACKUP_FINISHED -> stage <> BACKUP_START ->
  run_backup_stage e stage w =
  Returns true
    (record [DBUG_ENTER "run_backup_stage"; my_error ER_BACKUP_NOT_RUNNING] w).
Proof.
  intros Hc Hs. destruct w as [cur a r f m tr]; cbn in Hc; subst cur.
  unfold run_backup_stage, record; unfold_monad.
  destruct stage; try done; cbn -[run_stages]; repeat case_decide;
    try done; cbn; by normalize_trace.
Qed.

Lemma run_backup_stage_wrong_stage e stage w :
  current_backup_stage w <> BACKUP_FINISHED ->
  stage_uint stage <= stage_uint (current_backup_stage w) ->
  run_backup_stage e stage w =
  Returns true
    (record
       [DBUG_ENTER "run_backup_stage";
        my_error
          (ER_BACKUP_WRONG_STAGE (stage_name_at (stage_uint stage))
             (stage_name_at (stage_uint (current_backup_stage w))))] w).
Proof.
  intros Hc Hs. destruct w as [cur a r f m tr]; cbn in Hc, Hs.
  unfold run_backup_stage, record; unfold_monad.
  destruct cur, stage; try done; cbn in Hs; try lia;
    cbn -[run_stages]; repeat case_decide; try done; cbn;
    by normalize_trace.
Qed.

(** A returned plan is a run of a prefix of it: all of it on success, up
    to the first failing handler otherwise. *)
Lemma run_plan_ran e stage plan : forall w r w',
  plan <> [] ->
  run_plan e stage plan w = Returns r w' ->
  exists ss w1,
    ran e w ss r w1 /\
    if r then
      ss `prefix_of` plan /\
      w' = record
             [my_error
                (ER_BACKUP_STAGE_FAILED (stage_name_at (stage_uint stage)))]
             w1
    else ss = plan /\ w' = w1.
Proof.
  induction plan as [|s rest IH]; intros w r w' Hne Hrun; [done|].
  cbn [run_plan] in Hrun.
  assert (Hstep : forall k : bool -> M bool,
            (set_stage s ;; res <- run_stage_handler e s ;; k res) w =
            (res <- stage_step e s ;; k res) w).
  { intros k. unfold stage_step; unfold_monad; cbn. done. }
  rewrite Hstep in Hrun. unfold bind at 1 in Hrun.
  destruct (stage_step e s w) as [res w1| | |] eqn:Hs; try done.
  destruct res.
  - unfold_monad; cbn in Hrun. injection Hrun as <- <-.
    exists [s], w1. split; [by constructor|]. split; [|done].
    by apply prefix_cons, prefix_nil.
  - destruct rest as [|s' rest'].
    + cbn in Hrun. unfold ret in Hrun. injection Hrun as <- <-.
      exists [s], w1. split; [by constructor|]. done.
    + destruct (IH w1 r w' ltac:(done) Hrun) as (ss & w2 & Hran & Hr).
      exists (s :: ss), w2. split; [by econstructor|].
      destruct r.
      * destruct Hr as [Hp ->]. split; [|done]. by apply prefix_cons.
      * destruct Hr as [-> ->]. done.
Qed.

(** ** One stage *)

Lemma omap_replicate_None {A B} (f : A -> option B) (x : A) n :
  f x = None -> omap f (replicate n x) = [].
Proof. intros H. induction n as [|n IH]; cbn; [done|]. by rewrite H. Qed.

Lemma elem_of_replicate_ne {A} (x y : A) n :
  x <> y -> x ∉ replicate n y.
Proof. intros H [-> _]%elem_of_replicate. done. Qed.

(** The START stage in closed form. *)
Lemma stage_step_START e w :
  match stage_step e BACKUP_START w with
  | Returns r w' =>
      exists n b,
        w' = World (if r then BACKUP_FINISHED else BACKUP_START)
               (mdl_backup_ticket w) b (backup_flush_ticket w)
               (mdl_tickets w)
               (trace w ++
                store_stage BACKUP_START :: start_events e n r ++
                if r then [store_stage BACKUP_FINISHED] else []) /\
        (r = false ->
         b = true /\ read_only_protection e = false /\
         locked_tables_mode e = false) /\
        (read_only_protection e || locked_tables_mode e = true ->
         r = true /\ n = 0%nat /\ b = backup_running w) /\
        (backup_running w = false -> n = 0%nat /\ (r = true -> b = false))
  | Blocks w' =>
      (read_only_protection e = false /\ locked_tables_mode e = false /\
       backup_running w = true /\ killed e = false) /\
      exists n b,
        w' = World BACKUP_START (mdl_backup_ticket w) b
               (backup_flush_ticket w) (mdl_tickets w)
               (trace w ++ store_stage BACKUP_START :: start_blocked_events n)
  | Undefined | OutOfFuel => False
  end.
Proof.
  unfold stage_step, run_stage_handler, bind at 1 2, set_stage.
  match goal with |- context [backup_start e ?w1] =>
    pose proof (backup_start_spec e w1) as Hs;
    destruct (backup_start e w1) as [r w'|w'| |]
  end; try done.
  - destruct Hs as (n & b & -> & H1 & H2 & H3). cbn in H2, H3.
    destruct r; unfold_monad; cbn; exists n, b; normalize_trace.
    + by split_and!.
    + destruct (H1 eq_refl) as (Hb & Hro & Hlt).
      rewrite Hro, Hlt in *; cbn. rewrite app_nil_r. by split_and!.
  - destruct Hs as (Hs & n & b & ->). cbn in Hs. split; [done|].
    exists n, b. cbn. by normalize_trace.
Qed.

Ltac exec_step H e w :=
  destruct w as [cur alt run ft tks tr];
  unfold stage_step, run_stage_handler, backup_flush, backup_block_ddl,
    backup_block_commit, backup_end in H;
  unfold_collaborators; unfold_monad; cbn in H;
  repeat (first
    [ match type of H with
      | context [if ?f e then _ else _] => destruct (f e) eqn:?
      end
    | match type of H with
      | context [match ft with _ => _ end] => destruct ft
      end
    | case_decide; [|done] ]; cbn in H);
  injection H as <- <-; cbn.

Ltac list_facts :=
  cbn; rewrite ?omap_app, ?omap_replicate_None by done; cbn;
  try done;
  repeat first [apply List.Forall_nil | apply List.Forall_cons]; auto.

(** What every stage does to the session: the stage it leaves, the
    events it adds, and that only the first four handlers can fail. *)
Lemma stage_step_returns e s w r w' :
  stage_step e s w = Returns r w' ->
  exists d,
    trace w' = trace w ++ d /\
    current_backup_stage w' = stage_after s r /\
    mdl_backup_ticket w' = mdl_backup_ticket w /\
    (r = true -> s <> BACKUP_END /\ s <> BACKUP_FINISHED) /\
    stage_stores d = s :: handler_stores e s r /\
    entered d = handler_name s /\
    failed_asserts d = (if decide (s = BACKUP_FINISHED) then [()] else []) /\
    Forall (fun x => x = ER_OPTION_PREVENTS_STATEMENT \/
                     x = ER_LOCK_OR_ACTIVE_TRANSACTION) (errors d).
Proof.
  intros H. destruct s.
  - pose proof (stage_step_START e w) as Hs. rewrite H in Hs.
    destruct Hs as (n & b & -> & H1 & H2 & H3). eexists; split; [done|].
    unfold start_events, stage_stores, entered, errors, failed_asserts,
      handler_stores.
    split_and!; try done;
      destruct (read_only_protection e), (locked_tables_mode e), r;
      list_facts.
  - exec_step H e w; normalize_trace; eexists; (split; [done|]);
      split_and!; list_facts.
  - exec_step H e w; normalize_trace; eexists; (split; [done|]);
      split_and!; list_facts.
  - exec_step H e w; normalize_trace; eexists; (split; [done|]);
      split_and!; list_facts.
  - exec_step H e w; normalize_trace; eexists; (split; [done|]);
      split_and!; list_facts.
  - exec_step H e w; normalize_trace; eexists; (split; [done|]);
      split_and!; list_facts.
Qed.

(** ** Runs of the loop *)

Lemma ran_frame e w ss r w' :
  ran e w ss r w' ->
  exists s d,
    last ss = Some s /\
    trace w' = trace w ++ d /\
    current_backup_stage w' = stage_after s r /\
    mdl_backup_ticket w' = mdl_backup_ticket w /\
    (r = true -> s <> BACKUP_END /\ s <> BACKUP_FINISHED).
Proof.
  induction 1 as [s w r w' H|s ss w w1 r w' H Hran IH].
  - destruct (stage_step_returns _ _ _ _ _ H) as (d & ? & ? & ? & ? & _).
    by exists s, d.
  - destruct (stage_step_returns _ _ _ _ _ H) as (d & Hd & _ & Ha & _).
    destruct IH as (s' & d' & Hl & Hd' & ? & Ha' & ?).
    exists s', (d ++ d'). split_and!; try done.
    + destruct ss; [inversion Hran|]. done.
    + by rewrite Hd', Hd, app_assoc.
    + congruence.
Qed.

(** The two ways a call of run_backup_stage returns: turned down by one
    of the two tests, or as a run of its plan. *)
Lemma run_backup_stage_returns e stage w r w' :
  run_backup_stage e stage w = Returns r w' ->
  (admissible (current_backup_stage w) stage = false /\ r = true /\
   exists err,
     w' = record [DBUG_ENTER "run_backup_stage"; my_error err] w /\
     (err = ER_BACKUP_NOT_RUNNING \/
      current_backup_stage w <> BACKUP_FINISHED /\
      err = ER_BACKUP_WRONG_STAGE (stage_name_at (stage_uint stage))
              (stage_name_at (stage_uint (current_backup_stage w))))) \/
  (admissible (current_backup_stage w) stage = true /\
   exists ss w1,
     ran e (record [DBUG_ENTER "run_backup_stage"] w) ss r w1 /\
     if r then
       ss `prefix_of` stage_sequence (current_backup_stage w) stage /\
       w' = record
              [my_error
                 (ER_BACKUP_STAGE_FAILED (stage_name_at (stage_uint stage)))]
              w1
     else ss = stage_sequence (current_backup_stage w) stage /\ w' = w1).
Proof.
  intros H. destruct (admissible (current_backup_stage w) stage) eqn:Ha.
  - right. split; [done|].
    rewrite run_backup_stage_admissible in H by done.
    apply run_plan_ran in H; [done|]. by apply stage_sequence_nonempty.
  - left. split; [done|]. unfold admissible in Ha.
    destruct (decide (current_backup_stage w = BACKUP_FINISHED)) as [Hc|Hc].
    + apply bool_decide_eq_false in Ha.
      rewrite run_backup_stage_not_running in H by done.
      injection H as <- <-. split; [done|]. eexists; split; [done|]. by left.
    + apply Z.ltb_ge in Ha.
      rewrite run_backup_stage_wrong_stage in H by done.
      injection H as <- <-. split; [done|]. eexists; split; [done|].
      by right.
Qed.

(** A session never rests at BACKUP_END: the END handler has reset the
    stage before the runner returns. *)
Lemma step_not_END w w' :
  current_backup_stage w <> BACKUP_END -> step w w' ->
  current_backup_stage w' <> BACKUP_END.
Proof.
  intros Hw Hstep; revert Hw.
  destruct Hstep as [e stage w0 r w0' H|w0 r w0' H|w0 w0' H|e w0 r w0' H|b w0 H];
    intros Hw.
  - apply run_backup_stage_returns in H
      as [(_ & _ & err & -> & _)|(_ & ss & w1 & Hran & Hr)]; [exact Hw|].
    apply ran_frame in Hran as (s & d & _ & _ & Hc & _).
    assert (current_backup_stage w1 <> BACKUP_END)
      by (rewrite Hc; by destruct s, r).
    destruct r; [by destruct Hr as [_ ->]|by destruct Hr as [_ ->]].
  - unfold backup_end in H; unfold_collaborators; unfold_monad; cbn in H.
    case_decide.
    + destruct (backup_flush_ticket w0); by injection H as <- <-.
    + by injection H as <- <-.
  - unfold backup_set_alter_copy_lock in H.
    unfold_collaborators; unfold_monad; cbn in H.
    destruct (mdl_backup_ticket w0); by injection H as <-.
  - unfold backup_reset_alter_copy_lock in H.
    unfold_collaborators; unfold_monad; cbn in H.
    destruct (mdl_backup_ticket w0), (upgrade_ddl_fails e);
      by injection H as <- <-.
  - done.
Qed.

Lemma reachable_not_END w :
  reachable w -> current_backup_stage w <> BACKUP_END.
Proof.
  induction 1 as [w (Hc & _)|w w' _ IH Hstep].
  - by rewrite Hc.
  - by eapply step_not_END.
Qed.

(** ** Requesting END *)

(** backup_end in closed form. *)
Lemma backup_end_active w :
  current_backup_stage w <> BACKUP_FINISHED ->
  backup_end w =
  Returns false
    (World BACKUP_FINISHED (mdl_backup_ticket w) false None
       (match backup_flush_ticket w with
        | Some t => delete t (mdl_tickets w)
        | None => mdl_tickets w
        end)
       (trace w ++ backup_end_events (backup_flush_ticket w))).
Proof.
  intros Hc. destruct w as [cur alt run ft tks tr]; cbn in *.
  unfold backup_end, backup_end_events.
  unfold_collaborators; unfold_monad; cbn.
  case_decide; [|done]. destruct ft; cbn; by normalize_trace.
Qed.

Lemma backup_end_finished w :
  current_backup_stage w = BACKUP_FINISHED ->
  backup_end w = Returns false (record [DBUG_ENTER "backup_end"] w).
Proof.
  intros Hc. unfold backup_end, record; unfold_monad; cbn.
  rewrite Hc. by case_decide.
Qed.

(** The END request in closed form. *)
Lemma run_backup_stage_END e w :
  current_backup_stage w <> BACKUP_FINISHED ->
  current_backup_stage w <> BACKUP_END ->
  run_backup_stage e BACKUP_END w =
  Returns false
    (World BACKUP_FINISHED (mdl_backup_ticket w) false None
       (match backup_flush_ticket w with
        | Some t => delete t (mdl_tickets w)
        | None => mdl_tickets w
        end)
       (trace w ++
        DBUG_ENTER "run_backup_stage" :: end_events (backup_flush_ticket w))).
Proof.
  intros Hf He. rewrite run_backup_stage_admissible
    by by destruct (current_backup_stage w).
  replace (stage_sequence (current_backup_stage w) BACKUP_END)
    with [BACKUP_END] by by destruct (current_backup_stage w).
  destruct w as [cur alt run ft tks tr]; cbn in *.
  unfold end_events, backup_end_events, record, backup_end.
  unfold_collaborators; unfold_monad.
  destruct ft; cbn; repeat case_decide; try done; cbn; by normalize_trace.
Qed.

(** ** Example sessions *)

(** backup_init on a fresh session gives an initial state. *)
Lemma backup_init_initial w :
  current_backup_stage w = BACKUP_FINISHED -> initial (after (backup_init w)).
Proof. intros Hc. by split_and!. Qed.

Lemma reachable_world0 : reachable world0.
Proof. by apply reachable_initial. Qed.

Lemma reachable_w_started : reachable w_started.
Proof.
  eapply reachable_step; [apply reachable_world0|].
  by apply (step_run_backup_stage env0 BACKUP_START world0 false).
Qed.

Lemma reachable_w_flushed : reachable w_flushed.
Proof.
  eapply reachable_step; [apply reachable_w_started|].
  by apply (step_run_backup_stage env0 BACKUP_FLUSH w_started false).
Qed.

Lemma stage_name_at_valid s :
  s <> BACKUP_FINISHED -> is_Some (stage_name_at (stage_uint s)).
Proof. destruct s; try done; by eexists. Qed.

(** ** The ordering tests of the stage runner *)

(** C1.  For every call of run_backup_stage on a session as the program
    produces it: from BACKUP_FINISHED every request but START fails with
    ER_BACKUP_NOT_RUNNING (and START goes on to its handler); from any other
    stage a request for one of the five stage names that is not strictly
    after the current stage on the ladder fails with ER_BACKUP_WRONG_STAGE,
    which names the requested and the current stage, except that END is
    accepted from every such stage. *)
Theorem advance_ordering_checks e stage w :
  reachable w ->
  (current_backup_stage w = BACKUP_FINISHED -> stage <> BACKUP_START ->
   run_backup_stage e stage w =
   Returns true
     (record [DBUG_ENTER "run_backup_stage"; my_error ER_BACKUP_NOT_RUNNING]
        w)) /\
  (current_backup_stage w = BACKUP_FINISHED -> stage = BACKUP_START ->
   run_backup_stage e stage w =
   run_plan e stage [BACKUP_START] (record [DBUG_ENTER "run_backup_stage"] w))
  /\
  (current_backup_stage w <> BACKUP_FINISHED ->
   stage <> BACKUP_END -> stage <> BACKUP_FINISHED ->
   ~ (ladder_rank (current_backup_stage w) < ladder_rank stage)%nat ->
   exists requested current,
     stage_name_at (stage_uint stage) = Some requested /\
     stage_name_at (stage_uint (current_backup_stage w)) = Some current /\
     run_backup_stage e stage w =
     Returns true
       (record
          [DBUG_ENTER "run_backup_stage";
           my_error (ER_BACKUP_WRONG_STAGE (Some requested) (Some current))]
          w)) /\
  (current_backup_stage w <> BACKUP_FINISHED -> stage = BACKUP_END ->
   exists w', run_backup_stage e stage w = Returns false w').
Proof.
  intros Hr. apply reachable_not_END in Hr. split_and!.
  - apply run_backup_stage_not_running.
  - intros Hc ->. rewrite run_backup_stage_admissible; by rewrite Hc.
  - intros Hc He Hf Hlt.
    destruct (stage_name_at_valid stage Hf) as [requested Hn1].
    destruct (stage_name_at_valid _ Hc) as [current Hn2].
    exists requested, current. split_and!; try done.
    rewrite run_backup_stage_wrong_stage, Hn1, Hn2; try done.
    destruct (current_backup_stage w), stage; cbn in *; try done; lia.
  - intros Hc ->. eexists. by apply run_backup_stage_END.
Qed.

Lemma advance_ordering_checks_witness :
  reachable world0 /\ reachable w_flushed /\
  run_backup_stage env0 BACKUP_LOCK_COMMIT world0 =
  Returns true
    (record [DBUG_ENTER "run_backup_stage"; my_error ER_BACKUP_NOT_RUNNING]
       world0) /\
  (exists requested current,
     stage_name_at (stage_uint BACKUP_FLUSH) = Some requested /\
     stage_name_at (stage_uint (current_backup_stage w_flushed)) =
     Some current /\
     run_backup_stage env0 BACKUP_FLUSH w_flushed =
     Returns true
       (record
          [DBUG_ENTER "run_backup_stage";
           my_error (ER_BACKUP_WRONG_STAGE (Some requested) (Some current))]
          w_flushed)) /\
  (exists w', run_backup_stage env0 BACKUP_END w_flushed = Returns false w').
Proof.
  split; [exact reachable_world0|]. split; [exact reachable_w_flushed|].
  split.
  - apply (advance_ordering_checks env0 BACKUP_LOCK_COMMIT world0
             reachable_world0); [reflexivity|discriminate].
  - split.
    + apply (advance_ordering_checks env0 BACKUP_FLUSH w_flushed
               reachable_w_flushed); cbn; [discriminate..|lia].
    + apply (advance_ordering_checks env0 BACKUP_END w_flushed
               reachable_w_flushed); [discriminate|reflexivity].
Defined.

(** C2.  From every stage but BACKUP_FINISHED a request for END enters
    backup_end and no other handler, succeeds, leaves the session at
    BACKUP_FINISHED with the slot free, and hands the held ticket to
    release_lock exactly once when there is one and never otherwise. *)
Theorem end_request_runs_end_only e w :
  reachable w ->
  current_backup_stage w <> BACKUP_FINISHED ->
  exists w',
    run_backup_stage e BACKUP_END w = Returns false w' /\
    current_backup_stage w' = BACKUP_FINISHED /\
    backup_flush_ticket w' = None /\
    backup_running w' = false /\
    entered (events_since w w') = ["run_backup_stage"; "backup_end"] /\
    stage_stores (events_since w w') = [BACKUP_END; BACKUP_FINISHED] /\
    errors (events_since w w') = [] /\
    released (events_since w w') = option_list (backup_flush_ticket w) /\
    mdl_tickets w' =
    match backup_flush_ticket w with
    | Some t => delete t (mdl_tickets w)
    | None => mdl_tickets w
    end.
Proof.
  intros Hr Hc. apply reachable_not_END in Hr.
  eexists. split; [by apply run_backup_stage_END|].
  erewrite events_since_trace by (cbn; reflexivity).
  unfold end_events, backup_end_events.
  by destruct (backup_flush_ticket w).
Qed.

Lemma end_request_runs_end_only_witness :
  reachable w_flushed /\
  current_backup_stage w_flushed <> BACKUP_FINISHED /\
  backup_flush_ticket w_flushed = Some 1%positive /\
  exists w',
    run_backup_stage env0 BACKUP_END w_flushed = Returns false w' /\
    current_backup_stage w' = BACKUP_FINISHED /\
    entered (events_since w_flushed w') = ["run_backup_stage"; "backup_end"] /\
    released (events_since w_flushed w') = [1%positive].
Proof.
  split; [exact reachable_w_flushed|]. split; [discriminate|].
  split; [reflexivity|].
  destruct (end_request_runs_end_only env0 w_flushed reachable_w_flushed)
    as (w' & H1 & H2 & _ & _ & H5 & _ & _ & H8 & _); [discriminate|].
  exists w'. repeat split; assumption.
Defined.

(** ** backup_end *)

(** C3.  backup_end returns success from every state and raises no error;
    a second call right after it, and any call on a session at
    BACKUP_FINISHED (one that never started a backup included), returns
    success and leaves the stage, the running flag, the flush ticket and
    the granted tickets as they were, calling no collaborator. *)
Theorem end_backup_idempotent w :
  (exists w1,
     backup_end w = Returns false w1 /\
     errors (events_since w w1) = [] /\
     current_backup_stage w1 = BACKUP_FINISHED /\
     exists w2,
       backup_end w1 = Returns false w2 /\
       observable w2 = observable w1 /\
       events_since w1 w2 = [DBUG_ENTER "backup_end"]) /\
  (current_backup_stage w = BACKUP_FINISHED ->
   exists w1,
     backup_end w = Returns false w1 /\
     observable w1 = observable w /\
     events_since w w1 = [DBUG_ENTER "backup_end"]).
Proof.
  split.
  - destruct (decide (current_backup_stage w = BACKUP_FINISHED)) as [Hc|Hc].
    + eexists. split; [by apply backup_end_finished|].
      erewrite events_since_trace by (cbn; reflexivity).
      split_and!; try done. eexists. split; [by apply backup_end_finished|].
      erewrite events_since_trace by (cbn; reflexivity). done.
    + eexists. split; [by apply backup_end_active|].
      erewrite events_since_trace by (cbn; reflexivity).
      split_and!; [by destruct (backup_flush_ticket w)|done|].
      eexists. split; [by apply backup_end_finished|].
      erewrite events_since_trace by (cbn; reflexivity). done.
  - intros Hc. eexists. split; [by apply backup_end_finished|].
    erewrite events_since_trace by (cbn; reflexivity). done.
Qed.

Lemma end_backup_idempotent_witness :
  current_backup_stage world0 = BACKUP_FINISHED /\
  exists w1,
    backup_end world0 = Returns false w1 /\
    observable w1 = observable world0 /\
    events_since world0 w1 = [DBUG_ENTER "backup_end"].
Proof.
  split; [reflexivity|].
  exact (proj2 (end_backup_idempotent world0) eq_refl).
Defined.

(** ** Failing handlers *)

Lemma reachable_w_flush_failed : reachable w_flush_failed.
Proof.
  eapply reachable_step; [apply reachable_w_started|].
  by apply (step_run_backup_stage env_flush_fails BACKUP_FLUSH w_started true).
Qed.

(** C4.  When a request passes the ordering tests and fails, the handlers
    of an initial part of its stage sequence have run: each but the last
    returned success, the last one, of stage [f], failed, and nothing ran
    after it but the report of ER_BACKUP_STAGE_FAILED, which carries the
    name of the requested stage.  The session is left at BACKUP_FINISHED
    when [f] is START and at [f] otherwise. *)
Theorem handler_failure_stops_run e stage w w' :
  admissible (current_backup_stage w) stage = true ->
  run_backup_stage e stage w = Returns true w' ->
  exists ok f w1,
    (ok ++ [f]) `prefix_of` stage_sequence (current_backup_stage w) stage /\
    ran e (record [DBUG_ENTER "run_backup_stage"] w) (ok ++ [f]) true w1 /\
    w' = record
           [my_error
              (ER_BACKUP_STAGE_FAILED (stage_name_at (stage_uint stage)))]
           w1 /\
    (stage <> BACKUP_FINISHED ->
     is_Some (stage_name_at (stage_uint stage))) /\
    current_backup_stage w' =
    (if decide (f = BACKUP_START) then BACKUP_FINISHED else f).
Proof.
  intros Ha H.
  apply run_backup_stage_returns in H as [(Hn & _)|(_ & ss & w1 & Hran & Hp & ->)];
    [congruence|].
  destruct (ran_frame _ _ _ _ _ Hran) as (f & d & Hl & _ & Hc & _ & Hf).
  apply last_Some in Hl as [ok ->].
  exists ok, f, w1. split_and!; try done.
  - apply stage_name_at_valid.
  - cbn. rewrite Hc. destruct (Hf eq_refl). destruct f; done || reflexivity.
Qed.

Lemma handler_failure_stops_run_witness :
  admissible (current_backup_stage w_started) BACKUP_LOCK_COMMIT = true /\
  run_backup_stage env_flush_fails BACKUP_LOCK_COMMIT w_started =
  Returns true w_commit_failed /\
  exists ok f w1,
    (ok ++ [f]) `prefix_of`
      stage_sequence (current_backup_stage w_started) BACKUP_LOCK_COMMIT /\
    ran env_flush_fails (record [DBUG_ENTER "run_backup_stage"] w_started)
      (ok ++ [f]) true w1 /\
    w_commit_failed =
    record
      [my_error
         (ER_BACKUP_STAGE_FAILED
            (stage_name_at (stage_uint BACKUP_LOCK_COMMIT)))] w1 /\
    (BACKUP_LOCK_COMMIT <> BACKUP_FINISHED ->
     is_Some (stage_name_at (stage_uint BACKUP_LOCK_COMMIT))) /\
    current_backup_stage w_commit_failed =
    (if decide (f = BACKUP_START) then BACKUP_FINISHED else f).
Proof.
  split; [reflexivity|]. split; [vm_compute; reflexivity|].
  apply (handler_failure_stops_run env_flush_fails BACKUP_LOCK_COMMIT
           w_started); vm_compute; reflexivity.
Defined.

(** ** The flush ticket *)

Lemma stage_sequence_in_sequence cur stage :
  cur <> BACKUP_END -> admissible cur stage = true ->
  in_sequence cur (stage_sequence cur stage).
Proof. destruct cur, stage; intros Hc Ha; try done; cbn; tauto. Qed.

Lemma in_sequence_prefix c ss ss' :
  ss `prefix_of` ss' -> in_sequence c ss' -> in_sequence c ss.
Proof.
  intros [k ->]. revert c. induction ss as [|s ss IH]; intros c; [done|].
  cbn. intros [? ?]. split; [done|]. by apply IH.
Qed.

Lemma last_acquire_app tr d :
  last_acquire (tr ++ d) =
  match last (acquires d) with
  | Some g => Some g
  | None => last_acquire tr
  end.
Proof.
  unfold last_acquire. fold (acquires (tr ++ d)) (acquires tr).
  unfold acquires at 1. rewrite omap_app. fold (acquires tr) (acquires d).
  destruct (acquires d) as [|g l] eqn:Hd using rev_ind.
  - by rewrite app_nil_r.
  - by rewrite app_assoc, !last_snoc.
Qed.

(** What a stage does to the flush ticket. *)
Lemma stage_step_ticket e s w r w' :
  stage_step e s w = Returns r w' ->
  exists d,
    trace w' = trace w ++ d /\
    match s with
    | BACKUP_FLUSH =>
        exists g,
          acquires d = [g] /\
          (r = true -> g = None) /\ (r = false -> g <> None) /\
          backup_flush_ticket w' =
          (if r then backup_flush_ticket w else g)
    | BACKUP_END => acquires d = [] /\ backup_flush_ticket w' = None
    | _ => acquires d = [] /\ backup_flush_ticket w' = backup_flush_ticket w
    end.
Proof.
  intros H. destruct s.
  - pose proof (stage_step_START e w) as Hs. rewrite H in Hs.
    destruct Hs as (n & b & -> & H1 & H2 & H3). eexists; split; [done|].
    unfold start_events, acquires. split; [|done].
    destruct (read_only_protection e), (locked_tables_mode e), r; list_facts.
  - exec_step H e w; normalize_trace; (eexists; split; [done|]);
      eexists; by split_and!.
  - exec_step H e w; normalize_trace; by (eexists; split; [done|]).
  - exec_step H e w; normalize_trace; by (eexists; split; [done|]).
  - exec_step H e w; normalize_trace; by (eexists; split; [done|]).
  - exec_step H e w; normalize_trace; by (eexists; split; [done|]).
Qed.

Lemma stage_step_ticket_inv e s w r w' :
  stage_step e s w = Returns r w' ->
  enters_from (current_backup_stage w) s ->
  ticket_inv w -> ticket_inv w'.
Proof.
  intros H Hfrom [Hi1 Hi2].
  destruct (stage_step_returns _ _ _ _ _ H) as (d & Hd & Hc & _ & Hf & _).
  destruct (stage_step_ticket _ _ _ _ _ H) as (d' & Hd' & Ht).
  assert (d' = d) as -> by (rewrite Hd in Hd'; by apply app_inv_head in Hd').
  assert (Hnone : ~ in_flush_window (current_backup_stage w) ->
            backup_flush_ticket w = None).
  { intros Hw. destruct (backup_flush_ticket w) eqn:Ht'; [|done].
    exfalso. apply Hw, Hi1. done. }
  unfold ticket_inv, in_flush_window in *.
  rewrite Hc, Hd, last_acquire_app.
  destruct s; cbn in Hfrom, Ht |- *.
  - destruct Ht as [-> ->]. rewrite Hnone by (rewrite Hfrom; cbn; lia).
    split; [done|]. destruct r; cbn; lia.
  - destruct Ht as (g & -> & Hg1 & Hg2 & ->).
    rewrite Hnone by (rewrite Hfrom; cbn; lia). cbn.
    split; [lia|]. intros _. destruct r; [by rewrite Hg1|done].
  - destruct Ht as [-> ->]. cbn. split; [lia|]. intros _.
    apply Hi2. rewrite Hfrom; cbn; lia.
  - destruct Ht as [-> ->]. cbn. split; [lia|]. intros _.
    apply Hi2. rewrite Hfrom; cbn; lia.
  - destruct Ht as [-> ->]. cbn. split; [done|lia].
  - destruct Ht as [-> ->]. rewrite Hnone by (rewrite Hfrom; cbn; lia).
    split; [done|]. cbn; lia.
Qed.

Lemma ran_ticket_inv e w ss r w' :
  ran e w ss r w' ->
  in_sequence (current_backup_stage w) ss ->
  ticket_inv w -> ticket_inv w'.
Proof.
  induction 1 as [s w r w' H|s ss w w1 r w' H Hran IH]; cbn.
  - intros [Hf _]. by eapply stage_step_ticket_inv.
  - intros [Hf Hs] Hi. apply IH.
    + destruct (stage_step_returns _ _ _ _ _ H) as (_ & _ & -> & _). done.
    + by eapply stage_step_ticket_inv.
Qed.

Lemma record_ticket_inv d w :
  acquires d = [] -> ticket_inv w -> ticket_inv (record d w).
Proof.
  intros Hd [H1 H2]. split; cbn; [done|].
  intros Hw. by rewrite last_acquire_app, Hd; cbn; auto.
Qed.

Lemma step_ticket_inv w w' :
  current_backup_stage w <> BACKUP_END ->
  step w w' -> ticket_inv w -> ticket_inv w'.
Proof.
  intros Hw Hstep; revert Hw.
  destruct Hstep as [e stage w0 r w0' H|w0 r w0' H|w0 w0' H|e w0 r w0' H|b w0 H];
    intros Hw Hi.
  - apply run_backup_stage_returns in H
      as [(_ & _ & err & -> & _)|(Ha & ss & w1 & Hran & Hr)].
    { by apply record_ticket_inv. }
    assert (ticket_inv w1).
    { eapply ran_ticket_inv; [done| |by apply record_ticket_inv].
      cbn. pose proof (stage_sequence_in_sequence _ _ Hw Ha) as Hs.
      destruct r; [|by destruct Hr as [-> _]].
      destruct Hr as [Hp _]. by eapply in_sequence_prefix. }
    destruct r; destruct Hr as [_ ->]; [by apply record_ticket_inv|done].
  - destruct (decide (current_backup_stage w0 = BACKUP_FINISHED)) as [Hc|Hc].
    + rewrite backup_end_finished in H by done. injection H as <- <-.
      by apply record_ticket_inv.
    + rewrite backup_end_active in H by done. injection H as <- <-.
      split; cbn; [done|]. unfold in_flush_window; cbn; lia.
  - unfold backup_set_alter_copy_lock in H.
    unfold_collaborators; unfold_monad; cbn in H.
    destruct (mdl_backup_ticket w0); injection H as <-; [|done].
    destruct Hi as [H1 H2]. split; cbn; [done|]. intros Hwin.
    change (last_acquire (trace w0 ++ [mdl_downgrade p MDL_BACKUP_ALTER_COPY])
            = Some (backup_flush_ticket w0)).
    rewrite last_acquire_app; cbn. auto.
  - unfold backup_reset_alter_copy_lock in H.
    unfold_collaborators; unfold_monad; cbn in H.
    destruct Hi as [H1 H2].
    destruct (mdl_backup_ticket w0), (upgrade_ddl_fails e);
      injection H as <- <-; try done;
      (split; cbn; [done|]); intros Hwin;
      match goal with |- last_acquire (?t ++ ?d) = _ =>
        rewrite (last_acquire_app t d) end; cbn; auto.
  - done.
Qed.

(** C5, as the code has it.  In every reachable state a flush ticket is
    held only while the session's stage is at or after FLUSH and before
    END (so none is held after END), and while the stage is in that range
    the ticket is the outcome of the last lock acquisition of the FLUSH
    handler: it is held exactly when that acquisition succeeded. *)
Theorem flush_ticket_window w :
  reachable w ->
  (backup_flush_ticket w <> None ->
   in_flush_window (current_backup_stage w)) /\
  (in_flush_window (current_backup_stage w) ->
   last_acquire (trace w) = Some (backup_flush_ticket w)) /\
  (current_backup_stage w = BACKUP_FINISHED -> backup_flush_ticket w = None).
Proof.
  intros Hr.
  assert (Hi : ticket_inv w).
  { induction Hr as [w (Hc & _ & Ht)|w w' Hr IH Hstep].
    - split; [by rewrite Ht|]. rewrite Hc. unfold in_flush_window; cbn; lia.
    - eapply step_ticket_inv; [by apply reachable_not_END|done|done]. }
  destruct Hi as [H1 H2]. split_and!; [done|done|].
  intros Hc. destruct (backup_flush_ticket w) eqn:Ht; [|done].
  exfalso. assert (in_flush_window (current_backup_stage w)) as Hw
    by by apply H1.
  rewrite Hc in Hw. unfold in_flush_window in Hw; cbn in Hw; lia.
Qed.

Lemma flush_ticket_window_witness :
  reachable w_flushed /\
  backup_flush_ticket w_flushed <> None /\
  in_flush_window (current_backup_stage w_flushed) /\
  last_acquire (trace w_flushed) = Some (backup_flush_ticket w_flushed).
Proof.
  split; [exact reachable_w_flushed|]. split; [discriminate|].
  destruct (flush_ticket_window w_flushed reachable_w_flushed)
    as (H1 & H2 & _).
  split; [apply H1; discriminate|].
  apply H2. unfold in_flush_window; cbn; lia.
Defined.

(** C5 as stated fails: after START and a FLUSH whose lock acquisition
    failed the session is at BACKUP_FLUSH, inside the window, and no
    ticket is held. *)
Lemma flush_ticket_iff_counterexample :
  reachable w_flush_failed /\
  current_backup_stage w_flush_failed = BACKUP_FLUSH /\
  backup_flush_ticket w_flush_failed = None /\
  ~ (backup_flush_ticket w_flush_failed <> None <->
     in_flush_window (current_backup_stage w_flush_failed)).
Proof.
  split; [exact reachable_w_flush_failed|]. split; [reflexivity|].
  split; [reflexivity|]. intros [_ H]. apply H; [|reflexivity].
  unfold in_flush_window; cbn; lia.
Qed.

(** ** The alter-copy lock *)

(** C6, as the code has it.  For a session whose backup ticket is a
    granted lock, backup_set_alter_copy_lock moves it to
    MDL_BACKUP_ALTER_COPY and a successful backup_reset_alter_copy_lock
    then leaves it in mode MDL_BACKUP_DDL, whatever mode it had before; a
    failed one reports the failure and leaves it at MDL_BACKUP_ALTER_COPY.
    For a session with no such ticket both calls change nothing and the
    second returns success. *)
Theorem alter_copy_round_trip e w :
  (forall t m,
     mdl_backup_ticket w = Some t -> mdl_tickets w !! t = Some m ->
     exists w1 w2 r,
       backup_set_alter_copy_lock w = Returns tt w1 /\
       mdl_tickets w1 !! t = Some MDL_BACKUP_ALTER_COPY /\
       backup_reset_alter_copy_lock e w1 = Returns r w2 /\
       r = upgrade_ddl_fails e /\
       mdl_tickets w2 !! t =
       Some (if r then MDL_BACKUP_ALTER_COPY else MDL_BACKUP_DDL)) /\
  (mdl_backup_ticket w = None ->
   backup_set_alter_copy_lock w = Returns tt w /\
   backup_reset_alter_copy_lock e w = Returns false w).
Proof.
  split.
  - intros t m Ht Hm.
    unfold backup_set_alter_copy_lock, backup_reset_alter_copy_lock.
    unfold_collaborators; unfold_monad; cbn. rewrite Ht; cbn.
    destruct (upgrade_ddl_fails e); eexists _, _, _;
      (split; [done|]); cbn;
      (split; [by rewrite lookup_alter_eq, Hm|]); rewrite Ht; cbn;
      (split; [done|split; [done|]]); cbn.
    + by rewrite lookup_alter_eq, Hm.
    + by rewrite !lookup_alter_eq, Hm.
  - intros Ht. unfold backup_set_alter_copy_lock, backup_reset_alter_copy_lock.
    unfold_monad; cbn. rewrite Ht. by destruct w.
Qed.

Lemma alter_copy_round_trip_witness :
  mdl_backup_ticket (w_alter MDL_BACKUP_DML) = Some 1%positive /\
  mdl_tickets (w_alter MDL_BACKUP_DML) !! 1%positive = Some MDL_BACKUP_DML /\
  mdl_backup_ticket world0 = None /\
  (exists w1 w2 r,
     backup_set_alter_copy_lock (w_alter MDL_BACKUP_DML) = Returns tt w1 /\
     mdl_tickets w1 !! 1%positive = Some MDL_BACKUP_ALTER_COPY /\
     backup_reset_alter_copy_lock env0 w1 = Returns r w2 /\
     r = upgrade_ddl_fails env0 /\
     mdl_tickets w2 !! 1%positive =
     Some (if r then MDL_BACKUP_ALTER_COPY else MDL_BACKUP_DDL)) /\
  backup_set_alter_copy_lock world0 = Returns tt world0 /\
  backup_reset_alter_copy_lock env0 world0 = Returns false world0.
Proof.
  split; [reflexivity|]. split; [reflexivity|]. split; [reflexivity|].
  split.
  - apply (proj1 (alter_copy_round_trip env0 (w_alter MDL_BACKUP_DML))
             1%positive MDL_BACKUP_DML); reflexivity.
  - apply (proj2 (alter_copy_round_trip env0 world0)). reflexivity.
Defined.

(** C6 as stated fails: a ticket held at MDL_BACKUP_WAIT_DDL is, after
    backup_set_alter_copy_lock and a successful
    backup_reset_alter_copy_lock, in mode MDL_BACKUP_DDL, which is neither
    MDL_BACKUP_WAIT_DDL nor the mode it had. *)
Lemma alter_copy_round_trip_counterexample :
  mdl_tickets (w_alter MDL_BACKUP_WAIT_DDL) !! 1%positive =
  Some MDL_BACKUP_WAIT_DDL /\
  exists w1 w2,
    backup_set_alter_copy_lock (w_alter MDL_BACKUP_WAIT_DDL) =
    Returns tt w1 /\
    backup_reset_alter_copy_lock env0 w1 = Returns false w2 /\
    mdl_tickets w2 !! 1%positive = Some MDL_BACKUP_DDL /\
    mdl_tickets w2 !! 1%positive <> Some MDL_BACKUP_WAIT_DDL.
Proof.
  split; [reflexivity|].
  eexists _, _. split; [vm_compute; reflexivity|].
  split; [vm_compute; reflexivity|].
  split; [vm_compute; reflexivity|]. vm_compute. discriminate.
Qed.

(** ** Failures of the START handler *)

Lemma reachable_w_other_running : reachable w_other_running.
Proof.
  eapply reachable_step; [apply reachable_world0|].
  by apply (step_other_sessions true world0).
Qed.



(** The flag a failed START leaves set is the one of another session:
    when another session holds the slot and this one is killed,
    backup_start (and with it the START request) fails and
    [backup_running] is true afterwards, as it was before. *)
Lemma failed_start_beside_running_backup :
  reachable w_other_running /\
  (exists w',
     backup_start env_killed w_other_running = Returns true w' /\
     backup_running w' = true) /\
  (exists w',
     run_backup_stage env_killed BACKUP_START w_other_running =
     Returns true w' /\
     backup_running w' = true).
Proof.
  split; [exact reachable_w_other_running|].
  split; eexists; (split; [vm_compute; reflexivity|reflexivity]).
Qed.

(** ** The DDL block *)

(** C8 at the failing input: after START and FLUSH, with a table flush
    that fails and raises no error, backup_block_ddl returns success with
    one lock upgrade requested, to MDL_BACKUP_WAIT_FLUSH; the upgrade to
    MDL_BACKUP_WAIT_DDL is not made and the ticket stays at
    MDL_BACKUP_WAIT_FLUSH, also when the stage is run by the runner. *)
Lemma block_ddl_skips_wait_ddl :
  (exists w',
     backup_block_ddl env_flush_tables_fails w_flushed = Returns false w' /\
     upgrades (events_since w_flushed w') =
     [(Some 1%positive, MDL_BACKUP_WAIT_FLUSH, false)] /\
     mdl_tickets w' !! 1%positive = Some MDL_BACKUP_WAIT_FLUSH) /\
  (exists w',
     run_backup_stage env_flush_tables_fails BACKUP_WAIT_FOR_FLUSH w_flushed =
     Returns false w' /\
     current_backup_stage w' = BACKUP_WAIT_FOR_FLUSH /\
     upgrades (events_since w_flushed w') =
     [(Some 1%positive, MDL_BACKUP_WAIT_FLUSH, false)] /\
     mdl_tickets w' !! 1%positive = Some MDL_BACKUP_WAIT_FLUSH).
Proof.
  split; eexists; (split; [vm_compute; reflexivity|]); repeat split;
    vm_compute; reflexivity.
Qed.

(** For comparison: when the table flush succeeds both upgrades are
    requested, in the order WAIT_FLUSH, WAIT_DDL. *)
Lemma block_ddl_upgrades_when_flush_succeeds :
  exists w',
    backup_block_ddl env0 w_flushed = Returns false w' /\
    upgrades (events_since w_flushed w') =
    [(Some 1%positive, MDL_BACKUP_WAIT_FLUSH, false);
     (Some 1%positive, MDL_BACKUP_WAIT_DDL, false)] /\
    mdl_tickets w' !! 1%positive = Some MDL_BACKUP_WAIT_DDL.
Proof.
  eexists. split; [vm_compute; reflexivity|].
  split; vm_compute; reflexivity.
Qed.

(** ** The stores to the stage *)

(** The events of a run of the loop, stage by stage. *)
Lemma ran_events e w ss r w' :
  ran e w ss r w' ->
  exists d,
    trace w' = trace w ++ d /\
    failed_asserts d =
    flat_map (fun s => if decide (s = BACKUP_FINISHED) then [()] else []) ss /\
    Forall handler_error (errors d) /\
    entered d = flat_map handler_name ss /\
    ((BACKUP_START ∈ ss -> ss = [BACKUP_START]) ->
     stage_stores d = flat_map (fun s => s :: handler_stores e s r) ss).
Proof.
  induction 1 as [s w r w' H|s ss w w1 r w' H Hran IH].
  - destruct (stage_step_returns _ _ _ _ _ H)
      as (d & Hd & _ & _ & _ & Hst & Hen & Has & Her).
    exists d. cbn. rewrite !app_nil_r. by split_and!.
  - destruct (stage_step_returns _ _ _ _ _ H)
      as (d & Hd & _ & _ & _ & Hst & Hen & Has & Her).
    destruct IH as (d' & Hd' & Has' & Her' & Hen' & Hst').
    exists (d ++ d'). cbn.
    unfold failed_asserts, errors, entered, stage_stores in *.
    rewrite !omap_app, Has, Has', Hen, Hen'.
    split_and!; try done.
    + by rewrite Hd', Hd, app_assoc.
    + by apply Forall_app.
    + intros Hstart.
      assert (ss <> []) by (intros ->; inversion Hran).
      assert (Hno : BACKUP_START ∉ s :: ss).
      { intros Hin. specialize (Hstart Hin). by injection Hstart. }
      rewrite Hst, Hst'.
      * destruct s; try done. exfalso. apply Hno. by left.
      * intros Hin. exfalso. apply Hno. by right.
Qed.

(** START is run alone. *)
Lemma stage_sequence_START cur stage ss :
  admissible cur stage = true ->
  ss `prefix_of` stage_sequence cur stage -> ss <> [] ->
  BACKUP_START ∈ ss -> ss = [BACKUP_START].
Proof.
  intros Ha [k Hk] Hne Hin.
  destruct (decide (cur = BACKUP_FINISHED)) as [->|Hc].
  - destruct stage; try done. cbn in Hk.
    destruct ss as [|s [|s' ss]]; try done.
    by injection Hk as <-.
  - exfalso.
    assert (Hall : BACKUP_START ∈ stage_sequence cur stage)
      by (rewrite Hk; apply elem_of_app; by left).
    clear -Hall Hc Ha.
    destruct cur, stage; try done; cbn in Hall;
      repeat (apply elem_of_cons in Hall as [?|Hall]; [done|]);
      by apply elem_of_nil in Hall.
Qed.

Lemma ran_nonempty e w ss r w' : ran e w ss r w' -> ss <> [].
Proof. by destruct 1. Qed.

(** C9, as the code has it.  The stages a returned call stores are, for
    each stage of the part of its stage sequence that ran, that stage
    (stored by the runner) followed by what its handler stores itself:
    nothing for FLUSH, BLOCK_DDL and BLOCK_COMMIT; BACKUP_FINISHED for
    END; and for START first BACKUP_FINISHED, then BACKUP_START again
    unless the read-only check fails, then BACKUP_FINISHED if the handler
    failed.  The stage sequence is strictly increasing and lies above the
    current stage, so the stage is non-decreasing from one handler to the
    next; a call that is turned down stores nothing. *)
Theorem stage_stores_of_call e stage w r w' :
  run_backup_stage e stage w = Returns r w' ->
  if admissible (current_backup_stage w) stage then
    exists ss,
      ss `prefix_of` stage_sequence (current_backup_stage w) stage /\
      (r = false -> ss = stage_sequence (current_backup_stage w) stage) /\
      stage_stores (events_since w w') =
      flat_map (fun s => s :: handler_stores e s r) ss /\
      increasing
        (map stage_code (stage_sequence (current_backup_stage w) stage)) =
      true /\
      (current_backup_stage w <> BACKUP_FINISHED ->
       Forall (fun s => stage_uint (current_backup_stage w) < stage_uint s)
         (stage_sequence (current_backup_stage w) stage))
  else stage_stores (events_since w w') = [].
Proof.
  intros H.
  apply run_backup_stage_returns in H
    as [(-> & _ & err & -> & _)|(Ha & ss & w1 & Hran & Hr)].
  { by erewrite events_since_trace by (cbn; reflexivity). }
  rewrite Ha.
  destruct (ran_events _ _ _ _ _ Hran) as (d & Hd & _ & _ & _ & Hst).
  cbn in Hd.
  assert (Hp : ss `prefix_of` stage_sequence (current_backup_stage w) stage).
  { destruct r; [by destruct Hr|]. by destruct Hr as [-> _]. }
  exists ss. split_and!; try done.
  - intros ->. by destruct Hr.
  - rewrite <- Hst
      by (eapply stage_sequence_START; eauto using ran_nonempty).
    destruct r; destruct Hr as [_ ->];
      (erewrite events_since_trace
         by (cbn; rewrite Hd, <- !app_assoc; reflexivity));
      unfold stage_stores; rewrite !omap_app; cbn; by rewrite ?app_nil_r.
  - clear -Ha. by destruct (current_backup_stage w), stage.
  - clear -Ha. intros Hc.
    destruct (current_backup_stage w), stage; try done; cbn;
      repeat (apply List.Forall_cons; [done|]); apply List.Forall_nil.
Qed.

Lemma stage_stores_of_call_witness :
  run_backup_stage env0 BACKUP_START world0 = Returns false w_started /\
  admissible (current_backup_stage world0) BACKUP_START = true /\
  exists ss,
    ss `prefix_of` stage_sequence (current_backup_stage world0) BACKUP_START /\
    (false = false ->
     ss = stage_sequence (current_backup_stage world0) BACKUP_START) /\
    stage_stores (events_since world0 w_started) =
    flat_map (fun s => s :: handler_stores env0 s false) ss.
Proof.
  assert (H : run_backup_stage env0 BACKUP_START world0 =
              Returns false w_started) by (vm_compute; reflexivity).
  split; [exact H|]. split; [reflexivity|].
  pose proof (stage_stores_of_call env0 BACKUP_START world0 false w_started H)
    as Hs.
  cbn in Hs. destruct Hs as (ss & H1 & H2 & H3 & _).
  exists ss. split; [exact H1|]. split; [exact H2|exact H3].
Defined.

(** C9 as stated fails: a START request that succeeds stores
    BACKUP_START, BACKUP_FINISHED, BACKUP_START.  The stage goes back to
    BACKUP_FINISHED although START did not fail and END was not reached,
    and the stores are not monotone, neither on the ladder of the spec nor
    in the codes of the enumeration. *)
Lemma stage_stores_counterexample :
  reachable world0 /\
  run_backup_stage env0 BACKUP_START world0 = Returns false w_started /\
  stage_stores (events_since world0 w_started) =
  [BACKUP_START; BACKUP_FINISHED; BACKUP_START] /\
  nondecreasing
    (map ladder_rank (stage_stores (events_since world0 w_started))) =
  false /\
  nondecreasing
    (map stage_code (stage_stores (events_since world0 w_started))) =
  false.
Proof.
  split; [exact reachable_world0|].
  repeat split; vm_compute; reflexivity.
Qed.

(** ** Totality *)

Ltac exec_goal e :=
  unfold stage_step, run_stage_handler, backup_flush, backup_block_ddl,
    backup_block_commit, backup_end;
  unfold_collaborators; unfold_monad; cbn;
  repeat (first
    [ match goal with
      | |- context [if ?f e then _ else _] => destruct (f e)
      end
    | match goal with
      | |- context [match ?ft with Some _ => _ | None => _ end] =>
          is_var ft; destruct ft
      end
    | case_decide ]; cbn);
  try done.

(** A stage never leaves the model, and only START can block. *)
Lemma stage_step_defined e s w :
  match stage_step e s w with
  | Returns _ _ => True
  | Blocks _ => s = BACKUP_START
  | Undefined | OutOfFuel => False
  end.
Proof.
  destruct s.
  - pose proof (stage_step_START e w) as H.
    by destruct (stage_step e BACKUP_START w).
  - destruct w as [cur alt run ft tks tr]. exec_goal e.
  - destruct w as [cur alt run ft tks tr]. exec_goal e.
  - destruct w as [cur alt run ft tks tr]. exec_goal e.
  - destruct w as [cur alt run ft tks tr]. exec_goal e.
  - destruct w as [cur alt run ft tks tr]. exec_goal e.
Qed.

(** A plan without START returns. *)
Lemma run_plan_returns e stage plan : forall w,
  BACKUP_START ∉ plan ->
  exists r w', run_plan e stage plan w = Returns r w'.
Proof.
  induction plan as [|s rest IH]; intros w Hno; [by eexists _, _|].
  cbn [run_plan].
  assert (Hstep : forall k : bool -> M bool,
            (set_stage s ;; res <- run_stage_handler e s ;; k res) w =
            (res <- stage_step e s ;; k res) w).
  { intros k. unfold stage_step; unfold_monad; cbn. done. }
  rewrite Hstep. unfold bind at 1.
  pose proof (stage_step_defined e s w) as Hd.
  destruct (stage_step e s w) as [res w1|w1| |]; try done.
  - destruct res; [by eexists _, _|].
    apply IH. intros Hin. apply Hno. by right.
  - exfalso. apply Hno. rewrite Hd. by left.
Qed.

(** Every call of run_backup_stage returns or, for START from
    BACKUP_FINISHED, stays in the wait loop: six iterations are enough and
    every value of [next_stage] has its case. *)
Lemma run_backup_stage_defined e stage w :
  match run_backup_stage e stage w with
  | Returns _ _ => True
  | Blocks _ =>
      current_backup_stage w = BACKUP_FINISHED /\ stage = BACKUP_START
  | Undefined | OutOfFuel => False
  end.
Proof.
  destruct (admissible (current_backup_stage w) stage) eqn:Ha.
  - rewrite run_backup_stage_admissible by done.
    destruct (decide (current_backup_stage w = BACKUP_FINISHED)) as [Hc|Hc].
    + rewrite Hc in *. destruct stage; try done.
      change (stage_sequence BACKUP_FINISHED BACKUP_START)
        with [BACKUP_START].
      cbn [run_plan].
      match goal with |- context [?m ?w1] =>
        match m with
        | bind (set_stage _) _ =>
            change (m w1) with
              ((res <- stage_step e BACKUP_START ;;
                if res then
                  emit (my_error
                          (ER_BACKUP_STAGE_FAILED
                             (stage_name_at (stage_uint BACKUP_START)))) ;;
                  ret true
                else ret false) w1);
            pose proof (stage_step_defined e BACKUP_START w1) as Hd;
            unfold bind at 1;
            destruct (stage_step e BACKUP_START w1) as [[] ?|?| |]
        end
      end; done.
    + destruct (run_plan_returns e stage
                  (stage_sequence (current_backup_stage w) stage)
                  (record [DBUG_ENTER "run_backup_stage"] w))
        as (r & w' & ->); [|done].
      clear -Hc Ha. intros Hin.
      destruct (current_backup_stage w), stage; try done; cbn in Hin;
        repeat (apply elem_of_cons in Hin as [?|Hin]; [done|]);
        by apply elem_of_nil in Hin.
  - unfold admissible in Ha.
    destruct (decide (current_backup_stage w = BACKUP_FINISHED)) as [Hc|Hc].
    + apply bool_decide_eq_false in Ha.
      by rewrite run_backup_stage_not_running.
    + apply Z.ltb_ge in Ha. by rewrite run_backup_stage_wrong_stage.
Qed.

(** ** The BACKUP_FINISHED case of the switch *)

(** A call that never returns is a START request waiting for the slot. *)
Lemma run_backup_stage_blocks e stage w w' :
  run_backup_stage e stage w = Blocks w' ->
  current_backup_stage w = BACKUP_FINISHED /\ stage = BACKUP_START /\
  exists n,
    events_since w w' =
    DBUG_ENTER "run_backup_stage" :: store_stage BACKUP_START ::
    start_blocked_events n.
Proof.
  intros H. pose proof (run_backup_stage_defined e stage w) as Hd.
  rewrite H in Hd. destruct Hd as [Hc ->]. split_and!; try done.
  rewrite run_backup_stage_admissible in H by by rewrite Hc.
  rewrite Hc in H.
  change (stage_sequence BACKUP_FINISHED BACKUP_START) with [BACKUP_START]
    in H.
  cbn [run_plan] in H.
  match type of H with ?m ?w1 = _ =>
    change (m w1) with
      ((res <- stage_step e BACKUP_START ;;
        if res then
          emit (my_error
                  (ER_BACKUP_STAGE_FAILED
                     (stage_name_at (stage_uint BACKUP_START)))) ;;
          ret true
        else ret false) w1) in H;
    pose proof (stage_step_START e w1) as Hs;
    unfold bind at 1 in H;
    destruct (stage_step e BACKUP_START w1) as [[] ?|?| |]
  end; try done.
  injection H as <-. destruct Hs as (_ & n & b & ->).
  exists n. apply events_since_trace. cbn. by normalize_trace.
Qed.

(** The entries of [stage_names] that hold a name are the first
    [backup_stage_names_count], five. *)
Lemma stage_name_at_Some i :
  0 <= i ->
  is_Some (stage_name_at i) <-> (Z.to_nat i < backup_stage_names_count)%nat.
Proof.
  intros Hi. unfold stage_name_at, backup_stage_names_count.
  destruct (Z.to_nat i) as [|[|[|[|[|[|n]]]]]]; cbn;
    (split; [intros [x Hx]; (done || lia)|intros Hn; (by eexists) || lia]).
Qed.

(** C10.  When the requested stage is one of the five named stages, a
    call returns or waits for the slot, never reaches the BACKUP_FINISHED
    case of the switch, and every stage name it passes to my_error is one
    of the five entries of [stage_names] that hold a name.  The precondition is needed: a request
    for BACKUP_FINISHED from any other stage returns, and either succeeds
    after reaching the BACKUP_FINISHED case, or fails and reports
    [stage_names[5]], the null entry; both happen. *)
Theorem finished_case_needs_named_stage :
  (forall e stage w,
     stage <> BACKUP_FINISHED ->
     match run_backup_stage e stage w with
     | Returns _ w' | Blocks w' =>
         failed_asserts (events_since w w') = [] /\
         Forall names_valid (errors (events_since w w'))
     | Undefined | OutOfFuel => False
     end) /\
  (forall e w,
     current_backup_stage w <> BACKUP_FINISHED ->
     exists r w',
       run_backup_stage e BACKUP_FINISHED w = Returns r w' /\
       if r then
         last (errors (events_since w w')) =
         Some (ER_BACKUP_STAGE_FAILED (stage_name_at 5)) /\
         stage_name_at 5 = None
       else failed_asserts (events_since w w') = [()]) /\
  (run_backup_stage env0 BACKUP_FINISHED w_started =
   Returns false w_finished_request /\
   failed_asserts (events_since w_started w_finished_request) = [()]) /\
  (run_backup_stage env_flush_fails BACKUP_FINISHED w_started =
   Returns true w_finished_request_failed /\
   errors (events_since w_started w_finished_request_failed) =
   [ER_BACKUP_STAGE_FAILED None]).
Proof.
  split_and!.
  - intros e stage w Hs.
    pose proof (run_backup_stage_defined e stage w) as Hdef.
    destruct (run_backup_stage e stage w) as [r w'|w'| |] eqn:H; try done.
    2:{ apply run_backup_stage_blocks in H as (_ & _ & n & ->).
        unfold start_blocked_events, failed_asserts, errors; cbn.
        by rewrite !omap_replicate_None. }
    apply run_backup_stage_returns in H
      as [(_ & _ & err & -> & Herr)|(Ha & ss & w1 & Hran & Hr)].
    { erewrite events_since_trace by (cbn; reflexivity). split; [done|].
      cbn. apply List.Forall_cons; [|apply List.Forall_nil].
      destruct Herr as [->|[Hc ->]]; [done|].
      split; by apply stage_name_at_valid. }
    destruct (ran_events _ _ _ _ _ Hran) as (d & Hd & Has & Her & _).
    cbn in Hd.
    assert (Hnone : failed_asserts d = []).
    { rewrite Has.
      assert (Hp : ss `prefix_of`
                     stage_sequence (current_backup_stage w) stage)
        by (destruct r; [by destruct Hr|by destruct Hr as [-> _]]).
      destruct Hp as [k Hk].
      assert (Hall : Forall (fun s => s <> BACKUP_FINISHED)
                       (stage_sequence (current_backup_stage w) stage)).
      { clear -Ha Hs.
        destruct (current_backup_stage w), stage; try done; cbn;
          repeat (apply List.Forall_cons; [done|]); apply List.Forall_nil. }
      rewrite Hk in Hall. apply Forall_app in Hall as [Hall _].
      clear -Hall. induction Hall as [|s l Hs _ IH]; [done|].
      cbn. rewrite IH. by case_decide. }
    assert (Hq : Forall names_valid (errors d)).
    { eapply Forall_impl; [exact Her|]. by intros x [->| ->]. }
    destruct r; destruct Hr as [_ ->];
      (erewrite events_since_trace
         by (cbn; rewrite Hd, <- !app_assoc; reflexivity));
      unfold failed_asserts, errors in *; rewrite !omap_app; cbn.
    + rewrite Hnone. split; [done|].
      apply Forall_app. split; [done|].
      apply List.Forall_cons; [|apply List.Forall_nil].
      by apply stage_name_at_valid.
    + by rewrite Hnone.
  - intros e w Hc.
    pose proof (run_backup_stage_defined e BACKUP_FINISHED w) as Hd.
    destruct (run_backup_stage e BACKUP_FINISHED w) as [r w'|w'| |] eqn:H;
      try done; [|by destruct Hd].
    exists r, w'. split; [done|].
    apply run_backup_stage_returns in H
      as [(Ha & _)|(Ha & ss & w1 & Hran & Hr)].
    { exfalso. clear -Ha Hc. by destruct (current_backup_stage w). }
    destruct (ran_events _ _ _ _ _ Hran) as (d & Hd' & Has & _).
    cbn in Hd'.
    destruct r; destruct Hr as [Hss ->];
      (erewrite events_since_trace
         by (cbn; rewrite Hd', <- !app_assoc; reflexivity));
      unfold failed_asserts, errors in *; rewrite !omap_app; cbn.
    + split; [|done]. by rewrite last_snoc.
    + rewrite Has, Hss. clear -Hc.
      by destruct (current_backup_stage w).
  - vm_compute; reflexivity.
  - vm_compute; reflexivity.
  - vm_compute; reflexivity.
  - vm_compute; reflexivity.
Qed.

Lemma finished_case_needs_named_stage_witness :
  BACKUP_LOCK_COMMIT <> BACKUP_FINISHED /\
  current_backup_stage w_started <> BACKUP_FINISHED /\
  match run_backup_stage env_flush_fails BACKUP_LOCK_COMMIT w_started with
  | Returns _ w' | Blocks w' =>
      failed_asserts (events_since w_started w') = [] /\
      Forall names_valid (errors (events_since w_started w'))
  | Undefined | OutOfFuel => False
  end /\
  exists r w',
    run_backup_stage env0 BACKUP_FINISHED w_started = Returns r w' /\
    if r then
      last (errors (events_since w_started w')) =
      Some (ER_BACKUP_STAGE_FAILED (stage_name_at 5)) /\
      stage_name_at 5 = None
    else failed_asserts (events_since w_started w') = [()].
Proof.
  split; [discriminate|]. split; [discriminate|].
  destruct finished_case_needs_named_stage as (H1 & H2 & _).
  split.
  - apply (H1 env_flush_fails BACKUP_LOCK_COMMIT w_started). discriminate.
  - apply (H2 env0 w_started). discriminate.
Defined.

(** * Further behaviour of the stage runner *)

(** ** Effects of a call *)

(** What a stage releases, stores to [backup_running] and raises. *)
Lemma stage_step_effects e s w r w' :
  stage_step e s w = Returns r w' ->
  exists d,
    trace w' = trace w ++ d /\
    (r = false -> errors d = []) /\
    released d =
    (if decide (s = BACKUP_END) then option_list (backup_flush_ticket w)
     else []) /\
    running_stores d = handler_running_stores s r /\
    (s <> BACKUP_START -> s <> BACKUP_END ->
     backup_running w' = backup_running w) /\
    (s = BACKUP_START -> r = false -> backup_running w' = true) /\
    (is_Some (backup_flush_ticket w) -> s <> BACKUP_END ->
     is_Some (backup_flush_ticket w')).
Proof.
  intros H. destruct s.
  - pose proof (stage_step_START e w) as Hs. rewrite H in Hs.
    destruct Hs as (n & b & -> & H1 & H2 & H3). eexists; split; [done|].
    unfold start_events, errors, released, running_stores.
    split_and!; try done.
    + intros ->. destruct (H1 eq_refl) as (_ & -> & ->). list_facts.
    + destruct (read_only_protection e), (locked_tables_mode e), r;
        list_facts.
    + destruct (read_only_protection e) eqn:Hro,
        (locked_tables_mode e) eqn:Hlt, r; list_facts;
        by destruct (H1 eq_refl) as (_ & ? & ?).
    + intros _ ->. by destruct (H1 eq_refl).
  - exec_step H e w; normalize_trace; eexists; (split; [done|]);
      split_and!; list_facts.
  - exec_step H e w; normalize_trace; eexists; (split; [done|]);
      split_and!; list_facts.
  - exec_step H e w; normalize_trace; eexists; (split; [done|]);
      split_and!; list_facts.
  - exec_step H e w; normalize_trace; eexists; (split; [done|]);
      split_and!; list_facts.
  - exec_step H e w; normalize_trace; eexists; (split; [done|]);
      split_and!; list_facts.
Qed.

Lemma not_elem_of_prefix {A} (x : A) (l k : list A) :
  l `prefix_of` k -> x ∉ k -> x ∉ l.
Proof. intros [m ->] Hx Hin. apply Hx, elem_of_app. by left. Qed.

(** The effects of a run of the loop that has no END stage. *)
Lemma ran_effects e w ss r w' :
  ran e w ss r w' ->
  exists d,
    trace w' = trace w ++ d /\
    (r = false -> errors d = []) /\
    (BACKUP_END ∉ ss -> released d = []) /\
    (BACKUP_START ∉ ss -> BACKUP_END ∉ ss ->
     running_stores d = [] /\ backup_running w' = backup_running w) /\
    (is_Some (backup_flush_ticket w) -> BACKUP_END ∉ ss ->
     is_Some (backup_flush_ticket w')).
Proof.
  induction 1 as [s w r w' H|s ss w w1 r w' H Hran IH].
  - destruct (stage_step_effects _ _ _ _ _ H)
      as (d & Hd & He & Hrel & Hrs & Hrun & _ & Ht).
    exists d. split_and!; try done.
    + intros Hs. rewrite Hrel. case_decide; [|done].
      exfalso. apply Hs. subst. by left.
    + intros Hs1 Hs2.
      assert (s <> BACKUP_START) by (intros ->; apply Hs1; by left).
      assert (s <> BACKUP_END) by (intros ->; apply Hs2; by left).
      split; [|by apply Hrun]. rewrite Hrs. by destruct s.
    + intros Hsome Hs. apply Ht; [done|]. intros ->. apply Hs. by left.
  - destruct (stage_step_effects _ _ _ _ _ H)
      as (d & Hd & He & Hrel & Hrs & Hrun & _ & Ht).
    destruct IH as (d' & Hd' & He' & Hrel' & Hrs' & Ht').
    exists (d ++ d'). unfold errors, released, running_stores in *.
    rewrite !omap_app. split_and!.
    + by rewrite Hd', Hd, app_assoc.
    + intros Hr. by rewrite He, He'.
    + intros Hs. rewrite Hrel, Hrel'.
      * case_decide; [|done]. exfalso. apply Hs. subst. by left.
      * intros Hin. apply Hs. by right.
    + intros Hs1 Hs2.
      assert (s <> BACKUP_START) by (intros ->; apply Hs1; by left).
      assert (s <> BACKUP_END) by (intros ->; apply Hs2; by left).
      destruct Hrs' as [Hrs' Hrun'].
      { intros Hin. apply Hs1. by right. }
      { intros Hin. apply Hs2. by right. }
      rewrite Hrs, Hrs', Hrun', Hrun by done. by destruct s.
    + intros Hsome Hs. apply Ht'.
      * apply Ht; [done|]. intros ->. apply Hs. by left.
      * intros Hin. apply Hs. by right.
Qed.

Lemma stage_sequence_last cur stage :
  admissible cur stage = true ->
  last (stage_sequence cur stage) = Some stage.
Proof. by destruct cur, stage. Qed.

(** X1.  A request that returns success has passed the two tests, raised
    no error, entered the handler of every stage of its stage sequence in
    ascending order (the stages skipped since the last request are run
    too), and left the session at the requested stage, or at
    BACKUP_FINISHED when END was requested. *)
Theorem successful_request_runs_sequence e stage w w' :
  run_backup_stage e stage w = Returns false w' ->
  admissible (current_backup_stage w) stage = true /\
  current_backup_stage w' = stage_after stage false /\
  errors (events_since w w') = [] /\
  entered (events_since w w') =
  "run_backup_stage" ::
  flat_map handler_name (stage_sequence (current_backup_stage w) stage).
Proof.
  intros H.
  apply run_backup_stage_returns in H
    as [(_ & ? & _)|(Ha & ss & w1 & Hran & -> & ->)]; [done|].
  split; [done|].
  destruct (ran_frame _ _ _ _ _ Hran) as (s & _ & Hl & _ & Hc & _).
  rewrite stage_sequence_last in Hl by done. injection Hl as <-.
  split; [done|].
  destruct (ran_events _ _ _ _ _ Hran) as (d & Hd & _ & _ & Hen & _).
  destruct (ran_effects _ _ _ _ _ Hran) as (d' & Hd' & He & _).
  assert (d' = d) as -> by (rewrite Hd in Hd'; by apply app_inv_head in Hd').
  cbn in Hd.
  erewrite events_since_trace by (rewrite Hd, <- app_assoc; reflexivity).
  unfold errors, entered in *. rewrite !omap_app, Hen, He by done. done.
Qed.

Lemma successful_request_runs_sequence_witness :
  run_backup_stage env0 BACKUP_LOCK_COMMIT w_started =
  Returns false (after (run_backup_stage env0 BACKUP_LOCK_COMMIT w_started)) /\
  current_backup_stage
    (after (run_backup_stage env0 BACKUP_LOCK_COMMIT w_started)) =
  BACKUP_LOCK_COMMIT /\
  entered
    (events_since w_started
       (after (run_backup_stage env0 BACKUP_LOCK_COMMIT w_started))) =
  ["run_backup_stage"; "backup_flush"; "backup_block_ddl";
   "backup_block_commit"].
Proof.
  assert (H : run_backup_stage env0 BACKUP_LOCK_COMMIT w_started =
              Returns false
                (after (run_backup_stage env0 BACKUP_LOCK_COMMIT w_started)))
    by (vm_compute; reflexivity).
  split; [exact H|].
  destruct (successful_request_runs_sequence _ _ _ _ H) as (_ & H2 & _ & H4).
  split; [exact H2|exact H4].
Defined.

(** X2.  A request for a stage other than END never hands a ticket to
    release_lock, never stores false to [backup_running] (the only store
    is the [true] of a successful START), and never drops a flush ticket
    that is held: a failed stage keeps the slot and the lock. *)
Theorem only_end_gives_back e stage w r w' :
  stage <> BACKUP_END -> stage <> BACKUP_FINISHED ->
  run_backup_stage e stage w = Returns r w' ->
  released (events_since w w') = [] /\
  running_stores (events_since w w') =
  (if decide (current_backup_stage w = BACKUP_FINISHED)
   then if r then [] else [true]
   else []) /\
  (current_backup_stage w <> BACKUP_FINISHED ->
   backup_running w' = backup_running w) /\
  (is_Some (backup_flush_ticket w) -> is_Some (backup_flush_ticket w')).
Proof.
  intros Hs1 Hs2 H.
  apply run_backup_stage_returns in H
    as [(_ & -> & err & -> & _)|(Ha & ss & w1 & Hran & Hr)].
  { erewrite events_since_trace by (cbn; reflexivity). cbn.
    split_and!; try done. by case_decide. }
  assert (Hp : ss `prefix_of` stage_sequence (current_backup_stage w) stage)
    by (destruct r; [by destruct Hr|by destruct Hr as [-> _]]).
  assert (Hend : BACKUP_END ∉ ss).
  { eapply not_elem_of_prefix; [done|]. clear -Ha Hs1 Hs2.
    destruct (current_backup_stage w), stage; try done; cbn;
      intros Hin;
      repeat (apply elem_of_cons in Hin as [?|Hin]; [done|]);
      by apply elem_of_nil in Hin. }
  destruct (decide (current_backup_stage w = BACKUP_FINISHED)) as [Hc|Hc].
  - (* START alone *)
    assert (ss = [BACKUP_START]) as ->.
    { apply ran_nonempty in Hran. rewrite Hc in Hp, Ha.
      destruct stage; try done. destruct Hp as [k Hk]. cbn in Hk.
      destruct ss as [|s [|s' ss]]; try done. by injection Hk as <-. }
    inversion Hran as [s w0 r0 w0' Hstep|s ss0 w0 w2 r0 w0' Hstep Hran'];
      subst; [|inversion Hran'].
    destruct (stage_step_effects _ _ _ _ _ Hstep)
      as (d & Hd & _ & Hrel & Hrs & _ & _ & Ht).
    cbn in Hd, Ht.
    destruct r; destruct Hr as [_ ->];
      (erewrite events_since_trace
         by (cbn; rewrite Hd, <- !app_assoc; reflexivity));
      unfold released, running_stores in *; rewrite !omap_app; cbn;
      rewrite Hrel, Hrs; cbn; split_and!; try done; intros Hsome;
      by apply Ht.
  - destruct (ran_effects _ _ _ _ _ Hran) as (d & Hd & _ & Hrel & Hrs & Ht).
    cbn in Hd, Hrs, Ht.
    assert (Hstart : BACKUP_START ∉ ss).
    { eapply not_elem_of_prefix; [done|]. clear -Ha Hc.
      destruct (current_backup_stage w), stage; try done; cbn;
        intros Hin;
        repeat (apply elem_of_cons in Hin as [?|Hin]; [done|]);
        by apply elem_of_nil in Hin. }
    destruct (Hrs Hstart Hend) as [Hrs1 Hrs2].
    destruct r; destruct Hr as [_ ->];
      (erewrite events_since_trace
         by (cbn; rewrite Hd, <- !app_assoc; reflexivity));
      unfold released, running_stores in *; rewrite !omap_app; cbn;
      rewrite Hrel, Hrs1 by done; cbn; split_and!; try done; intros Hsome;
      by apply Ht.
Qed.

Lemma only_end_gives_back_witness :
  BACKUP_LOCK_COMMIT <> BACKUP_END /\
  BACKUP_LOCK_COMMIT <> BACKUP_FINISHED /\
  run_backup_stage env_flush_tables_fails BACKUP_LOCK_COMMIT w_flushed =
  Returns false
    (after (run_backup_stage env_flush_tables_fails BACKUP_LOCK_COMMIT
              w_flushed)) /\
  released
    (events_since w_flushed
       (after (run_backup_stage env_flush_tables_fails BACKUP_LOCK_COMMIT
                 w_flushed))) = [] /\
  is_Some
    (backup_flush_ticket
       (after (run_backup_stage env_flush_tables_fails BACKUP_LOCK_COMMIT
                 w_flushed))).
Proof.
  split; [discriminate|]. split; [discriminate|].
  assert (H : run_backup_stage env_flush_tables_fails BACKUP_LOCK_COMMIT
                w_flushed =
              Returns false
                (after (run_backup_stage env_flush_tables_fails
                          BACKUP_LOCK_COMMIT w_flushed)))
    by (vm_compute; reflexivity).
  split; [exact H|].
  assert (H1' : BACKUP_LOCK_COMMIT <> BACKUP_END) by discriminate.
  assert (H2' : BACKUP_LOCK_COMMIT <> BACKUP_FINISHED) by discriminate.
  destruct (only_end_gives_back _ _ _ _ _ H1' H2' H) as (H1 & _ & _ & H4).
  split; [exact H1|]. apply H4. by eexists.
Defined.

(** ** The slot *)

Lemma stage_step_holds_slot e s w r w' :
  stage_step e s w = Returns r w' ->
  enters_from (current_backup_stage w) s ->
  holds_slot w -> holds_slot w'.
Proof.
  intros H Hfrom Hw.
  destruct (stage_step_returns _ _ _ _ _ H) as (_ & _ & Hc & _).
  destruct (stage_step_effects _ _ _ _ _ H)
    as (_ & _ & _ & _ & _ & Hrun & Hstart & _).
  unfold holds_slot in *. rewrite Hc.
  destruct s; cbn in *; try done.
  - destruct r; [done|]. intros _. by apply Hstart.
  - intros _. rewrite Hrun by done. apply Hw. by rewrite Hfrom.
  - intros _. rewrite Hrun by done. apply Hw. by rewrite Hfrom.
  - intros _. rewrite Hrun by done. apply Hw. by rewrite Hfrom.
Qed.

Lemma ran_holds_slot e w ss r w' :
  ran e w ss r w' ->
  in_sequence (current_backup_stage w) ss ->
  holds_slot w -> holds_slot w'.
Proof.
  induction 1 as [s w r w' H|s ss w w1 r w' H Hran IH]; cbn.
  - intros [Hf _]. by eapply stage_step_holds_slot.
  - intros [Hf Hs] Hi. apply IH.
    + destruct (stage_step_returns _ _ _ _ _ H) as (_ & _ & -> & _). done.
    + by eapply stage_step_holds_slot.
Qed.

Lemma run_backup_stage_holds_slot e stage w r w' :
  current_backup_stage w <> BACKUP_END ->
  run_backup_stage e stage w = Returns r w' ->
  holds_slot w -> holds_slot w'.
Proof.
  intros Hw H Hi.
  apply run_backup_stage_returns in H
    as [(_ & _ & err & -> & _)|(Ha & ss & w1 & Hran & Hr)]; [done|].
  assert (holds_slot w1).
  { eapply ran_holds_slot; [done| |done].
    cbn. pose proof (stage_sequence_in_sequence _ _ Hw Ha) as Hs.
    destruct r; [|by destruct Hr as [-> _]].
    destruct Hr as [Hp _]. by eapply in_sequence_prefix. }
  destruct r; destruct Hr as [_ ->]; done.
Qed.

Lemma step_holds_slot w w' :
  current_backup_stage w <> BACKUP_END ->
  step w w' -> holds_slot w -> holds_slot w'.
Proof.
  intros Hw Hstep; revert Hw.
  destruct Hstep as [e stage w0 r w0' H|w0 r w0' H|w0 w0' H|e w0 r w0' H|b w0 H];
    intros Hw Hi.
  - by eapply run_backup_stage_holds_slot.
  - destruct (decide (current_backup_stage w0 = BACKUP_FINISHED)) as [Hc|Hc].
    + rewrite backup_end_finished in H by done. injection H as <- <-.
      exact Hi.
    + rewrite backup_end_active in H by done. injection H as <- <-.
      by intros ?.
  - unfold backup_set_alter_copy_lock in H.
    unfold_collaborators; unfold_monad; cbn in H.
    destruct (mdl_backup_ticket w0); injection H as <-; exact Hi.
  - unfold backup_reset_alter_copy_lock in H.
    unfold_collaborators; unfold_monad; cbn in H.
    destruct (mdl_backup_ticket w0), (upgrade_ddl_fails e);
      injection H as <- <-; exact Hi.
  - intros Hc. done.
Qed.

(** X3.  In every reachable state a session whose stage is not
    BACKUP_FINISHED has [backup_running] set: between its successful START
    and its END the slot is marked taken, whatever stages failed in
    between. *)
Theorem session_in_backup_holds_slot w :
  reachable w ->
  current_backup_stage w <> BACKUP_FINISHED -> backup_running w = true.
Proof.
  intros Hr. change (holds_slot w).
  induction Hr as [w (Hc & _)|w w' Hr IH Hstep].
  - intros Hn. done.
  - eapply step_holds_slot; [by apply reachable_not_END|done|done].
Qed.

Lemma session_in_backup_holds_slot_witness :
  reachable w_flush_failed /\
  current_backup_stage w_flush_failed <> BACKUP_FINISHED /\
  backup_running w_flush_failed = true.
Proof.
  split; [exact reachable_w_flush_failed|]. split; [discriminate|].
  apply (session_in_backup_holds_slot w_flush_failed
           reachable_w_flush_failed). discriminate.
Defined.

(** ** Two sessions *)

(** While nothing else runs the wait loop leaves [backup_running] as it
    is. *)
Lemma wait_for_backup_sees_current ws : forall k w k' w',
  Forall (fun wk => seen_running wk = backup_running w) ws ->
  wait_for_backup k ws w = Returns k' w' ->
  backup_running w' = backup_running w.
Proof.
  induction ws as [|wk ws IH]; intros k w k' w' Hall H;
    cbn [wait_for_backup] in H;
    destruct (backup_running w && negb k) eqn:Hc.
  - unfold bind, emit in H; cbn in H. done.
  - by injection H as <- <-.
  - unfold bind, emit, observe_running in H; cbn in H.
    apply Forall_cons in Hall as [Hwk Hall].
    apply IH in H; cbn in *; [congruence|].
    eapply Forall_impl; [exact Hall|]. cbn. intros x ->. done.
  - by injection H as <- <-.
Qed.

(** A START that finds the slot taken, with no other session running in
    between, can only fail. *)
Lemma stage_step_START_waiting e w r w' :
  sees_current_slot e w -> backup_running w = true ->
  stage_step e BACKUP_START w = Returns r w' ->
  r = true /\ current_backup_stage w' = BACKUP_FINISHED /\
  backup_running w' = true.
Proof.
  intros Hsee Hrun.
  unfold stage_step, run_stage_handler, backup_start,
    has_read_only_protection.
  destruct (read_only_protection e) eqn:Hro.
  { unfold_monad; cbn. intros H. by injection H as <- <-. }
  destruct (locked_tables_mode e) eqn:Hlt.
  { unfold_monad; cbn. intros H. by injection H as <- <-. }
  unfold_monad; cbn.
  match goal with |- context [wait_for_backup ?k ?ws ?w1] =>
    pose proof (wait_for_backup_spec ws k w1) as Hspec;
    pose proof (wait_for_backup_sees_current ws k w1) as Hcur;
    destruct (wait_for_backup k ws w1) as [k' w1'| | |]
  end; try done.
  specialize (Hcur _ _ Hsee eq_refl). cbn in Hcur.
  destruct Hspec as (n' & b' & -> & Hb' & _). cbn in *.
  rewrite Hrun in Hcur. subst b'. destruct k'; [|done]. cbn.
  intros H. by injection H as <- <-.
Qed.

(** The plan of a START request is run as one stage. *)
Lemma ran_START_alone e stage w ss r w1 :
  current_backup_stage w = BACKUP_FINISHED ->
  admissible (current_backup_stage w) stage = true ->
  ss `prefix_of` stage_sequence (current_backup_stage w) stage ->
  ran e (record [DBUG_ENTER "run_backup_stage"] w) ss r w1 ->
  stage = BACKUP_START /\
  stage_step e BACKUP_START (record [DBUG_ENTER "run_backup_stage"] w) =
  Returns r w1.
Proof.
  intros Hc Ha Hp Hran. rewrite Hc in Hp, Ha.
  destruct stage; try done. split; [done|].
  assert (ss = [BACKUP_START]) as ->.
  { apply ran_nonempty in Hran. destruct Hp as [k Hk]. cbn in Hk.
    destruct ss as [|s [|s' ss]]; try done. by injection Hk as <-. }
  inversion Hran as [s w0 r0 w0' Hstep|s ss0 w0 w2 r0 w0' Hstep Hran'];
    subst; [done|inversion Hran'].
Qed.

Lemma stage_step_owns_or_free e s w r w' :
  stage_step e s w = Returns r w' ->
  enters_from (current_backup_stage w) s ->
  owns_or_free w -> owns_or_free w'.
Proof.
  intros H Hfrom Hw. unfold owns_or_free in *. destruct s; cbn in Hfrom.
  - pose proof (stage_step_START e w) as Hs. rewrite H in Hs.
    destruct Hs as (n & b & -> & H1 & _ & H3). cbn.
    destruct Hw as [[? _]|[_ Hrun]]; [done|].
    destruct r.
    + right. split; [done|]. by apply H3.
    + left. split; [done|]. by destruct (H1 eq_refl).
  - exec_step H e w; cbn in *; left; (split; [done|]);
      destruct Hw as [[_ ?]|[? _]]; congruence.
  - exec_step H e w; cbn in *; left; (split; [done|]);
      destruct Hw as [[_ ?]|[? _]]; congruence.
  - exec_step H e w; cbn in *; left; (split; [done|]);
      destruct Hw as [[_ ?]|[? _]]; congruence.
  - exec_step H e w; cbn in *; by right.
  - exec_step H e w; cbn in *; right; (split; [done|]);
      destruct Hw as [[? _]|[_ ?]]; congruence.
Qed.

Lemma ran_owns_or_free e w ss r w' :
  ran e w ss r w' ->
  in_sequence (current_backup_stage w) ss ->
  owns_or_free w -> owns_or_free w'.
Proof.
  induction 1 as [s w r w' H|s ss w w1 r w' H Hran IH]; cbn.
  - intros [Hf _]. by eapply stage_step_owns_or_free.
  - intros [Hf Hs] Hi. apply IH.
    + destruct (stage_step_returns _ _ _ _ _ H) as (_ & _ & -> & _). done.
    + by eapply stage_step_owns_or_free.
Qed.

(** A call by the session that holds the slot, or by any session while
    the slot is free, leaves the slot with the session it leaves in a
    backup. *)
Lemma run_call_owns_or_free c e w r w' :
  current_backup_stage w <> BACKUP_END ->
  run_call c e w = Returns r w' ->
  owns_or_free w -> owns_or_free w'.
Proof.
  intros Hw H Hi. destruct c as [stage| | |]; cbn [run_call] in H.
  - apply run_backup_stage_returns in H
      as [(_ & _ & err & -> & _)|(Ha & ss & w1 & Hran & Hr)]; [done|].
    assert (owns_or_free w1).
    { eapply ran_owns_or_free; [done| |done].
      cbn. pose proof (stage_sequence_in_sequence _ _ Hw Ha) as Hs.
      destruct r; [|by destruct Hr as [-> _]].
      destruct Hr as [Hp _]. by eapply in_sequence_prefix. }
    destruct r; destruct Hr as [_ ->]; done.
  - destruct (decide (current_backup_stage w = BACKUP_FINISHED)) as [Hc|Hc].
    + rewrite backup_end_finished in H by done. injection H as <- <-.
      exact Hi.
    + rewrite backup_end_active in H by done. injection H as <- <-.
      by right.
  - unfold backup_set_alter_copy_lock in H.
    unfold_collaborators; unfold_monad; cbn in H.
    destruct (mdl_backup_ticket w); injection H as <- <-; exact Hi.
  - unfold backup_reset_alter_copy_lock in H.
    unfold_collaborators; unfold_monad; cbn in H.
    destruct (mdl_backup_ticket w), (upgrade_ddl_fails e);
      injection H as <- <-; exact Hi.
Qed.

(** A call by a session that is in no backup while the slot is taken
    leaves both as they are. *)
Lemma run_call_waiting c e w r w' :
  current_backup_stage w = BACKUP_FINISHED -> backup_running w = true ->
  sees_current_slot e w ->
  run_call c e w = Returns r w' ->
  current_backup_stage w' = BACKUP_FINISHED /\ backup_running w' = true.
Proof.
  intros Hc Hrun Hsee H. destruct c as [stage| | |]; cbn [run_call] in H.
  - apply run_backup_stage_returns in H
      as [(_ & _ & err & -> & _)|(Ha & ss & w1 & Hran & Hr)]; [done|].
    assert (Hp : ss `prefix_of` stage_sequence (current_backup_stage w) stage)
      by (destruct r; [by destruct Hr|by destruct Hr as [-> _]]).
    destruct (ran_START_alone _ _ _ _ _ _ Hc Ha Hp Hran) as [-> Hstep].
    apply stage_step_START_waiting in Hstep as (-> & ? & ?); [|done..].
    by destruct Hr as [_ ->].
  - rewrite backup_end_finished in H by done. by injection H as <- <-.
  - unfold backup_set_alter_copy_lock in H.
    unfold_collaborators; unfold_monad; cbn in H.
    destruct (mdl_backup_ticket w); by injection H as <- <-.
  - unfold backup_reset_alter_copy_lock in H.
    unfold_collaborators; unfold_monad; cbn in H.
    destruct (mdl_backup_ticket w), (upgrade_ddl_fails e);
      by injection H as <- <-.
Qed.

Lemma run_call_not_END c e w r w' :
  current_backup_stage w <> BACKUP_END ->
  run_call c e w = Returns r w' ->
  current_backup_stage w' <> BACKUP_END.
Proof.
  intros Hw H. eapply step_not_END; [exact Hw|].
  destruct c as [stage| | |]; cbn [run_call] in H.
  - by eapply step_run_backup_stage.
  - by eapply step_backup_end.
  - unfold bind, ret in H.
    destruct (backup_set_alter_copy_lock w) as [[] w1| | |] eqn:Hs; try done.
    injection H as <- <-. by eapply step_set_alter_copy_lock.
  - by eapply step_reset_alter_copy_lock.
Qed.

Lemma system_step_one_backup s s' :
  system_step s s' -> one_backup s -> one_backup s'.
Proof.
  intros [i c e s0 r w' Hsee H] (Hone & Hslot & HA & HB).
  destruct i; cbn in *.
  - pose proof (run_call_not_END c e (view session_A s0) r w' HA H) as HA'.
    destruct (decide (stage_B s0 = BACKUP_FINISHED)) as [HfB|HfB].
    + assert (Ho : owns_or_free (view session_A s0)).
      { unfold owns_or_free; cbn.
        destruct (decide (stage_A s0 = BACKUP_FINISHED)) as [HfA|HfA].
        - right. split; [done|]. destruct (slot_running s0); [|done].
          destruct Hslot as [Hs _]. by destruct (Hs eq_refl).
        - left. split; [done|]. apply Hslot. by left. }
      apply (run_call_owns_or_free c e (view session_A s0) r w' HA H) in Ho.
      unfold one_backup; cbn. split_and!; try done; [by right|].
      destruct Ho as [[? ->]|[-> ->]]; split; try done;
        [by left|intros [?|?]; done].
    + assert (HfA : stage_A s0 = BACKUP_FINISHED) by by destruct Hone.
      assert (Hrun : slot_running s0 = true) by (apply Hslot; by right).
      destruct (run_call_waiting c e (view session_A s0) r w' HfA Hrun Hsee H)
        as [Hc' Hr'].
      unfold one_backup; cbn. rewrite Hc', Hr'.
      split_and!; try done; [by left|]. split; [by right|done].
  - pose proof (run_call_not_END c e (view session_B s0) r w' HB H) as HB'.
    destruct (decide (stage_A s0 = BACKUP_FINISHED)) as [HfA|HfA].
    + assert (Ho : owns_or_free (view session_B s0)).
      { unfold owns_or_free; cbn.
        destruct (decide (stage_B s0 = BACKUP_FINISHED)) as [HfB|HfB].
        - right. split; [done|]. destruct (slot_running s0); [|done].
          destruct Hslot as [Hs _]. by destruct (Hs eq_refl).
        - left. split; [done|]. apply Hslot. by right. }
      apply (run_call_owns_or_free c e (view session_B s0) r w' HB H) in Ho.
      unfold one_backup; cbn. split_and!; try done; [by left|].
      destruct Ho as [[? ->]|[-> ->]]; split; try done;
        [by right|intros [?|?]; done].
    + assert (HfB : stage_B s0 = BACKUP_FINISHED) by by destruct Hone.
      assert (Hrun : slot_running s0 = true) by (apply Hslot; by left).
      destruct (run_call_waiting c e (view session_B s0) r w' HfB Hrun Hsee H)
        as [Hc' Hr'].
      unfold one_backup; cbn. rewrite Hc', Hr'.
      split_and!; try done; [by right|]. split; [by left|done].
Qed.

(** X4.  For two sessions that share [backup_running] and make their
    calls one at a time, in every reachable state at most one of them is
    in a backup (at a stage other than BACKUP_FINISHED),
    [backup_running] is true exactly when one is, and neither session
    rests at BACKUP_END. *)
Theorem one_backup_at_a_time s :
  system_reachable s ->
  (stage_A s = BACKUP_FINISHED \/ stage_B s = BACKUP_FINISHED) /\
  (slot_running s = true <->
   stage_A s <> BACKUP_FINISHED \/ stage_B s <> BACKUP_FINISHED) /\
  stage_A s <> BACKUP_END /\ stage_B s <> BACKUP_END.
Proof.
  intros Hr.
  induction Hr as [s (HA & HB & Hs & _)|s s' _ IH Hstep].
  - rewrite HA, HB, Hs.
    split_and!; try done; [by left|]. split; [done|]. by intros [?|?].
  - by eapply system_step_one_backup.
Qed.

Lemma system_A_flushed_reachable : system_reachable system_A_flushed.
Proof.
  eapply system_reachable_step.
  - eapply system_reachable_step.
    + apply (system_reachable_initial system0). by split_and!.
    + apply (system_call session_A (call_run_backup_stage BACKUP_START)
               env0 system0 false); [by constructor|].
      vm_compute; reflexivity.
  - apply (system_call session_A (call_run_backup_stage BACKUP_FLUSH) env0
             _ false); [by constructor|].
    vm_compute; reflexivity.
Qed.

Lemma one_backup_at_a_time_witness :
  system_reachable system_A_flushed /\
  stage_A system_A_flushed = BACKUP_FLUSH /\
  stage_B system_A_flushed = BACKUP_FINISHED /\
  slot_running system_A_flushed = true /\
  (slot_running system_A_flushed = true <->
   stage_A system_A_flushed <> BACKUP_FINISHED \/
   stage_B system_A_flushed <> BACKUP_FINISHED) /\
  stage_A system_A_flushed <> BACKUP_END /\
  stage_B system_A_flushed <> BACKUP_END.
Proof.
  split; [exact system_A_flushed_reachable|].
  split; [reflexivity|]. split; [reflexivity|]. split; [reflexivity|].
  exact (proj2 (one_backup_at_a_time system_A_flushed
                  system_A_flushed_reachable)).
Defined.

(** ** Waiting for the slot *)

Lemma waited_cond_wait n b b' w :
  waited n b (waited 1 b' w) = waited (S n) b w.
Proof. unfold waited; cbn. by rewrite <- app_assoc. Qed.

(** The loop sleeps through the busy wake-ups and leaves at the first
    that is not. *)
Lemma wait_for_backup_first_free pre : forall k w wk post,
  backup_running w && negb k = true ->
  Forall (fun x => busy x = true) pre ->
  busy wk = false ->
  wait_for_backup k (pre ++ wk :: post) w =
  Returns (seen_killed wk) (waited (S (length pre)) (seen_running wk) w).
Proof.
  induction pre as [|p pre IH]; intros k w wk post Hc Hpre Hwk;
    cbn [app wait_for_backup]; rewrite Hc.
  - unfold bind, emit, observe_running; cbn.
    destruct post; cbn [wait_for_backup]; cbn; fold (busy wk);
      by rewrite Hwk.
  - apply Forall_cons in Hpre as [Hp Hpre].
    unfold bind, emit, observe_running; cbn.
    rewrite IH by done. cbn [length]. f_equal.
    unfold waited; cbn. by rewrite <- app_assoc.
Qed.

(** With busy wake-ups only the loop never returns. *)
Lemma wait_for_backup_all_busy ws : forall k w,
  backup_running w && negb k = true ->
  Forall (fun x => busy x = true) ws ->
  wait_for_backup k ws w = Blocks (waited (S (length ws)) true w).
Proof.
  induction ws as [|p ws IH]; intros k w Hc Hws;
    cbn [wait_for_backup]; rewrite Hc.
  - unfold bind, emit, waited; cbn.
    apply andb_true_iff in Hc as [-> _]. done.
  - apply Forall_cons in Hws as [Hp Hws].
    unfold bind, emit, observe_running; cbn.
    rewrite IH by done. cbn [length]. f_equal.
    unfold waited; cbn. by rewrite <- app_assoc.
Qed.

Lemma stage_sequence_from_finished stage :
  stage_sequence BACKUP_FINISHED stage = [BACKUP_START].
Proof. done. Qed.

(** backup_start on a free slot, in closed form. *)
Lemma backup_start_free e w :
  backup_running w = false ->
  read_only_protection e = false -> locked_tables_mode e = false ->
  killed e = false -> killed_late e = false ->
  backup_start e w =
  Returns false
    (World BACKUP_START (mdl_backup_ticket w) true (backup_flush_ticket w)
       (mdl_tickets w)
       (trace w ++
        [DBUG_ENTER "backup_start"; store_stage BACKUP_FINISHED;
         store_stage BACKUP_START; mutex_lock; enter_cond;
         store_running true; exit_cond; ha_prepare_for_backup_call])).
Proof.
  intros Hrun Hro Hlt Hk Hlate.
  unfold backup_start, has_read_only_protection.
  rewrite Hro, Hlt, Hk. unfold_monad; cbn.
  destruct (wakeups e); cbn [wait_for_backup]; cbn; rewrite Hrun; cbn;
    rewrite Hlate; cbn; by normalize_trace.
Qed.

(** X5.  A START on a free slot takes it at once: when the session is in
    no backup, [backup_running] is false and the session is neither
    read-only protected, nor under LOCK TABLES, nor killed, the request
    succeeds without a call of mysql_cond_wait, whatever would wake it
    up, sets [backup_running], calls ha_prepare_for_backup and leaves the
    stage at BACKUP_START. *)
Theorem start_takes_free_slot e w :
  current_backup_stage w = BACKUP_FINISHED ->
  backup_running w = false ->
  read_only_protection e = false -> locked_tables_mode e = false ->
  killed e = false -> killed_late e = false ->
  run_backup_stage e BACKUP_START w =
  Returns false
    (World BACKUP_START (mdl_backup_ticket w) true (backup_flush_ticket w)
       (mdl_tickets w)
       (trace w ++
        [DBUG_ENTER "run_backup_stage"; store_stage BACKUP_START;
         DBUG_ENTER "backup_start"; store_stage BACKUP_FINISHED;
         store_stage BACKUP_START; mutex_lock; enter_cond;
         store_running true; exit_cond; ha_prepare_for_backup_call])).
Proof.
  intros Hc Hrun Hro Hlt Hk Hlate.
  rewrite run_backup_stage_admissible by by rewrite Hc.
  rewrite Hc, stage_sequence_from_finished. cbn [run_plan].
  unfold run_stage_handler, bind at 1 2 3, set_stage.
  rewrite backup_start_free by done. cbn. unfold_monad.
  by normalize_trace.
Qed.

Lemma start_takes_free_slot_witness :
  run_backup_stage env_third_wakeup BACKUP_START world0 =
  Returns false
    (World BACKUP_START None true None ∅
       [DBUG_ENTER "run_backup_stage"; store_stage BACKUP_START;
        DBUG_ENTER "backup_start"; store_stage BACKUP_FINISHED;
        store_stage BACKUP_START; mutex_lock; enter_cond;
        store_running true; exit_cond; ha_prepare_for_backup_call]).
Proof.
  exact (start_takes_free_slot env_third_wakeup world0 eq_refl eq_refl
           eq_refl eq_refl eq_refl eq_refl).
Defined.

(** X6.  A START on a taken slot sleeps through every wake-up that still
    finds [backup_running] set and the session alive, and is decided by
    the first that does not: found free, the request succeeds and takes
    the slot; found killed, it signals the condition, fails with
    ER_BACKUP_STAGE_FAILED and leaves the session at BACKUP_FINISHED and
    the flag as it saw it.  mysql_cond_wait is called once per wake-up up
    to that one. *)
Theorem start_decided_by_first_free_wakeup e w pre wk post :
  current_backup_stage w = BACKUP_FINISHED ->
  backup_running w = true ->
  read_only_protection e = false -> locked_tables_mode e = false ->
  killed e = false -> killed_late e = false ->
  wakeups e = pre ++ wk :: post ->
  Forall (fun x => busy x = true) pre ->
  busy wk = false ->
  run_backup_stage e BACKUP_START w =
  Returns (seen_killed wk)
    (World (if seen_killed wk then BACKUP_FINISHED else BACKUP_START)
       (mdl_backup_ticket w)
       (if seen_killed wk then seen_running wk else true)
       (backup_flush_ticket w) (mdl_tickets w)
       (trace w ++
        [DBUG_ENTER "run_backup_stage"; store_stage BACKUP_START;
         DBUG_ENTER "backup_start"; store_stage BACKUP_FINISHED;
         store_stage BACKUP_START; mutex_lock; enter_cond] ++
        replicate (S (length pre)) cond_wait ++
        if seen_killed wk then
          [cond_signal; exit_cond; store_stage BACKUP_FINISHED;
           my_error (ER_BACKUP_STAGE_FAILED (Some "START"))]
        else [store_running true; exit_cond; ha_prepare_for_backup_call])).
Proof.
  intros Hc Hrun Hro Hlt Hk Hlate Hws Hpre Hwk.
  rewrite run_backup_stage_admissible by by rewrite Hc.
  rewrite Hc, stage_sequence_from_finished. cbn [run_plan].
  unfold run_stage_handler, backup_start, has_read_only_protection.
  rewrite Hro, Hlt, Hk, Hws. unfold_monad; cbn -[wait_for_backup replicate].
  rewrite wait_for_backup_first_free by (cbn; by rewrite ?Hrun).
  unfold waited; cbn -[replicate]. rewrite Hlate.
  destruct (seen_killed wk); cbn -[replicate];
    rewrite <- ?app_assoc; cbn -[replicate]; reflexivity.
Qed.

Lemma start_decided_by_first_free_wakeup_witness :
  run_backup_stage env_third_wakeup BACKUP_START w_other_running =
  Returns false
    (World BACKUP_START None true None ∅
       ([DBUG_ENTER "run_backup_stage"; store_stage BACKUP_START;
         DBUG_ENTER "backup_start"; store_stage BACKUP_FINISHED;
         store_stage BACKUP_START; mutex_lock; enter_cond] ++
        replicate 3 cond_wait ++
        [store_running true; exit_cond; ha_prepare_for_backup_call])).
Proof.
  apply (start_decided_by_first_free_wakeup env_third_wakeup w_other_running
           [Wakeup true false; Wakeup true false] (Wakeup false false)
           [Wakeup true false]); try reflexivity.
  repeat constructor.
Defined.

(** X7.  While every wake-up finds the slot taken and the session alive,
    a START request does not return: the session stays in
    mysql_cond_wait at stage BACKUP_START, having called it once more
    than it was woken up, and has stored nothing to [backup_running]. *)
Theorem start_waits_while_busy e w :
  current_backup_stage w = BACKUP_FINISHED ->
  backup_running w = true ->
  read_only_protection e = false -> locked_tables_mode e = false ->
  killed e = false ->
  Forall (fun x => busy x = true) (wakeups e) ->
  run_backup_stage e BACKUP_START w =
  Blocks
    (World BACKUP_START (mdl_backup_ticket w) true (backup_flush_ticket w)
       (mdl_tickets w)
       (trace w ++
        [DBUG_ENTER "run_backup_stage"; store_stage BACKUP_START;
         DBUG_ENTER "backup_start"; store_stage BACKUP_FINISHED;
         store_stage BACKUP_START; mutex_lock; enter_cond] ++
        replicate (S (length (wakeups e))) cond_wait)).
Proof.
  intros Hc Hrun Hro Hlt Hk Hws.
  rewrite run_backup_stage_admissible by by rewrite Hc.
  rewrite Hc, stage_sequence_from_finished. cbn [run_plan].
  unfold run_stage_handler, backup_start, has_read_only_protection.
  rewrite Hro, Hlt, Hk. unfold_monad; cbn -[wait_for_backup replicate].
  rewrite wait_for_backup_all_busy by (cbn; by rewrite ?Hrun).
  unfold waited; cbn -[replicate].
  rewrite <- ?app_assoc; cbn -[replicate]; reflexivity.
Qed.

Lemma start_waits_while_busy_witness :
  run_backup_stage env_never_free BACKUP_START w_other_running =
  Blocks
    (World BACKUP_START None true None ∅
       ([DBUG_ENTER "run_backup_stage"; store_stage BACKUP_START;
         DBUG_ENTER "backup_start"; store_stage BACKUP_FINISHED;
         store_stage BACKUP_START; mutex_lock; enter_cond] ++
        replicate 3 cond_wait)).
Proof.
  apply (start_waits_while_busy env_never_free w_other_running);
    try reflexivity.
  repeat constructor.
Defined.

(** ** The lock ladder *)

(** X8.  backup_flush either fails, changing nothing and not calling
    purge_tables, or is granted a lock that was not held before, in mode
    MDL_BACKUP_FLUSH, stores it as the flush ticket and then calls
    purge_tables; the locks granted before keep their mode. *)
Theorem backup_flush_grants_new_lock e w :
  exists w',
    backup_flush e w = Returns (acquire_flush_fails e) w' /\
    current_backup_stage w' = current_backup_stage w /\
    backup_running w' = backup_running w /\
    (forall t, is_Some (mdl_tickets w !! t) ->
               mdl_tickets w' !! t = mdl_tickets w !! t) /\
    if acquire_flush_fails e then
      observable w' = observable w /\
      events_since w w' =
      [DBUG_ENTER "backup_flush";
       mdl_acquire MDL_BACKUP_FLUSH (lock_wait_timeout e) None]
    else
      exists t,
        mdl_tickets w !! t = None /\
        backup_flush_ticket w' = Some t /\
        mdl_tickets w' = <[t := MDL_BACKUP_FLUSH]> (mdl_tickets w) /\
        events_since w w' =
        [DBUG_ENTER "backup_flush";
         mdl_acquire MDL_BACKUP_FLUSH (lock_wait_timeout e) (Some t);
         store_flush_ticket (Some t); purge_tables_call].
Proof.
  unfold backup_flush; unfold_collaborators; unfold_monad; cbn.
  destruct (acquire_flush_fails e); cbn; eexists; (split; [done|]); cbn.
  - split_and!; try done.
    erewrite events_since_trace by (cbn; normalize_trace; reflexivity). done.
  - pose proof (is_fresh (dom (mdl_tickets w))) as Hf.
    apply not_elem_of_dom in Hf.
    split_and!; try done.
    + intros t [m Hm]. apply lookup_insert_ne. intros <-. congruence.
    + eexists. split_and!; try done.
      erewrite events_since_trace by (cbn; normalize_trace; reflexivity).
      done.
Qed.

Lemma upgrade_other_ticket (t t' : positive) m
    (tks : gmap positive enum_mdl_type) :
  t' <> t -> alter (fun _ => m) t tks !! t' = tks !! t'.
Proof. intros H. by apply lookup_alter_ne. Qed.

(** X9.  backup_block_ddl, run on a held flush ticket: it fails when the
    upgrade to MDL_BACKUP_WAIT_FLUSH fails, when the table flush fails
    with an error raised in the session, or when the table flush succeeds
    and the upgrade to MDL_BACKUP_WAIT_DDL fails.  The ticket ends in
    MDL_BACKUP_WAIT_DDL only when both upgrades were granted and the table flush
    did not fail; after a failed table flush it is left in
    MDL_BACKUP_WAIT_FLUSH whatever the result.  No other lock and nothing
    of the session is changed, and nothing is released. *)
Theorem backup_block_ddl_ladder e w t m :
  backup_flush_ticket w = Some t ->
  mdl_tickets w !! t = Some m ->
  exists w',
    backup_block_ddl e w = Returns (block_ddl_result e) w' /\
    mdl_tickets w' !! t = Some (block_ddl_mode e m) /\
    (forall t', t' <> t -> mdl_tickets w' !! t' = mdl_tickets w !! t') /\
    session_state w' = session_state w /\
    upgrades (events_since w w') = block_ddl_upgrades e (Some t) /\
    table_flushes (events_since w w') =
    (if upgrade_wait_flush_fails e then []
     else [(FLUSH_NON_TRANS_TABLES, flush_non_trans_fails e)]) /\
    released (events_since w w') = [].
Proof.
  intros Ht Hm. destruct w as [cur alt run ft tks tr]; cbn in Ht, Hm.
  subst ft.
  unfold backup_block_ddl, block_ddl_result, block_ddl_mode,
    block_ddl_upgrades.
  unfold_collaborators; unfold_monad; cbn -[events_since].
  destruct (upgrade_wait_flush_fails e); cbn -[events_since].
  { eexists. split; [done|].
    erewrite events_since_trace by (cbn; normalize_trace; reflexivity).
    by split_and!. }
  destruct (flush_non_trans_fails e); cbn -[events_since].
  { eexists. split; [done|].
    erewrite events_since_trace by (cbn; normalize_trace; reflexivity).
    cbn. split_and!; try done.
    - by rewrite lookup_alter_eq, Hm.
    - intros t' Hne. by apply lookup_alter_ne. }
  destruct (upgrade_wait_ddl_fails e); cbn -[events_since].
  { eexists. split; [done|].
    erewrite events_since_trace by (cbn; normalize_trace; reflexivity).
    cbn. split_and!; try done.
    - by rewrite lookup_alter_eq, Hm.
    - intros t' Hne. by apply lookup_alter_ne. }
  eexists. split; [done|].
  erewrite events_since_trace by (cbn; normalize_trace; reflexivity).
  cbn. split_and!; try done.
  - by rewrite !lookup_alter_eq, Hm.
  - intros t' Hne. by rewrite !lookup_alter_ne.
Qed.

Lemma backup_block_ddl_ladder_witness :
  backup_flush_ticket w_flushed = Some 1%positive /\
  mdl_tickets w_flushed !! 1%positive = Some MDL_BACKUP_FLUSH /\
  exists w',
    backup_block_ddl env0 w_flushed = Returns (block_ddl_result env0) w' /\
    mdl_tickets w' !! 1%positive =
    Some (block_ddl_mode env0 MDL_BACKUP_FLUSH) /\
    block_ddl_mode env0 MDL_BACKUP_FLUSH = MDL_BACKUP_WAIT_DDL.
Proof.
  split; [reflexivity|]. split; [reflexivity|].
  destruct (backup_block_ddl_ladder env0 w_flushed 1%positive
              MDL_BACKUP_FLUSH eq_refl eq_refl) as (w' & H1 & H2 & _).
  exists w'. split; [exact H1|]. split; [exact H2|reflexivity].
Defined.

(** X10.  backup_block_commit, run on a held flush ticket, returns the
    outcome of the upgrade to MDL_BACKUP_WAIT_COMMIT alone: when the
    upgrade is granted the ticket is in that mode and the system tables
    are flushed once, the outcome of that flush being ignored; when it is
    not, the ticket keeps its mode and no table is flushed.  No other
    lock and nothing of the session is changed. *)
Theorem backup_block_commit_ladder e w t m :
  backup_flush_ticket w = Some t ->
  mdl_tickets w !! t = Some m ->
  exists w',
    backup_block_commit e w = Returns (upgrade_wait_commit_fails e) w' /\
    mdl_tickets w' !! t =
    Some (if upgrade_wait_commit_fails e then m
          else MDL_BACKUP_WAIT_COMMIT) /\
    (forall t', t' <> t -> mdl_tickets w' !! t' = mdl_tickets w !! t') /\
    session_state w' = session_state w /\
    upgrades (events_since w w') =
    [(Some t, MDL_BACKUP_WAIT_COMMIT, upgrade_wait_commit_fails e)] /\
    table_flushes (events_since w w') =
    (if upgrade_wait_commit_fails e then []
     else [(FLUSH_SYS_TABLES, flush_sys_fails e)]) /\
    released (events_since w w') = [].
Proof.
  intros Ht Hm. destruct w as [cur alt run ft tks tr]; cbn in Ht, Hm.
  subst ft. unfold backup_block_commit.
  unfold_collaborators; unfold_monad; cbn -[events_since].
  destruct (upgrade_wait_commit_fails e); cbn -[events_since].
  { eexists. split; [done|].
    erewrite events_since_trace by (cbn; normalize_trace; reflexivity).
    by split_and!. }
  eexists. split; [done|].
  erewrite events_since_trace by (cbn; normalize_trace; reflexivity).
  cbn. split_and!; try done.
  - by rewrite lookup_alter_eq, Hm.
  - intros t' Hne. by apply lookup_alter_ne.
Qed.

Lemma backup_block_commit_ladder_witness :
  backup_flush_ticket w_flushed = Some 1%positive /\
  mdl_tickets w_flushed !! 1%positive = Some MDL_BACKUP_FLUSH /\
  exists w',
    backup_block_commit env0 w_flushed = Returns false w' /\
    mdl_tickets w' !! 1%positive = Some MDL_BACKUP_WAIT_COMMIT.
Proof.
  split; [reflexivity|]. split; [reflexivity|].
  destruct (backup_block_commit_ladder env0 w_flushed 1%positive
              MDL_BACKUP_FLUSH eq_refl eq_refl) as (w' & H1 & H2 & _).
  exists w'. split; [exact H1|exact H2].
Defined.

(** ** The alter-copy lock and the rest of the state *)

(** X11.  The two alter-copy functions always return and touch nothing
    but the mode of the session's own backup ticket: the stage, the two
    globals and every other lock are as before, nothing is acquired or
    released, and when the session's ticket names no granted lock the
    lock table is not changed at all. *)
Theorem alter_copy_lock_frame e w :
  exists w1 r w2,
    backup_set_alter_copy_lock w = Returns tt w1 /\
    backup_reset_alter_copy_lock e w = Returns r w2 /\
    session_state w1 = session_state w /\
    session_state w2 = session_state w /\
    (forall t, mdl_backup_ticket w <> Some t ->
               mdl_tickets w1 !! t = mdl_tickets w !! t /\
               mdl_tickets w2 !! t = mdl_tickets w !! t) /\
    (forall t, mdl_backup_ticket w = Some t -> mdl_tickets w !! t = None ->
               mdl_tickets w1 = mdl_tickets w /\
               mdl_tickets w2 = mdl_tickets w) /\
    released (events_since w w1) = [] /\
    released (events_since w w2) = [] /\
    acquires (events_since w w1) = [] /\
    acquires (events_since w w2) = [].
Proof.
  destruct w as [cur alt run ft tks tr].
  unfold backup_set_alter_copy_lock, backup_reset_alter_copy_lock.
  unfold_collaborators; unfold_monad; cbn -[events_since].
  destruct alt as [t0|]; cbn -[events_since].
  - destruct (upgrade_ddl_fails e); cbn -[events_since]; eexists _, _, _;
      (split; [done|]); (split; [done|]);
      rewrite ?events_since_refl;
      repeat (erewrite events_since_trace by (cbn; reflexivity));
      cbn; split_and!; try done.
    + intros t Hne. split; [|done]. apply lookup_alter_ne. congruence.
    + intros t [= ->] Hn. split; [|done]. apply map_eq. intros i.
      destruct (decide (i = t)) as [->|Hi].
      * by rewrite lookup_alter_eq, Hn.
      * by rewrite lookup_alter_ne.
    + intros t Hne.
      split; apply lookup_alter_ne; congruence.
    + intros t [= ->] Hn.
      split; apply map_eq; intros i;
        (destruct (decide (i = t)) as [->|Hi];
         [by rewrite lookup_alter_eq, Hn|by rewrite lookup_alter_ne]).
  - eexists _, _, _. split; [done|]. split; [done|].
    rewrite !events_since_refl. by split_and!.
Qed.

(** ** A complete backup *)

Lemma run_backup_stage_single e stage w :
  admissible (current_backup_stage w) stage = true ->
  stage_sequence (current_backup_stage w) stage = [stage] ->
  run_backup_stage e stage w =
  run_plan e stage [stage] (record [DBUG_ENTER "run_backup_stage"] w).
Proof. intros Ha Hs. by rewrite run_backup_stage_admissible, Hs. Qed.

(** X12.  A complete backup with nothing failing, requested stage by
    stage, takes the flush lock through the modes MDL_BACKUP_FLUSH,
    MDL_BACKUP_WAIT_DDL and MDL_BACKUP_WAIT_COMMIT and gives everything
    back: after END the stage, [backup_running], the flush ticket and the
    whole lock table are what they were before START. *)
Theorem complete_backup_round_trip e w :
  current_backup_stage w = BACKUP_FINISHED ->
  backup_running w = false ->
  backup_flush_ticket w = None ->
  nothing_fails e ->
  exists t w1 w2 w3 w4 w5,
    mdl_tickets w !! t = None /\
    run_backup_stage e BACKUP_START w = Returns false w1 /\
    run_backup_stage e BACKUP_FLUSH w1 = Returns false w2 /\
    backup_flush_ticket w2 = Some t /\
    mdl_tickets w2 !! t = Some MDL_BACKUP_FLUSH /\
    run_backup_stage e BACKUP_WAIT_FOR_FLUSH w2 = Returns false w3 /\
    mdl_tickets w3 !! t = Some MDL_BACKUP_WAIT_DDL /\
    run_backup_stage e BACKUP_LOCK_COMMIT w3 = Returns false w4 /\
    mdl_tickets w4 !! t = Some MDL_BACKUP_WAIT_COMMIT /\
    run_backup_stage e BACKUP_END w4 = Returns false w5 /\
    observable w5 = observable w.
Proof.
  intros Hc Hrun Hft (Hro & Hlt & Hk & Hlate & Hacq & Hu1 & Hfl & Hu2 & Hu3).
  destruct w as [cur alt run ft tks tr]; cbn in Hc, Hrun, Hft; subst.
  pose proof (is_fresh (dom tks)) as Hfresh.
  apply not_elem_of_dom in Hfresh.
  exists (fresh (dom tks)). eexists _, _, _, _, _.
  split; [exact Hfresh|].
  split.
  { rewrite run_backup_stage_admissible by done.
    cbn [current_backup_stage].
    rewrite stage_sequence_from_finished. cbn [run_plan].
    unfold run_stage_handler, bind at 1 2 3, set_stage.
    rewrite backup_start_free by done. cbn. unfold_monad.
    normalize_trace. reflexivity. }
  cbn [mdl_backup_ticket backup_flush_ticket mdl_tickets trace].
  split.
  { rewrite run_backup_stage_single by done.
    cbn [run_plan]. unfold run_stage_handler, backup_flush.
    unfold_collaborators; unfold_monad; cbn. rewrite Hacq; cbn.
    reflexivity. }
  split; [reflexivity|]. split; [cbn; by rewrite lookup_insert_eq|].
  split.
  { rewrite run_backup_stage_single by done.
    cbn [run_plan]. unfold run_stage_handler, backup_block_ddl.
    unfold_collaborators; unfold_monad; cbn. rewrite Hu1; cbn.
    rewrite Hfl; cbn. rewrite Hu2; cbn. reflexivity. }
  split; [cbn; by rewrite !lookup_alter_eq, lookup_insert_eq|].
  split.
  { rewrite run_backup_stage_single by done.
    cbn [run_plan]. unfold run_stage_handler, backup_block_commit.
    unfold_collaborators; unfold_monad; cbn. rewrite Hu3; cbn.
    reflexivity. }
  split; [cbn; by rewrite !lookup_alter_eq, lookup_insert_eq|].
  split; [by apply run_backup_stage_END|].
  unfold observable; cbn. f_equal. apply map_eq. intros i.
  destruct (decide (i = fresh (dom tks))) as [->|Hi].
  - by rewrite lookup_delete_eq.
  - by rewrite lookup_delete_ne, !lookup_alter_ne, lookup_insert_ne.
Qed.

Lemma complete_backup_round_trip_witness :
  nothing_fails env0 /\
  exists t w1 w2 w3 w4 w5,
    mdl_tickets world0 !! t = None /\
    run_backup_stage env0 BACKUP_START world0 = Returns false w1 /\
    run_backup_stage env0 BACKUP_FLUSH w1 = Returns false w2 /\
    backup_flush_ticket w2 = Some t /\
    mdl_tickets w2 !! t = Some MDL_BACKUP_FLUSH /\
    run_backup_stage env0 BACKUP_WAIT_FOR_FLUSH w2 = Returns false w3 /\
    mdl_tickets w3 !! t = Some MDL_BACKUP_WAIT_DDL /\
    run_backup_stage env0 BACKUP_LOCK_COMMIT w3 = Returns false w4 /\
    mdl_tickets w4 !! t = Some MDL_BACKUP_WAIT_COMMIT /\
    run_backup_stage env0 BACKUP_END w4 = Returns false w5 /\
    observable w5 = observable world0.
Proof.
  assert (H : nothing_fails env0) by (by repeat split).
  split; [exact H|].
  exact (complete_backup_round_trip env0 world0 eq_refl eq_refl eq_refl H).
Defined.

(** X13.  On a session that is in a backup, backup_end called directly
    (as on session teardown) and a request for END leave the same stage,
    globals and lock table, and both return success. *)
Theorem backup_end_is_end_request e w :
  reachable w ->
  current_backup_stage w <> BACKUP_FINISHED ->
  exists w1 w2,
    run_backup_stage e BACKUP_END w = Returns false w1 /\
    backup_end w = Returns false w2 /\
    observable w1 = observable w2 /\
    events_since w w1 =
    DBUG_ENTER "run_backup_stage" :: store_stage BACKUP_END ::
    events_since w w2.
Proof.
  intros Hr Hc. apply reachable_not_END in Hr.
  eexists _, _. split; [by apply run_backup_stage_END|].
  split; [by apply backup_end_active|]. split; [done|].
  erewrite !events_since_trace by (cbn; reflexivity). done.
Qed.

Lemma backup_end_is_end_request_witness :
  reachable w_flushed /\
  current_backup_stage w_flushed <> BACKUP_FINISHED /\
  exists w1 w2,
    run_backup_stage env0 BACKUP_END w_flushed = Returns false w1 /\
    backup_end w_flushed = Returns false w2 /\
    observable w1 = observable w2 /\
    events_since w_flushed w1 =
    DBUG_ENTER "run_backup_stage" :: store_stage BACKUP_END ::
    events_since w_flushed w2.
Proof.
  assert (H : current_backup_stage w_flushed <> BACKUP_FINISHED)
    by discriminate.
  split; [exact reachable_w_flushed|]. split; [exact H|].
  exact (backup_end_is_end_request env0 w_flushed reachable_w_flushed H).
Defined.

(** ** Trying again *)

Lemma stage_sequence_elem cur stage f :
  cur <> BACKUP_FINISHED ->
  f ∈ stage_sequence cur stage ->
  f = BACKUP_END \/
  (stage <> BACKUP_END /\ stage_uint cur < stage_uint f <= stage_uint stage).
Proof.
  intros Hc. unfold stage_sequence. repeat case_decide; try done.
  - intros ->%list_elem_of_singleton. by left.
  - intros [Hr _]%list_elem_of_filter. by right.
Qed.

Lemma stage_sequence_split cur mid stage :
  cur <> BACKUP_FINISHED -> stage <> BACKUP_END ->
  stage_uint cur < stage_uint mid < stage_uint stage ->
  mid <> BACKUP_END ->
  stage_sequence cur stage =
  stage_sequence cur mid ++ stage_sequence mid stage.
Proof.
  intros Hc Hs Hlt Hm.
  destruct cur, mid, stage; cbn in Hlt; try lia; try done.
Qed.

(** The functions a returned call entered. *)
Lemma run_backup_stage_entered e stage w r w' :
  admissible (current_backup_stage w) stage = true ->
  run_backup_stage e stage w = Returns r w' ->
  exists ss,
    ss `prefix_of` stage_sequence (current_backup_stage w) stage /\
    ss <> [] /\
    (r = false -> ss = stage_sequence (current_backup_stage w) stage) /\
    entered (events_since w w') =
    "run_backup_stage" :: flat_map handler_name ss.
Proof.
  intros Ha H.
  apply run_backup_stage_returns in H
    as [(Hn & _)|(_ & ss & w1 & Hran & Hr)]; [congruence|].
  destruct (ran_events _ _ _ _ _ Hran) as (d & Hd & _ & _ & He & _).
  cbn in Hd. exists ss.
  split; [destruct r; [by destruct Hr|by destruct Hr as [-> _]]|].
  split; [by eapply ran_nonempty|].
  split; [intros ->; by destruct Hr|].
  destruct r; destruct Hr as [_ ->];
    (erewrite events_since_trace
       by (cbn; rewrite Hd, <- !app_assoc; reflexivity));
    unfold entered in *; cbn; rewrite ?omap_app, He; cbn;
    by rewrite ?app_nil_r.
Qed.

(** X14.  After a request that passed the tests and failed, either START
    failed and the session is back at BACKUP_FINISHED, where a new START
    request that returns has run backup_start again; or the session rests
    at the stage whose handler failed.  Then a request for that stage is
    turned down with ER_BACKUP_WRONG_STAGE and changes nothing, and a
    request for the same target that returns has entered the handlers of
    the stages after the failed one only, in order, all of them when it
    succeeds: the failed handler is not run again. *)
Theorem retry_after_failure e stage w w' :
  admissible (current_backup_stage w) stage = true ->
  run_backup_stage e stage w = Returns true w' ->
  (stage = BACKUP_START /\ current_backup_stage w = BACKUP_FINISHED /\
   current_backup_stage w' = BACKUP_FINISHED /\
   forall e2 r2 w2,
     run_backup_stage e2 BACKUP_START w' = Returns r2 w2 ->
     entered (events_since w' w2) = ["run_backup_stage"; "backup_start"]) \/
  (current_backup_stage w <> BACKUP_FINISHED /\
   current_backup_stage w' <> BACKUP_FINISHED /\
   stage_uint (current_backup_stage w) <
   stage_uint (current_backup_stage w') <= stage_uint stage /\
   (forall e2,
      run_backup_stage e2 (current_backup_stage w') w' =
      Returns true
        (record
           [DBUG_ENTER "run_backup_stage";
            my_error
              (ER_BACKUP_WRONG_STAGE
                 (stage_name_at (stage_uint (current_backup_stage w')))
                 (stage_name_at (stage_uint (current_backup_stage w'))))]
           w')) /\
   (current_backup_stage w' <> stage ->
    stage_sequence (current_backup_stage w) stage =
    stage_sequence (current_backup_stage w) (current_backup_stage w') ++
    stage_sequence (current_backup_stage w') stage /\
    forall e2 r2 w2,
      run_backup_stage e2 stage w' = Returns r2 w2 ->
      exists ss,
        ss `prefix_of` stage_sequence (current_backup_stage w') stage /\
        ss <> [] /\
        (r2 = false ->
         ss = stage_sequence (current_backup_stage w') stage) /\
        (current_backup_stage w' ∉ ss) /\
        entered (events_since w' w2) =
        "run_backup_stage" :: flat_map handler_name ss)).
Proof.
  intros Ha H.
  apply run_backup_stage_returns in H
    as [(Hn & _)|(_ & ss & w1 & Hran & Hp & ->)]; [congruence|].
  destruct (ran_frame _ _ _ _ _ Hran) as (f & d & Hl & _ & Hc & _ & Hf).
  destruct (Hf eq_refl) as [Hf1 Hf2].
  assert (Hin : f ∈ stage_sequence (current_backup_stage w) stage).
  { apply last_Some in Hl as [ok ->]. destruct Hp as [k ->].
    rewrite <- app_assoc. apply elem_of_app. right. by left. }
  cbn [current_backup_stage record]. rewrite Hc.
  destruct (decide (current_backup_stage w = BACKUP_FINISHED)) as [Hw|Hw].
  - left. rewrite Hw in *. destruct stage; try done.
    apply list_elem_of_singleton in Hin as ->.
    split; [done|]. split; [done|]. split; [done|].
    intros e2 r2 w2 H2.
    apply run_backup_stage_entered in H2
      as (ss2 & [k Hk] & Hne & _ & ->); [|by cbn; rewrite Hc].
    cbn [current_backup_stage record] in Hk. rewrite Hc in Hk.
    destruct ss2 as [|s2 [|s3 ss2]]; try done.
    by injection Hk as <-.
  - right. apply (stage_sequence_elem _ _ _ Hw) in Hin as [->|[Hse Hlt]]; [done|].
    assert (f <> BACKUP_START).
    { intros ->. destruct (current_backup_stage w); cbn in Hlt; lia. }
    replace (stage_after f true) with f in * by by destruct f.
    split; [done|]. split; [done|]. split; [done|].
    split.
    { intros e2. rewrite run_backup_stage_wrong_stage; cbn; rewrite ?Hc;
        first [done|lia]. }
    intros Hne.
    assert (stage_uint f < stage_uint stage).
    { destruct f, stage; cbn in *; try done; lia. }
    split; [apply stage_sequence_split; try done; lia|].
    intros e2 r2 w2 H2.
    apply run_backup_stage_entered in H2
      as (ss2 & Hp2 & Hne2 & Hall & He2).
    2:{ cbn. rewrite Hc. unfold admissible. case_decide; [done|].
        apply Z.ltb_lt. lia. }
    cbn [current_backup_stage record] in Hp2, Hall. rewrite Hc in Hp2, Hall.
    exists ss2. split; [done|]. split; [done|]. split; [done|].
    split; [|done].
    intros Hin2. destruct Hp2 as [k Hk].
    assert (Hin3 : f ∈ stage_sequence f stage)
      by (rewrite Hk; apply elem_of_app; by left).
    apply stage_sequence_elem in Hin3 as [->|[_ ?]]; [done| |done]. lia.
Qed.

Lemma retry_after_failure_witness :
  admissible (current_backup_stage w_started) BACKUP_LOCK_COMMIT = true /\
  run_backup_stage env_flush_fails BACKUP_LOCK_COMMIT w_started =
  Returns true w_commit_failed /\
  current_backup_stage w_commit_failed = BACKUP_FLUSH /\
  (forall e2,
     run_backup_stage e2 BACKUP_FLUSH w_commit_failed =
     Returns true
       (record
          [DBUG_ENTER "run_backup_stage";
           my_error (ER_BACKUP_WRONG_STAGE (Some "FLUSH") (Some "FLUSH"))]
          w_commit_failed)) /\
  stage_sequence BACKUP_START BACKUP_LOCK_COMMIT =
  stage_sequence BACKUP_START BACKUP_FLUSH ++
  stage_sequence BACKUP_FLUSH BACKUP_LOCK_COMMIT /\
  (forall e2 r2 w2,
     run_backup_stage e2 BACKUP_LOCK_COMMIT w_commit_failed =
     Returns r2 w2 ->
     exists ss,
       ss `prefix_of` [BACKUP_WAIT_FOR_FLUSH; BACKUP_LOCK_COMMIT] /\
       ss <> [] /\
       (r2 = false -> ss = [BACKUP_WAIT_FOR_FLUSH; BACKUP_LOCK_COMMIT]) /\
       (BACKUP_FLUSH ∉ ss) /\
       entered (events_since w_commit_failed w2) =
       "run_backup_stage" :: flat_map handler_name ss).
Proof.
  assert (H : run_backup_stage env_flush_fails BACKUP_LOCK_COMMIT w_started =
              Returns true w_commit_failed) by (vm_compute; reflexivity).
  assert (Hne : BACKUP_FLUSH <> BACKUP_LOCK_COMMIT) by discriminate.
  split; [reflexivity|]. split; [exact H|]. split; [reflexivity|].
  destruct (retry_after_failure env_flush_fails BACKUP_LOCK_COMMIT w_started
              w_commit_failed eq_refl H)
    as [(Hs & _)|(_ & _ & _ & Hagain & Hrest)]; [discriminate Hs|].
  split; [exact Hagain|]. exact (Hrest Hne).
Defined.

(** ** Termination *)

(** A stage entered from the stage the runner enters it from, by a
    session that holds its ticket where the stages need it, asks for no
    upgrade of a null ticket and leaves such a session on success. *)
Lemma stage_step_null_upgrades e s w r w' :
  stage_step e s w = Returns r w' ->
  enters_from (current_backup_stage w) s ->
  ticket_in_window w ->
  (r = false -> ticket_in_window w') /\
  exists d, trace w' = trace w ++ d /\ null_upgrades d = [].
Proof.
  intros H Hfrom Hq. unfold ticket_in_window, in_flush_window in *.
  destruct s; cbn in Hfrom.
  - pose proof (stage_step_START e w) as Hs. rewrite H in Hs.
    destruct Hs as (n & b & -> & _). split.
    + intros ->. cbn. lia.
    + eexists; split; [done|]. unfold start_events, null_upgrades.
      destruct (read_only_protection e), (locked_tables_mode e), r;
        list_facts.
  - exec_step H e w; normalize_trace;
      (split; [intros; cbn; done|]); by (eexists; split; [done|]).
  - assert (Hn : backup_flush_ticket w <> None)
      by (apply Hq; rewrite Hfrom; cbn; lia).
    exec_step H e w; cbn in Hn; try done; normalize_trace;
      (split; [intros; cbn; done|]); eexists; (split; [done|]);
      try done; by destruct ft.
  - assert (Hn : backup_flush_ticket w <> None)
      by (apply Hq; rewrite Hfrom; cbn; lia).
    exec_step H e w; cbn in Hn; try done; normalize_trace;
      (split; [intros; cbn; done|]); eexists; (split; [done|]);
      try done; by destruct ft.
  - exec_step H e w; normalize_trace;
      (split; [intros _; cbn; lia|]); by (eexists; split; [done|]).
  - exec_step H e w; cbn in Hfrom; subst; normalize_trace;
      (split; [intros _; cbn; lia|]); by (eexists; split; [done|]).
Qed.

Lemma ran_null_upgrades e w ss r w' :
  ran e w ss r w' ->
  in_sequence (current_backup_stage w) ss ->
  ticket_in_window w ->
  exists d, trace w' = trace w ++ d /\ null_upgrades d = [].
Proof.
  induction 1 as [s w r w' H|s ss w w1 r w' H Hran IH]; cbn.
  - intros [Hf _] Hq.
    by destruct (stage_step_null_upgrades _ _ _ _ _ H Hf Hq) as [_ ?].
  - intros [Hf Hs] Hq.
    destruct (stage_step_null_upgrades _ _ _ _ _ H Hf Hq)
      as (Hq1 & d & Hd & Hn).
    destruct IH as (d' & Hd' & Hn').
    + destruct (stage_step_returns _ _ _ _ _ H) as (_ & _ & -> & _). done.
    + by apply Hq1.
    + exists (d ++ d'). split; [by rewrite Hd', Hd, app_assoc|].
      unfold null_upgrades in *. by rewrite omap_app, Hn, Hn'.
Qed.

(** X15.  A request for one of the five named stages, made by a session
    that holds its flush ticket whenever its stage is at or after FLUSH
    and before END, returns without having asked for the upgrade of a
    null ticket, with one exception: a START request from
    BACKUP_FINISHED that found [backup_running] set while the session was
    not killed can stay in mysql_cond_wait, at stage BACKUP_START.  The
    loop of the runner never needs more than its six iterations and never
    reaches a value of the stage without a case in the switch. *)
Theorem only_start_can_wait e stage w :
  stage <> BACKUP_FINISHED ->
  ticket_in_window w ->
  match run_backup_stage e stage w with
  | Returns _ w' =>
      null_upgrades (events_since w w') = [] /\
      failed_asserts (events_since w w') = []
  | Blocks w' =>
      current_backup_stage w = BACKUP_FINISHED /\ stage = BACKUP_START /\
      backup_running w = true /\ killed e = false /\
      read_only_protection e = false /\ locked_tables_mode e = false /\
      current_backup_stage w' = BACKUP_START
  | Undefined | OutOfFuel => False
  end.
Proof.
  intros Hstage Hq.
  pose proof (run_backup_stage_defined e stage w) as Hd.
  destruct (run_backup_stage e stage w) as [r w'|w'| |] eqn:H; try done.
  - apply run_backup_stage_returns in H
      as [(_ & _ & err & -> & _)|(Ha & ss & w1 & Hran & Hr)].
    { by erewrite events_since_trace by (cbn; reflexivity). }
    assert (Hend : current_backup_stage w <> BACKUP_END).
    { intros Hc. rewrite Hc in Ha. by destruct stage. }
    assert (Hp : ss `prefix_of`
                   stage_sequence (current_backup_stage w) stage)
      by (destruct r; [by destruct Hr|by destruct Hr as [-> _]]).
    destruct (ran_null_upgrades _ _ _ _ _ Hran) as (d & Hd1 & Hn).
    { eapply in_sequence_prefix; [done|].
      by apply stage_sequence_in_sequence. }
    { done. }
    destruct (ran_events _ _ _ _ _ Hran) as (d' & Hd2 & Has & _).
    assert (d' = d) as ->
      by (rewrite Hd1 in Hd2; by apply app_inv_head in Hd2).
    assert (Hnone : failed_asserts d = []).
    { rewrite Has. destruct Hp as [k Hk].
      assert (Hall : Forall (fun s => s <> BACKUP_FINISHED)
                       (stage_sequence (current_backup_stage w) stage)).
      { clear -Ha Hstage.
        destruct (current_backup_stage w), stage; try done; cbn;
          repeat (apply List.Forall_cons; [done|]); apply List.Forall_nil. }
      rewrite Hk in Hall. apply Forall_app in Hall as [Hall _].
      clear -Hall. induction Hall as [|s l Hs _ IH]; [done|].
      cbn. rewrite IH. by case_decide. }
    cbn in Hd1.
    destruct r; destruct Hr as [_ ->];
      (erewrite events_since_trace
         by (cbn; rewrite Hd1, <- !app_assoc; reflexivity));
      unfold null_upgrades, failed_asserts in *; cbn;
      rewrite ?omap_app, Hn, Hnone; done.
  - destruct Hd as [Hc ->].
    rewrite run_backup_stage_admissible in H by by rewrite Hc.
    rewrite Hc in H.
    change (stage_sequence BACKUP_FINISHED BACKUP_START) with [BACKUP_START]
      in H.
    cbn [run_plan] in H.
    match type of H with ?m ?w1 = _ =>
      change (m w1) with
        ((res <- stage_step e BACKUP_START ;;
          if res then
            emit (my_error
                    (ER_BACKUP_STAGE_FAILED
                       (stage_name_at (stage_uint BACKUP_START)))) ;;
            ret true
          else ret false) w1) in H;
      pose proof (stage_step_START e w1) as Hs;
      unfold bind at 1 in H;
      destruct (stage_step e BACKUP_START w1) as [[] ?|?| |]
    end; try done.
    injection H as <-. destruct Hs as ((? & ? & ? & ?) & n & b & ->).
    by split_and!.
Qed.

Lemma only_start_can_wait_witness :
  BACKUP_LOCK_COMMIT <> BACKUP_FINISHED /\
  ticket_in_window w_flushed /\
  run_backup_stage env0 BACKUP_LOCK_COMMIT w_flushed =
  Returns false w_committed /\
  upgrades (events_since w_flushed w_committed) =
  [(Some 1%positive, MDL_BACKUP_WAIT_FLUSH, false);
   (Some 1%positive, MDL_BACKUP_WAIT_DDL, false);
   (Some 1%positive, MDL_BACKUP_WAIT_COMMIT, false)] /\
  null_upgrades (events_since w_flushed w_committed) = [] /\
  failed_asserts (events_since w_flushed w_committed) = [].
Proof.
  assert (Hs : BACKUP_LOCK_COMMIT <> BACKUP_FINISHED) by discriminate.
  assert (Hq : ticket_in_window w_flushed) by (intros _; discriminate).
  assert (Hrun : run_backup_stage env0 BACKUP_LOCK_COMMIT w_flushed =
                 Returns false w_committed) by (vm_compute; reflexivity).
  split; [exact Hs|]. split; [exact Hq|]. split; [exact Hrun|].
  split; [reflexivity|].
  pose proof (only_start_can_wait env0 BACKUP_LOCK_COMMIT w_flushed Hs Hq)
    as H.
  rewrite Hrun in H. exact H.
Defined.

(** ** The locks of others *)

(** What one stage does to the lock table and the flush ticket. *)
Lemma stage_step_locks e s w r w' :
  stage_step e s w = Returns r w' ->
  (mdl_tickets w' = mdl_tickets w /\
   backup_flush_ticket w' = backup_flush_ticket w) \/
  (mdl_tickets w' =
   <[fresh (dom (mdl_tickets w)) := MDL_BACKUP_FLUSH]> (mdl_tickets w) /\
   backup_flush_ticket w' = Some (fresh (dom (mdl_tickets w)))) \/
  (exists t0 m,
     backup_flush_ticket w = Some t0 /\
     mdl_tickets w' = alter (fun _ => m) t0 (mdl_tickets w) /\
     backup_flush_ticket w' = Some t0) \/
  (backup_flush_ticket w' = None /\
   mdl_tickets w' =
   match backup_flush_ticket w with
   | Some t0 => delete t0 (mdl_tickets w)
   | None => mdl_tickets w
   end).
Proof.
  intros H. destruct s.
  - pose proof (stage_step_START e w) as Hs. rewrite H in Hs.
    destruct Hs as (n & b & -> & _). by left.
  - exec_step H e w; auto.
  - exec_step H e w; auto.
    + right; right; left. by eexists _, _.
    + right; right; left. by eexists _, _.
    + right; right; left. eexists _, MDL_BACKUP_WAIT_DDL.
      split; [done|]. split; [|done]. by rewrite alter_alter_eq.
  - exec_step H e w; auto.
    right; right; left. by eexists _, _.
  - exec_step H e w; auto.
  - exec_step H e w; auto.
Qed.

Lemma locks_framed_refl w : locks_framed w w.
Proof. split; [done|]. intros t ?. by left. Qed.

Lemma locks_framed_record d w0 w :
  locks_framed w0 w -> locks_framed w0 (record d w).
Proof. done. Qed.

Lemma stage_step_locks_framed e s w0 w r w' :
  stage_step e s w = Returns r w' ->
  locks_framed w0 w -> locks_framed w0 w'.
Proof.
  intros H [H1 H2].
  assert (Hown : forall t, backup_flush_ticket w = Some t ->
            backup_flush_ticket w0 <> Some t ->
            is_Some (mdl_tickets w0 !! t) -> False).
  { intros t Ht Hne [m Hm]. destruct (H2 t Ht) as [?|Hn]; [done|].
    by rewrite Hn in Hm. }
  destruct (stage_step_locks _ _ _ _ _ H)
    as [[Hm Hf]|[[Hm Hf]|[(t0 & m & Ht & Hm & Hf)|[Hf Hm]]]];
    unfold locks_framed; rewrite Hm, Hf.
  - done.
  - split.
    + intros t Hne Hs. rewrite lookup_insert_ne; [by apply H1|].
      intros <-. rewrite <- (H1 _ Hne Hs) in Hs.
      apply (is_fresh (dom (mdl_tickets w))), elem_of_dom, Hs.
    + intros t [= <-].
      destruct (decide (backup_flush_ticket w0 =
                        Some (fresh (dom (mdl_tickets w))))) as [?|Hne];
        [by left|right].
      destruct (mdl_tickets w0 !! fresh (dom (mdl_tickets w))) eqn:Hl;
        [exfalso|done].
      assert (Hs : is_Some (mdl_tickets w0 !! fresh (dom (mdl_tickets w))))
        by by rewrite Hl.
      rewrite <- (H1 _ Hne Hs) in Hs.
      apply (is_fresh (dom (mdl_tickets w))), elem_of_dom, Hs.
  - split.
    + intros t Hne Hs. rewrite lookup_alter_ne; [by apply H1|].
      intros <-. by eapply Hown.
    + intros t [= <-]. by apply H2.
  - split; [|done].
    intros t Hne Hs. destruct (backup_flush_ticket w) as [t0|] eqn:Ht;
      [|by apply H1].
    rewrite lookup_delete_ne; [by apply H1|].
    intros <-. by eapply Hown.
Qed.

Lemma ran_locks_framed e w0 w ss r w' :
  ran e w ss r w' -> locks_framed w0 w -> locks_framed w0 w'.
Proof.
  induction 1 as [s w r w' H|s ss w w1 r w' H Hran IH]; intros Hf.
  - by eapply stage_step_locks_framed.
  - apply IH. by eapply stage_step_locks_framed.
Qed.

(** X16.  run_backup_stage keeps its hands off the locks of others: the
    session's alter-copy ticket is not changed, every granted lock other
    than the flush ticket keeps its mode and stays granted, and a flush
    ticket that the call leaves behind is the one it found or a lock that
    was not granted before the call. *)
Theorem runner_leaves_other_locks e stage w r w' :
  run_backup_stage e stage w = Returns r w' ->
  mdl_backup_ticket w' = mdl_backup_ticket w /\
  (forall t, backup_flush_ticket w <> Some t ->
             is_Some (mdl_tickets w !! t) ->
             mdl_tickets w' !! t = mdl_tickets w !! t) /\
  (forall t, backup_flush_ticket w' = Some t ->
             backup_flush_ticket w = Some t \/ mdl_tickets w !! t = None).
Proof.
  intros H.
  apply run_backup_stage_returns in H
    as [(_ & _ & err & -> & _)|(_ & ss & w1 & Hran & Hr)].
  { split; [done|]. apply (locks_framed_refl w). }
  destruct (ran_frame _ _ _ _ _ Hran) as (_ & _ & _ & _ & _ & Ha & _).
  pose proof (ran_locks_framed e w _ _ _ _ Hran
                (locks_framed_record _ _ _ (locks_framed_refl w))) as Hf.
  assert (w' = w1 \/ exists d, w' = record d w1) as [->|[d ->]].
  { destruct r; destruct Hr as [_ ->]; [right; by eexists|by left]. }
  - by split.
  - by split.
Qed.

Lemma runner_leaves_other_locks_witness :
  run_backup_stage env0 BACKUP_LOCK_COMMIT w_two_locks =
  Returns false w_two_locks_blocked /\
  mdl_tickets w_two_locks_blocked !! 1%positive = Some MDL_BACKUP_DDL /\
  mdl_tickets w_two_locks_blocked !! 2%positive =
  Some MDL_BACKUP_WAIT_COMMIT /\
  (mdl_backup_ticket w_two_locks_blocked = mdl_backup_ticket w_two_locks /\
   (forall t, backup_flush_ticket w_two_locks <> Some t ->
              is_Some (mdl_tickets w_two_locks !! t) ->
              mdl_tickets w_two_locks_blocked !! t =
              mdl_tickets w_two_locks !! t) /\
   (forall t, backup_flush_ticket w_two_locks_blocked = Some t ->
              backup_flush_ticket w_two_locks = Some t \/
              mdl_tickets w_two_locks !! t = None)).
Proof.
  assert (H : run_backup_stage env0 BACKUP_LOCK_COMMIT w_two_locks =
              Returns false w_two_locks_blocked) by (vm_compute; reflexivity).
  split; [exact H|]. split; [reflexivity|]. split; [reflexivity|].
  exact (runner_leaves_other_locks env0 BACKUP_LOCK_COMMIT w_two_locks false
           w_two_locks_blocked H).
Defined.

(** ** The history of a session *)

Lemma balanced_refl w : balanced w [] w.
Proof. split; [done|]. by rewrite app_nil_r. Qed.

Lemma balanced_trans w d w1 d' w' :
  balanced w d w1 -> balanced w1 d' w' -> balanced w (d ++ d') w'.
Proof.
  intros [H1 H2] [H3 H4]. unfold balanced, prepares, ends, grants, released.
  rewrite !omap_app, !length_app.
  fold (prepares d) (prepares d') (ends d) (ends d') (grants d) (grants d')
    (released d) (released d').
  split; [lia|].
  by rewrite app_assoc, H2, <- app_assoc, H4, app_assoc.
Qed.

(** Events that are no hook call, grant or release, over a state in which
    the stage and the flush ticket stay. *)
Lemma balanced_quiet w d w' :
  prepares d = [] -> ends d = [] -> grants d = [] -> released d = [] ->
  current_backup_stage w' = current_backup_stage w ->
  backup_flush_ticket w' = backup_flush_ticket w ->
  balanced w d w'.
Proof.
  intros Hp He Hg Hr Hc Hf. unfold balanced, in_backup.
  rewrite Hp, He, Hg, Hr, Hc, Hf. split; [done|]. by rewrite app_nil_r.
Qed.

Ltac balance :=
  unfold balanced, in_backup, prepares, ends, grants, released; cbn;
  rewrite ?omap_app, ?omap_replicate_None by done; cbn;
  repeat case_decide; rewrite ?app_nil_r; try done.

(** One stage, entered from the stage the runner enters it from, keeps
    the two accounts. *)
Lemma stage_step_balanced e s w r w' :
  stage_step e s w = Returns r w' ->
  enters_from (current_backup_stage w) s ->
  (~ in_flush_window (current_backup_stage w) ->
   backup_flush_ticket w = None) ->
  exists d, trace w' = trace w ++ d /\ balanced w d w'.
Proof.
  intros H Hfrom Hnone. destruct s; cbn in Hfrom.
  - pose proof (stage_step_START e w) as Hs. rewrite H in Hs.
    destruct Hs as (n & b & -> & H1 & _). eexists; split; [done|].
    unfold start_events.
    destruct r.
    + destruct (read_only_protection e), (locked_tables_mode e); balance.
    + destruct (H1 eq_refl) as (_ & -> & ->). balance.
  - assert (backup_flush_ticket w = None) as Hn.
    { apply Hnone. rewrite Hfrom. unfold in_flush_window; cbn; lia. }
    exec_step H e w; cbn in Hfrom, Hn; subst; normalize_trace;
      (eexists; split; [done|]); balance.
  - exec_step H e w; cbn in Hfrom; subst; normalize_trace;
      (eexists; split; [done|]); balance.
  - exec_step H e w; cbn in Hfrom; subst; normalize_trace;
      (eexists; split; [done|]); balance.
  - exec_step H e w; cbn in Hfrom; normalize_trace;
      (eexists; split; [done|]); balance.
  - assert (backup_flush_ticket w = None) as Hn.
    { apply Hnone. rewrite Hfrom. unfold in_flush_window; cbn; lia. }
    exec_step H e w; cbn in Hfrom, Hn; subst; normalize_trace;
      (eexists; split; [done|]); balance.
Qed.

Lemma ticket_inv_none w :
  ticket_inv w -> ~ in_flush_window (current_backup_stage w) ->
  backup_flush_ticket w = None.
Proof.
  intros [Hi _] Hw. destruct (backup_flush_ticket w) eqn:Ht; [|done].
  exfalso. apply Hw, Hi. done.
Qed.

Lemma ran_balanced e w ss r w' :
  ran e w ss r w' ->
  in_sequence (current_backup_stage w) ss ->
  ticket_inv w ->
  exists d, trace w' = trace w ++ d /\ balanced w d w'.
Proof.
  induction 1 as [s w r w' H|s ss w w1 r w' H Hran IH]; cbn.
  - intros [Hf _] Hi. eapply stage_step_balanced; [done|done|].
    by apply ticket_inv_none.
  - intros [Hf Hs] Hi.
    destruct (stage_step_balanced _ _ _ _ _ H Hf (ticket_inv_none _ Hi))
      as (d & Hd & Hb).
    destruct IH as (d' & Hd' & Hb').
    + destruct (stage_step_returns _ _ _ _ _ H) as (_ & _ & -> & _). done.
    + by eapply stage_step_ticket_inv.
    + exists (d ++ d'). split; [by rewrite Hd', Hd, app_assoc|].
      by eapply balanced_trans.
Qed.

Lemma balanced_record w d :
  prepares d = [] -> ends d = [] -> grants d = [] -> released d = [] ->
  balanced w d (record d w).
Proof. intros. by apply balanced_quiet. Qed.

(** A returned call of an entry point keeps the two accounts. *)
Lemma step_balanced w w' :
  current_backup_stage w <> BACKUP_END -> ticket_inv w -> step w w' ->
  exists d, trace w' = trace w ++ d /\ balanced w d w'.
Proof.
  intros Hw Hi Hstep; revert Hw Hi.
  destruct Hstep as [e stage w0 r w0' H|w0 r w0' H|w0 w0' H|e w0 r w0' H|b w0 H];
    intros Hw Hi.
  - apply run_backup_stage_returns in H
      as [(_ & _ & err & -> & _)|(Ha & ss & w1 & Hran & Hr)].
    { eexists; split; [done|]. by apply balanced_record. }
    assert (exists d, trace w1 = trace w0 ++ d /\ balanced w0 d w1)
      as (d & Hd & Hb).
    { destruct (ran_balanced _ _ _ _ _ Hran) as (d & Hd & Hb).
      - cbn. pose proof (stage_sequence_in_sequence _ _ Hw Ha) as Hs.
        destruct r; [|by destruct Hr as [-> _]].
        destruct Hr as [Hp _]. by eapply in_sequence_prefix.
      - by apply record_ticket_inv.
      - cbn in Hd. eexists. split; [by rewrite Hd, <- app_assoc|].
        eapply balanced_trans; [|exact Hb].
        by apply (balanced_record w0 [DBUG_ENTER "run_backup_stage"]). }
    destruct r; destruct Hr as [_ ->]; [|by exists d].
    eexists. split; [cbn; by rewrite Hd, <- app_assoc|].
    eapply balanced_trans; [exact Hb|]. by apply balanced_record.
  - destruct (decide (current_backup_stage w0 = BACKUP_FINISHED)) as [Hc|Hc].
    + rewrite backup_end_finished in H by done. injection H as <- <-.
      eexists; split; [done|]. by apply balanced_record.
    + rewrite backup_end_active in H by done. injection H as <- <-.
      eexists; split; [done|]. unfold backup_end_events.
      destruct (backup_flush_ticket w0) eqn:Ht; balance; by rewrite Ht.
  - unfold backup_set_alter_copy_lock in H.
    unfold_collaborators; unfold_monad; cbn in H.
    destruct (mdl_backup_ticket w0); injection H as <-; cbn.
    + eexists; split; [done|]. by apply balanced_quiet.
    + exists []. split; [by rewrite app_nil_r|]. apply balanced_refl.
  - unfold backup_reset_alter_copy_lock in H.
    unfold_collaborators; unfold_monad; cbn in H.
    destruct (mdl_backup_ticket w0), (upgrade_ddl_fails e);
      injection H as <- <-; cbn;
      first [ exists []; split; [by rewrite app_nil_r|]; apply balanced_refl
            | eexists; split; [done|]; by apply balanced_quiet ].
  - exists []. split; [cbn; by rewrite app_nil_r|]. by apply balanced_quiet.
Qed.

(** What holds of a session all along its life. *)
Lemma session_history w0 w :
  initial w0 -> rtc step w0 w ->
  current_backup_stage w <> BACKUP_END /\ ticket_inv w /\
  exists d, trace w = trace w0 ++ d /\ balanced w0 d w.
Proof.
  intros (Hc & _ & Ht) Hsteps.
  revert w Hsteps. apply rtc_ind_r; [|intros w1 w2 Hs Hstep IH].
  - split; [by rewrite Hc|]. split.
    + split; [by rewrite Ht|]. rewrite Hc. unfold in_flush_window; cbn; lia.
    + exists []. split; [by rewrite app_nil_r|]. apply balanced_refl.
  - destruct IH as (Hne & Hi & d & Hd & Hb).
    split; [by eapply step_not_END|].
    split; [by eapply step_ticket_inv|].
    destruct (step_balanced _ _ Hne Hi Hstep) as (d' & Hd' & Hb').
    exists (d ++ d'). split; [by rewrite Hd', Hd, app_assoc|].
    by eapply balanced_trans.
Qed.

Lemma second_backup_history : rtc step world0 w_second_backup.
Proof.
  apply rtc_l with w_started;
    [by apply (step_run_backup_stage env0 BACKUP_START world0 false)|].
  apply rtc_l with w_flushed;
    [by apply (step_run_backup_stage env0 BACKUP_FLUSH w_started false)|].
  apply rtc_l with w_flushed_ended;
    [by apply (step_run_backup_stage env0 BACKUP_END w_flushed false)|].
  apply rtc_l with w_second_backup;
    [by apply (step_run_backup_stage env0 BACKUP_START w_flushed_ended false)|].
  apply rtc_refl.
Defined.

(** X17.  Over the whole life of a session the storage engines are asked
    to end a backup once for every time they were asked to prepare one,
    never more often, and the one prepare without its end is the backup the
    session is in: the calls of ha_prepare_for_backup are as many as the
    calls of ha_end_backup, plus one exactly while the stage is not
    BACKUP_FINISHED. *)
Theorem engine_hooks_paired w0 w :
  initial w0 -> rtc step w0 w ->
  length (prepares (events_since w0 w)) =
  (length (ends (events_since w0 w)) + in_backup w)%nat.
Proof.
  intros Hi Hs.
  destruct (session_history _ _ Hi Hs) as (_ & _ & d & Hd & [Hb _]).
  rewrite (events_since_trace _ _ _ Hd).
  destruct Hi as (Hc & _). unfold in_backup in Hb at 1.
  rewrite Hc in Hb. case_decide; [lia|done].
Qed.

Lemma engine_hooks_paired_witness :
  initial world0 /\ rtc step world0 w_second_backup /\
  length (prepares (events_since world0 w_second_backup)) = 2%nat /\
  length (prepares (events_since world0 w_second_backup)) =
  (length (ends (events_since world0 w_second_backup)) +
   in_backup w_second_backup)%nat.
Proof.
  assert (Hi : initial world0) by done.
  split; [exact Hi|]. split; [exact second_backup_history|].
  split; [reflexivity|].
  exact (engine_hooks_paired world0 w_second_backup Hi second_backup_history).
Defined.

(** X18.  No lock is lost: over the whole life of a session the locks
    granted to backup_flush are the locks handed to release_lock, in the
    same order and each once, followed by the flush ticket when one is
    held.  A session whose flush ticket is null has given back every lock
    it was granted. *)
Theorem no_lock_left_behind w0 w :
  initial w0 -> rtc step w0 w ->
  grants (events_since w0 w) =
  released (events_since w0 w) ++ option_list (backup_flush_ticket w).
Proof.
  intros Hi Hs.
  destruct (session_history _ _ Hi Hs) as (_ & _ & d & Hd & [_ Hb]).
  rewrite (events_since_trace _ _ _ Hd).
  destruct Hi as (_ & _ & Ht). by rewrite Ht in Hb.
Qed.

Lemma no_lock_left_behind_witness :
  initial world0 /\ rtc step world0 w_second_backup /\
  length (grants (events_since world0 w_second_backup)) = 1%nat /\
  backup_flush_ticket w_second_backup = None /\
  grants (events_since world0 w_second_backup) =
  released (events_since world0 w_second_backup) ++
  option_list (backup_flush_ticket w_second_backup).
Proof.
  assert (Hi : initial world0) by done.
  split; [exact Hi|]. split; [exact second_backup_history|].
  split; [reflexivity|]. split; [reflexivity|].
  exact (no_lock_left_behind world0 w_second_backup Hi second_backup_history).
Defined.

(** ** Start-up *)

(** X19.  After backup_init the first BACKUP STAGE START of a session
    never waits, whatever the two globals held before: it returns, fails
    exactly when the session is read-only protected, under LOCK TABLES or
    killed, takes the slot exactly when it succeeds, and leaves the flush
    ticket null and the lock table as it was. *)
Theorem start_after_init_never_waits e w :
  current_backup_stage w = BACKUP_FINISHED ->
  exists w',
    (backup_init ;; run_backup_stage e BACKUP_START) w =
    Returns (start_refused e) w' /\
    current_backup_stage w' =
    (if start_refused e then BACKUP_FINISHED else BACKUP_START) /\
    backup_running w' = negb (start_refused e) /\
    backup_flush_ticket w' = None /\
    mdl_backup_ticket w' = mdl_backup_ticket w /\
    mdl_tickets w' = mdl_tickets w /\
    waits (events_since w w') = [].
Proof.
  intros Hc. destruct w as [cur alt run ft tks tr]; cbn in Hc; subst cur.
  unfold bind at 1. unfold backup_init; unfold_monad; cbn -[run_backup_stage events_since].
  rewrite run_backup_stage_admissible by done. cbn [current_backup_stage].
  change (stage_sequence BACKUP_FINISHED BACKUP_START) with [BACKUP_START].
  unfold start_refused, run_plan, run_stage_handler, backup_start, record.
  unfold_collaborators; unfold_monad; cbn -[events_since].
  destruct (read_only_protection e); cbn -[events_since].
  { eexists; split; [done|]. cbn -[events_since].
    erewrite events_since_trace by (cbn; normalize_trace; reflexivity).
    by split_and!. }
  destruct (locked_tables_mode e); cbn -[events_since].
  { eexists; split; [done|]. cbn -[events_since].
    erewrite events_since_trace by (cbn; normalize_trace; reflexivity).
    by split_and!. }
  assert (Hw : forall k w1,
            backup_running w1 = false ->
            wait_for_backup k (wakeups e) w1 = Returns k w1).
  { intros k w1 Hr. destruct (wakeups e); cbn; by rewrite Hr. }
  rewrite Hw by done. cbn -[events_since].
  destruct (killed e), (killed_late e); cbn -[events_since];
    (eexists; split; [done|]); cbn -[events_since];
    (erewrite events_since_trace by (cbn; normalize_trace; reflexivity));
    by split_and!.
Qed.

Lemma start_after_init_never_waits_witness :
  current_backup_stage w_other_running = BACKUP_FINISHED /\
  backup_running w_other_running = true /\
  exists w',
    (backup_init ;; run_backup_stage env0 BACKUP_START) w_other_running =
    Returns (start_refused env0) w' /\
    current_backup_stage w' =
    (if start_refused env0 then BACKUP_FINISHED else BACKUP_START) /\
    backup_running w' = negb (start_refused env0) /\
    backup_flush_ticket w' = None /\
    mdl_backup_ticket w' = mdl_backup_ticket w_other_running /\
    mdl_tickets w' = mdl_tickets w_other_running /\
    waits (events_since w_other_running w') = [].
Proof.
  split; [reflexivity|]. split; [reflexivity|].
  exact (start_after_init_never_waits env0 w_other_running eq_refl).
Defined.

(** ** The mutex of the slot *)

Lemma mutex_discipline_app d1 : forall h d2,
  mutex_discipline h d1 = true ->
  mutex_discipline h (d1 ++ d2) = mutex_discipline false d2.
Proof.
  induction d1 as [|ev d1 IH]; intros h d2 H.
  - by destruct h.
  - destruct ev, h; cbn in H |- *; try done; by apply IH.
Qed.

Lemma mutex_discipline_wait n d :
  mutex_discipline true (replicate n cond_wait ++ d) =
  mutex_discipline true d.
Proof. induction n as [|n IH]; [done|]. cbn. exact IH. Qed.

Lemma stage_step_mutex e s w r w' :
  stage_step e s w = Returns r w' ->
  exists d, trace w' = trace w ++ d /\ mutex_discipline false d = true.
Proof.
  intros H. destruct s.
  - pose proof (stage_step_START e w) as Hs. rewrite H in Hs.
    destruct Hs as (n & b & -> & _). eexists; split; [done|].
    unfold start_events.
    destruct (read_only_protection e), (locked_tables_mode e), r; cbn;
      by rewrite <- ?app_assoc, ?mutex_discipline_wait.
  - exec_step H e w; normalize_trace; by (eexists; split; [done|]).
  - exec_step H e w; normalize_trace; by (eexists; split; [done|]).
  - exec_step H e w; normalize_trace; by (eexists; split; [done|]).
  - exec_step H e w; normalize_trace; by (eexists; split; [done|]).
  - exec_step H e w; normalize_trace; by (eexists; split; [done|]).
Qed.

Lemma ran_mutex e w ss r w' :
  ran e w ss r w' ->
  exists d, trace w' = trace w ++ d /\ mutex_discipline false d = true.
Proof.
  induction 1 as [s w r w' H|s ss w w1 r w' H Hran IH].
  - by eapply stage_step_mutex.
  - destruct (stage_step_mutex _ _ _ _ _ H) as (d & Hd & Hm).
    destruct IH as (d' & Hd' & Hm').
    exists (d ++ d'). split; [by rewrite Hd', Hd, app_assoc|].
    by rewrite mutex_discipline_app.
Qed.

(** X20.  Every returned call of an entry point of the file keeps the
    discipline of LOCK_backup: it writes [backup_running], waits and
    signals only between a mysql_mutex_lock and the EXIT_COND or
    mysql_mutex_unlock that follows it, never takes the mutex while it
    holds it, and returns without it. *)
Theorem slot_written_under_mutex c e w r w' :
  run_call c e w = Returns r w' ->
  mutex_discipline false (events_since w w') = true.
Proof.
  intros H. destruct c as [stage| | |]; cbn [run_call] in H.
  - apply run_backup_stage_returns in H
      as [(_ & _ & err & -> & _)|(_ & ss & w1 & Hran & Hr)].
    { by erewrite events_since_trace by (cbn; reflexivity). }
    destruct (ran_mutex _ _ _ _ _ Hran) as (d & Hd & Hm). cbn in Hd.
    destruct r; destruct Hr as [_ ->].
    + erewrite events_since_trace
        by (cbn; rewrite Hd, <- !app_assoc; reflexivity).
      cbn. by rewrite mutex_discipline_app.
    + erewrite events_since_trace by (rewrite Hd, <- !app_assoc; reflexivity).
      done.
  - destruct (decide (current_backup_stage w = BACKUP_FINISHED)) as [Hc|Hc].
    + rewrite backup_end_finished in H by done. injection H as <- <-.
      by erewrite events_since_trace by (cbn; reflexivity).
    + rewrite backup_end_active in H by done. injection H as <- <-.
      erewrite events_since_trace by (cbn; reflexivity).
      unfold backup_end_events. by destruct (backup_flush_ticket w).
  - unfold backup_set_alter_copy_lock in H.
    unfold_collaborators; unfold_monad; cbn in H.
    destruct (mdl_backup_ticket w); injection H as <- <-.
    + by erewrite events_since_trace by (cbn; reflexivity).
    + by rewrite events_since_refl.
  - unfold backup_reset_alter_copy_lock in H.
    unfold_collaborators; unfold_monad; cbn in H.
    destruct (mdl_backup_ticket w), (upgrade_ddl_fails e);
      injection H as <- <-;
      first [ by rewrite events_since_refl
            | by erewrite events_since_trace by (cbn; reflexivity) ].
Qed.

Lemma slot_written_under_mutex_witness :
  run_call (call_run_backup_stage BACKUP_START) env_killed_waiting
    w_other_running = Returns true w_killed_waiting /\
  waits (events_since w_other_running w_killed_waiting) = [(); ()] /\
  mutex_discipline false (events_since w_other_running w_killed_waiting) =
  true.
Proof.
  assert (H : run_call (call_run_backup_stage BACKUP_START)
                env_killed_waiting w_other_running =
              Returns true w_killed_waiting) by (vm_compute; reflexivity).
  split; [exact H|]. split; [reflexivity|].
  exact (slot_written_under_mutex _ _ _ _ _ H).
Defined.

(** ** Requests in several steps *)

Lemma run_plan_cons e st s rest w :
  run_plan e st (s :: rest) w =
  match stage_step e s w with
  | Returns res w1 =>
      if res then
        Returns true
          (record
             [my_error (ER_BACKUP_STAGE_FAILED (stage_name_at (stage_uint st)))]
             w1)
      else run_plan e st rest w1
  | Blocks w1 => Blocks w1
  | Undefined => Undefined
  | OutOfFuel => OutOfFuel
  end.
Proof.
  cbn [run_plan]. unfold stage_step, bind, set_stage.
  destruct (run_stage_handler e s _) as [[] ?| | |]; done.
Qed.

(** A plan in two parts: the second part runs when the first succeeded. *)
Lemma run_plan_app e st l1 : forall l2 w,
  run_plan e st (l1 ++ l2) w =
  match run_plan e st l1 w with
  | Returns res w1 => if res then Returns true w1 else run_plan e st l2 w1
  | Blocks w1 => Blocks w1
  | Undefined => Undefined
  | OutOfFuel => OutOfFuel
  end.
Proof.
  induction l1 as [|s l1 IH]; intros l2 w; [done|].
  rewrite <- app_comm_cons, !run_plan_cons.
  destruct (stage_step e s w) as [[] w1| | |]; first [done|apply IH].
Qed.

(** The requested stage only names the error: a plan that succeeds does
    so whatever stage was requested. *)
Lemma run_plan_success e st st' l : forall w w1,
  run_plan e st l w = Returns false w1 ->
  run_plan e st' l w = Returns false w1.
Proof.
  induction l as [|s l IH]; intros w w1; [done|].
  rewrite !run_plan_cons.
  destruct (stage_step e s w) as [[] ?| | |]; first [done|apply IH].
Qed.

Ltac rewrite_answers e :=
  repeat match goal with
         | Hx : ?f e = _ |- context [?f e] => rewrite Hx
         end.

(** No handler but backup_start's wait loop depends on anything but the
    session and the two globals: with other events before it, a stage
    does the same and adds the same events. *)
Lemma stage_step_retrace e s w r w' :
  s <> BACKUP_START ->
  stage_step e s w = Returns r w' ->
  exists d,
    trace w' = trace w ++ d /\
    forall tr0,
      stage_step e s (with_trace tr0 w) = Returns r (with_trace (tr0 ++ d) w').
Proof.
  intros Hs H. destruct s; [done|..];
    exec_step H e w; normalize_trace;
    (eexists; split; [reflexivity|]); intros tr0;
    unfold with_trace, stage_step, run_stage_handler, backup_flush,
      backup_block_ddl, backup_block_commit, backup_end;
    unfold_collaborators; unfold_monad; cbn;
    rewrite_answers e; cbn; repeat (case_decide; [|done]; cbn);
    normalize_trace; reflexivity.
Qed.

Lemma run_plan_retrace e st l : forall w r w',
  BACKUP_START ∉ l ->
  run_plan e st l w = Returns r w' ->
  exists d,
    trace w' = trace w ++ d /\
    forall tr0,
      run_plan e st l (with_trace tr0 w) = Returns r (with_trace (tr0 ++ d) w').
Proof.
  induction l as [|s l IH]; intros w r w' Hn H.
  - injection H as <- <-. exists []. split; [by rewrite app_nil_r|].
    intros tr0. cbn. unfold ret. by rewrite app_nil_r.
  - rewrite run_plan_cons in H.
    destruct (stage_step e s w) as [res w1| | |] eqn:Hstep; try done.
    assert (Hs : s <> BACKUP_START) by (intros ->; apply Hn; by left).
    destruct (stage_step_retrace _ _ _ _ _ Hs Hstep) as (d1 & Hd1 & Hre1).
    destruct res.
    + injection H as <- <-. eexists (d1 ++ [_]).
      split; [cbn; by rewrite Hd1, app_assoc|].
      intros tr0. rewrite run_plan_cons, Hre1.
      unfold record, with_trace; cbn. by rewrite app_assoc.
    + destruct (IH w1 r w') as (d2 & Hd2 & Hre2); [|done|].
      { intros Hin. apply Hn. by right. }
      exists (d1 ++ d2). split; [by rewrite Hd2, Hd1, app_assoc|].
      intros tr0. rewrite run_plan_cons, Hre1, app_assoc. apply Hre2.
Qed.

(** X21.  Stages can be requested one by one or several at once, to the
    same effect.  When a session in a backup has reached stage [s1] by a
    successful request, a request for a later stage [s2] (END apart, which
    skips the stages between) returns what the request for [s2] would
    have returned in place of the first request, leaves the same stage,
    globals and lock table, and makes the same calls in the same order:
    the events differ by the one more entry into run_backup_stage. *)
Theorem request_in_two_steps e s1 s2 w w1 :
  current_backup_stage w <> BACKUP_FINISHED ->
  s1 <> BACKUP_END -> s2 <> BACKUP_END ->
  stage_uint s1 < stage_uint s2 ->
  run_backup_stage e s1 w = Returns false w1 ->
  exists r w2 w2' d,
    run_backup_stage e s2 w1 = Returns r w2 /\
    run_backup_stage e s2 w = Returns r w2' /\
    observable w2' = observable w2 /\
    events_since w1 w2 = DBUG_ENTER "run_backup_stage" :: d /\
    events_since w w2' = events_since w w1 ++ d.
Proof.
  intros Hc H1 H2 Hlt Hrun.
  destruct (run_backup_stage_returns _ _ _ _ _ Hrun)
    as [(_ & [=] & _)|(Ha & ss & w1' & Hran & -> & <-)].
  destruct (ran_frame _ _ _ _ _ Hran) as (f & d0 & Hl & Hd0 & Hc1 & _).
  rewrite (stage_sequence_last _ _ Ha) in Hl. injection Hl as <-.
  replace (stage_after s1 false) with s1 in Hc1 by by destruct s1.
  cbn in Hd0.
  assert (Hlt1 : stage_uint (current_backup_stage w) < stage_uint s1).
  { unfold admissible in Ha. case_decide; [done|]. by apply Z.ltb_lt. }
  assert (Ha2 : admissible (current_backup_stage w) s2 = true).
  { unfold admissible. case_decide; [done|]. apply Z.ltb_lt. lia. }
  assert (Ha3 : admissible s1 s2 = true).
  { unfold admissible. case_decide; [|by apply Z.ltb_lt].
    match goal with Hf : s1 = BACKUP_FINISHED |- _ => rewrite Hf in Hlt end.
    destruct s2; unfold stage_uint in Hlt; lia. }
  pose proof (run_backup_stage_defined e s2 w) as Hdef.
  destruct (run_backup_stage e s2 w) as [r w2'| | |] eqn:Hdir; try done;
    [|by destruct Hdef].
  rewrite run_backup_stage_admissible in Hrun, Hdir by done.
  rewrite (stage_sequence_split _ s1) in Hdir by (done || lia).
  rewrite run_plan_app, (run_plan_success _ _ s2 _ _ _ Hrun) in Hdir.
  assert (Hns : BACKUP_START ∉ stage_sequence s1 s2).
  { assert (s1 <> BACKUP_FINISHED)
      by (intros ->; destruct s2; unfold stage_uint in Hlt; lia).
    intros [[=]|[_ Hin]]%stage_sequence_elem; [|done].
    destruct s1; unfold stage_uint in Hin; lia. }
  destruct (run_plan_retrace _ _ _ _ _ _ Hns Hdir) as (d & Hd & Hre).
  exists r, (with_trace ((trace w1 ++ [DBUG_ENTER "run_backup_stage"]) ++ d)
               w2'), w2', d.
  split.
  { rewrite run_backup_stage_admissible by by rewrite Hc1.
    rewrite Hc1. apply Hre. }
  split; [done|]. split; [done|]. split.
  - apply events_since_trace. cbn. by rewrite <- app_assoc.
  - rewrite <- app_assoc in Hd0. rewrite (events_since_trace w w1 _ Hd0).
    apply events_since_trace. by rewrite Hd, Hd0, <- !app_assoc.
Qed.

Lemma request_in_two_steps_witness :
  current_backup_stage w_started <> BACKUP_FINISHED /\
  stage_uint BACKUP_FLUSH < stage_uint BACKUP_LOCK_COMMIT /\
  run_backup_stage env0 BACKUP_FLUSH w_started = Returns false w_flushed /\
  exists r w2 w2' d,
    run_backup_stage env0 BACKUP_LOCK_COMMIT w_flushed = Returns r w2 /\
    run_backup_stage env0 BACKUP_LOCK_COMMIT w_started = Returns r w2' /\
    observable w2' = observable w2 /\
    events_since w_flushed w2 = DBUG_ENTER "run_backup_stage" :: d /\
    events_since w_started w2' = events_since w_started w_flushed ++ d.
Proof.
  assert (Hc : current_backup_stage w_started <> BACKUP_FINISHED)
    by discriminate.
  assert (H1 : BACKUP_FLUSH <> BACKUP_END) by discriminate.
  assert (H2 : BACKUP_LOCK_COMMIT <> BACKUP_END) by discriminate.
  assert (Hlt : stage_uint BACKUP_FLUSH < stage_uint BACKUP_LOCK_COMMIT)
    by reflexivity.
  assert (H : run_backup_stage env0 BACKUP_FLUSH w_started =
              Returns false w_flushed) by (vm_compute; reflexivity).
  split; [exact Hc|]. split; [exact Hlt|]. split; [exact H|].
  exact (request_in_two_steps env0 BACKUP_FLUSH BACKUP_LOCK_COMMIT w_started
           w_flushed Hc H1 H2 Hlt H).
Defined.

(** ** The result and the diagnostics *)

Lemma own_reports_errors d : errors d = [] -> own_reports d = [].
Proof.
  induction d as [|ev d IH]; [done|].
  destruct ev; cbn; try done; exact IH.
Qed.

(** X22.  The result of run_backup_stage and the errors the file reports
    agree: the call returns failure exactly when the file itself has
    called my_error, and then its last action is the report of one of the
    three errors of run_backup_stage; on a success return the file has
    called my_error not once.  Errors raised inside the collaborators are
    another matter: a call in which the flush of the system tables fails
    still returns success. *)
Theorem failure_is_reported e stage w r w' :
  run_backup_stage e stage w = Returns r w' ->
  (r = true <-> own_reports (events_since w w') <> []) /\
  (r = true ->
   exists d x,
     events_since w w' = d ++ [my_error x] /\ runner_error x = true).
Proof.
  intros H.
  apply run_backup_stage_returns in H
    as [(_ & -> & err & -> & Herr)|(_ & ss & w1 & Hran & Hr)].
  { erewrite events_since_trace by (cbn; reflexivity).
    assert (runner_error err = true)
      by (destruct Herr as [->|[_ ->]]; done).
    split.
    - split; [|done]. intros _. cbn. by destruct err.
    - intros _. by exists [DBUG_ENTER "run_backup_stage"], err. }
  destruct (ran_effects _ _ _ _ _ Hran) as (d & Hd & He & _). cbn in Hd.
  destruct r; destruct Hr as [_ ->].
  - erewrite events_since_trace
      by (cbn; rewrite Hd, <- !app_assoc; reflexivity).
    split.
    + split; [|done]. intros _. unfold own_reports. cbn.
      rewrite omap_app. cbn.
      intros Hnil. by apply app_eq_nil in Hnil as [_ ?].
    + intros _. by eexists (DBUG_ENTER "run_backup_stage" :: d), _.
  - erewrite events_since_trace by (rewrite Hd, <- !app_assoc; reflexivity).
    cbn. fold (own_reports d).
    rewrite (own_reports_errors d) by by apply He.
    split; [|done]. split; [done|]. intros Hne. by destruct Hne.
Qed.

Lemma failure_is_reported_witness :
  run_backup_stage env_flush_fails BACKUP_FLUSH w_started =
  Returns true w_flush_failed /\
  own_reports (events_since w_started w_flush_failed) =
  [ER_BACKUP_STAGE_FAILED (Some "FLUSH")] /\
  (true = true <->
   own_reports (events_since w_started w_flush_failed) <> []) /\
  (true = true ->
   exists d x,
     events_since w_started w_flush_failed = d ++ [my_error x] /\
     runner_error x = true).
Proof.
  assert (H : run_backup_stage env_flush_fails BACKUP_FLUSH w_started =
              Returns true w_flush_failed) by (vm_compute; reflexivity).
  split; [exact H|]. split; [reflexivity|].
  exact (failure_is_reported env_flush_fails BACKUP_FLUSH w_started true
           w_flush_failed H).
Defined.

(** A success return does not tell that every collaborator succeeded:
    with a failing flush of the system tables the BLOCK_COMMIT request
    returns success and the file reports nothing. *)
Lemma success_despite_failed_flush :
  exists w',
    run_backup_stage env_flush_sys_fails BACKUP_LOCK_COMMIT w_flushed =
    Returns false w' /\
    table_flushes (events_since w_flushed w') =
    [(FLUSH_NON_TRANS_TABLES, false); (FLUSH_SYS_TABLES, true)] /\
    own_reports (events_since w_flushed w') = [].
Proof.
  eexists. split; [vm_compute; reflexivity|].
  split; vm_compute; reflexivity.
Qed.
